(** * The GRO dispatcher of the network stack (package stack)

    A shallow embedding of the generic receive offload dispatcher:
    [groBucket], [groPacket], [groDispatcher] and their methods, with the
    properties of the coalescing path and of the timer flush.

    Conventions.
    - Go integers are [Z] with their wrap-around written out.
    - A byte slice is a [list byte]; an index out of range panics.
    - A [*groPacket] always points into the [packetsPrealloc] array of its
      own bucket, so a pointer is the index of the slot ([nat]) and the
      nil pointer is [None].
    - A run either returns ([Done]), panics ([Panic]) or has not finished
      within the given number of loop iterations ([OutOfFuel]).
    - [HandlePacket] calls are recorded, oldest first, in a delivery log. *)

From Stdlib Require Import ZArith Lia Bool.
From Stdlib Require Import Strings.Byte.
From stdpp Require Import base option list.

Local Open Scope Z_scope.

(** ** Results of a run *)

Inductive Res (A : Type) : Type :=
| Done (a : A)
| Panic
| OutOfFuel.
Arguments Done {A} a.
Arguments Panic {A}.
Arguments OutOfFuel {A}.

#[global] Instance Res_ret : MRet Res := fun A a => Done a.
#[global] Instance Res_bind : MBind Res := fun A B f m =>
  match m with
  | Done a => f a
  | Panic => Panic
  | OutOfFuel => OutOfFuel
  end.

(** Short-circuit [||] of Go over computations that may panic. *)
Definition orElse (a b : Res bool) : Res bool :=
  x ← a; if (x : bool) then Done true else b.
Infix "|||" := orElse (at level 50, left associativity).

(** ** Bytes and slices *)

Definition u8 (b : byte) : Z := Z.of_N (Byte.to_N b).

Definition b8 (z : Z) : byte :=
  match Byte.of_N (Z.to_N (z mod 256)) with
  | Some b => b
  | None => Byte.x00
  end.

#[global] Instance byte_eq_decision : EqDecision byte := Byte.byte_eq_dec.

(** [b[i]] *)
Definition at_ (b : list byte) (i : nat) : Res Z :=
  match b !! i with
  | Some x => Done (u8 x)
  | None => Panic
  end.

(** [b[lo:hi]] for [lo <= hi] *)
Definition slice (b : list byte) (lo hi : nat) : Res (list byte) :=
  if (length b <? hi)%nat then Panic else Done (take (hi - lo) (drop lo b)).

(** [binary.BigEndian.Uint16(b[off:])] *)
Definition Uint16 (b : list byte) (off : nat) : Res Z :=
  hi ← at_ b off; lo ← at_ b (S off); Done (hi * 256 + lo).

(** [binary.BigEndian.Uint32(b[off:])] *)
Definition Uint32 (b : list byte) (off : nat) : Res Z :=
  b0 ← at_ b off; b1 ← at_ b (off + 1); b2 ← at_ b (off + 2);
  b3 ← at_ b (off + 3);
  Done (((b0 * 256 + b1) * 256 + b2) * 256 + b3).

(** [binary.BigEndian.PutUint16(b[off:], v)] *)
Definition PutUint16 (b : list byte) (off : nat) (v : Z) : Res (list byte) :=
  if (length b <? off + 2)%nat then Panic
  else Done (<[S off := b8 v]> (<[off := b8 (v / 256)]> b)).

(** ** Header views

    Modelled from the spec: the header package ([header.IPv4],
    [header.TCP]) is not part of the sources at hand. The spec's PacketView
    lists the fields it exposes; they are read here at their RFC 791 and
    RFC 793 positions, as unsigned integers of the width of the field. *)

Module header.

Definition IPv4MinimumSize : Z := 20.
Definition TCPMinimumSize : Z := 20.
Definition IPv4ProtocolNumber : Z := 0x0800.
Definition TCPProtocolNumber : Z := 6.

Definition IPv4FlagMoreFragments : Z := 1.
Definition IPv4FlagDontFragment : Z := 2.

Definition TCPFlagFin : Z := 1.
Definition TCPFlagSyn : Z := 2.
Definition TCPFlagRst : Z := 4.
Definition TCPFlagPsh : Z := 8.
Definition TCPFlagAck : Z := 16.
Definition TCPFlagUrg : Z := 32.
Definition TCPFlagEce : Z := 64.
Definition TCPFlagCwr : Z := 128.

Module IPv4.
Definition HeaderLength (b : list byte) : Res Z :=
  v ← at_ b 0; Done (Z.land v 0x0f * 4).
Definition TOS (b : list byte) : Res Z := at_ b 1.
Definition TotalLength (b : list byte) : Res Z := Uint16 b 2.
Definition Flags (b : list byte) : Res Z :=
  v ← Uint16 b 6; Done (Z.shiftr v 13).
Definition FragmentOffset (b : list byte) : Res Z :=
  v ← Uint16 b 6; Done (Z.shiftl v 3 mod 65536).
Definition TTL (b : list byte) : Res Z := at_ b 8.
Definition Protocol (b : list byte) : Res Z := at_ b 9.
Definition SourceAddress (b : list byte) : Res (list byte) := slice b 12 16.
Definition DestinationAddress (b : list byte) : Res (list byte) :=
  slice b 16 20.
Definition SetTotalLength (b : list byte) (totalLength : Z) :
  Res (list byte) := PutUint16 b 2 totalLength.
End IPv4.

Module TCP.
Definition SourcePort (b : list byte) : Res Z := Uint16 b 0.
Definition DestinationPort (b : list byte) : Res Z := Uint16 b 2.
Definition SequenceNumber (b : list byte) : Res Z := Uint32 b 4.
Definition AckNumber (b : list byte) : Res Z := Uint32 b 8.
Definition DataOffset (b : list byte) : Res Z :=
  v ← at_ b 12; Done (Z.shiftr v 4 * 4).
Definition Flags (b : list byte) : Res Z := at_ b 13.
Definition SetFlags (b : list byte) (flags : Z) : Res (list byte) :=
  if (length b <? 14)%nat then Panic else Done (<[13%nat := b8 flags]> b).
End TCP.

End header.

(** ** Packets and endpoints *)

(** A packet buffer: the bytes of [Data()] (network header first), the
    checksum mark and the reference count. *)
Record PacketBuffer := mkPacketBuffer {
  pb_data : list byte;
  pb_RXChecksumValidated : bool;
  pb_refs : Z;
}.

(** [PacketBufferPtr]; [None] is the zero value. *)
Definition PacketBufferPtr := option PacketBuffer.

Definition IncRef (pk : PacketBuffer) : PacketBuffer :=
  mkPacketBuffer (pb_data pk) (pb_RXChecksumValidated pk) (pb_refs pk + 1).

(** [pkt.Data().PullUp(size)] *)
Definition PullUp (pk : PacketBuffer) (size : Z) : option (list byte) :=
  if Z.of_nat (length (pb_data pk)) <? size then None
  else Some (take (Z.to_nat size) (pb_data pk)).

(** [pkt.Data().Size()] *)
Definition Size (pk : PacketBuffer) : Z := Z.of_nat (length (pb_data pk)).

(** A [NetworkEndpoint] interface value; [None] is the nil interface. *)
Definition NetworkEndpoint := option nat.

(** One call [ep.HandlePacket(pkt)]. *)
Definition Delivery := (nat * PacketBufferPtr)%type.

Definition HandlePacket (ep : NetworkEndpoint) (pkt : PacketBufferPtr)
    (out : list Delivery) : Res (list Delivery) :=
  match ep with
  | Some e => Done (out ++ [(e, pkt)])
  | None => Panic
  end.

(** ** Constants *)

Definition groNBuckets : Z := 8.
Definition groNBucketsMask : Z := groNBuckets - 1.
Definition groBucketSize : Z := 8.
Definition groMaxPacketSize : Z := Z.shiftl 1 16.

(** ** The staged packets *)

(** The links of the intrusive list, embedded in every [groPacket]. *)
Record groPacketEntry := mkEntry {
  next : option nat;
  prev : option nat;
}.

Record groPacket := mkGroPacket {
  pk_entry : groPacketEntry;
  pk_pkt : PacketBufferPtr;
  pk_ipHdr : list byte;
  pk_tcpHdr : list byte;
  pk_created : Z;
  pk_ep : NetworkEndpoint;
  pk_idx : Z;
}.

(** [groPacket{}] *)
Definition groPacket_zero : groPacket :=
  mkGroPacket (mkEntry None None) None [] [] 0 None 0.

Definition with_entry (e : groPacket) (l : groPacketEntry) : groPacket :=
  mkGroPacket l (pk_pkt e) (pk_ipHdr e) (pk_tcpHdr e) (pk_created e)
    (pk_ep e) (pk_idx e).

Definition with_idx (e : groPacket) (i : Z) : groPacket :=
  mkGroPacket (pk_entry e) (pk_pkt e) (pk_ipHdr e) (pk_tcpHdr e)
    (pk_created e) (pk_ep e) i.

(** payloadSize is the payload size of the coalesced packet, which does not
    include the network or transport headers. *)
Definition payloadSize (pk : groPacket) : Res Z :=
  tl ← header.IPv4.TotalLength (pk_ipHdr pk);
  off ← header.TCP.DataOffset (pk_tcpHdr pk);
  Done ((tl - header.IPv4MinimumSize - off) mod 65536).

(** ** The intrusive list

    Modelled from the spec: [groPacketList] is generated from the ilist
    template, which is not part of the sources at hand. The spec describes a
    doubly-linked intrusive list ordered by arrival, front oldest; the links
    are the [groPacketEntry] embedded in each element, so they live in the
    slots of the bucket. *)

Record groPacketList := mkList {
  l_head : option nat;
  l_tail : option nat;
}.

Definition deref (mem : list groPacket) (p : nat) : Res groPacket :=
  match mem !! p with
  | Some e => Done e
  | None => Panic
  end.

Definition SetNext (mem : list groPacket) (p : nat) (v : option nat) :
    Res (list groPacket) :=
  e ← deref mem p;
  Done (<[p := with_entry e (mkEntry v (prev (pk_entry e)))]> mem).

Definition SetPrev (mem : list groPacket) (p : nat) (v : option nat) :
    Res (list groPacket) :=
  e ← deref mem p;
  Done (<[p := with_entry e (mkEntry (next (pk_entry e)) v)]> mem).

Definition Front (l : groPacketList) : option nat := l_head l.

(** [e.Next()] *)
Definition Next (mem : list groPacket) (p : nat) : Res (option nat) :=
  e ← deref mem p; Done (next (pk_entry e)).

Definition PushBack (l : groPacketList) (mem : list groPacket) (e : nat) :
    Res (groPacketList * list groPacket) :=
  mem ← SetNext mem e None;
  mem ← SetPrev mem e (l_tail l);
  match l_tail l with
  | Some t =>
      mem ← SetNext mem t (Some e);
      Done (mkList (l_head l) (Some e), mem)
  | None => Done (mkList (Some e) (Some e), mem)
  end.

Definition Remove (l : groPacketList) (mem : list groPacket) (e : nat) :
    Res (groPacketList * list groPacket) :=
  x ← deref mem e;
  let prev_ := prev (pk_entry x) in
  let next_ := next (pk_entry x) in
  '(l, mem) ←
    match prev_ with
    | Some p => mem ← SetNext mem p next_; Done (l, mem)
    | None =>
        if decide (l_head l = Some e) then Done (mkList next_ (l_tail l), mem)
        else Done (l, mem)
    end;
  '(l, mem) ←
    match next_ with
    | Some n => mem ← SetPrev mem n prev_; Done (l, mem)
    | None =>
        if decide (l_tail l = Some e) then Done (mkList (l_head l) prev_, mem)
        else Done (l, mem)
    end;
  mem ← SetNext mem e None;
  mem ← SetPrev mem e None;
  Done (l, mem).

(** ** Buckets *)

(** A groBucket holds packets that are undergoing GRO. *)
Record groBucket := mkBucket {
  gb_count : Z;
  gb_packets : groPacketList;
  gb_packetsPrealloc : list groPacket;
  gb_allocIdxs : list Z;
}.

(** Indexing a fixed array with a Go [int]. *)
Definition index {A} (a : list A) (i : Z) : Res A :=
  if i <? 0 then Panic
  else match a !! Z.to_nat i with
       | Some x => Done x
       | None => Panic
       end.

Definition store {A} (a : list A) (i : Z) (x : A) : Res (list A) :=
  if (i <? 0) || (Z.of_nat (length a) <=? i) then Panic
  else Done (<[Z.to_nat i := x]> a).

Definition full (gb : groBucket) : bool := gb_count gb =? groBucketSize.

(** insert inserts pkt into the bucket. *)
Definition insert (gb : groBucket) (pkt : PacketBufferPtr)
    (ipHdr tcpHdr : list byte) (ep : NetworkEndpoint) (now : Z) :
    Res groBucket :=
  i ← index (gb_allocIdxs gb) (gb_count gb);
  _ ← index (gb_packetsPrealloc gb) i;
  let groPkt := Z.to_nat i in
  let mem := <[groPkt := mkGroPacket (mkEntry None None) pkt ipHdr tcpHdr
                           now ep 0]> (gb_packetsPrealloc gb) in
  let count := gb_count gb + 1 in
  '(l, mem) ← PushBack (gb_packets gb) mem groPkt;
  Done (mkBucket count l mem (gb_allocIdxs gb)).

(** removeOldest removes the oldest packet from gb and returns the contained
    PacketBufferPtr. gb must not be empty. *)
Definition removeOldest (gb : groBucket) : Res (groBucket * PacketBufferPtr) :=
  match Front (gb_packets gb) with
  | None => Panic
  | Some pkt =>
      '(l, mem) ← Remove (gb_packets gb) (gb_packetsPrealloc gb) pkt;
      let count := gb_count gb - 1 in
      x ← deref mem pkt;
      allocIdxs ← store (gb_allocIdxs gb) count (pk_idx x);
      let ret := pk_pkt x in
      let mem := <[pkt := groPacket_zero]> mem in
      Done (mkBucket count l mem allocIdxs, ret)
  end.

(** removeOne removes a packet from gb. It also resets pkt to its zero
    value. *)
Definition removeOne (gb : groBucket) (pkt : nat) : Res groBucket :=
  '(l, mem) ← Remove (gb_packets gb) (gb_packetsPrealloc gb) pkt;
  let count := gb_count gb - 1 in
  x ← deref mem pkt;
  allocIdxs ← store (gb_allocIdxs gb) count (pk_idx x);
  let mem := <[pkt := groPacket_zero]> mem in
  Done (mkBucket count l mem allocIdxs).

(** ** The dispatcher *)

(** groDispatcher coalesces incoming packets to increase throughput. The
    channels and the mutex are not state of the model: every method below
    is one critical section. *)
Record groDispatcher := mkDispatcher {
  gd_intervalNS : Z;
  gd_buckets : list groBucket;
}.

Definition groBucket_zero : groBucket :=
  mkBucket 0 (mkList None None)
    (replicate (Z.to_nat groBucketSize) groPacket_zero)
    (replicate (Z.to_nat groBucketSize) 0).

(** The two loops of [init] over one bucket: [allocIdxs[j] = j] and
    [packetsPrealloc[j].idx = j]. *)
Definition init_bucket (gb : groBucket) : groBucket :=
  mkBucket (gb_count gb) (gb_packets gb)
    (imap (fun j e => with_idx e (Z.of_nat j)) (gb_packetsPrealloc gb))
    (imap (fun j _ => Z.of_nat j) (gb_allocIdxs gb)).

Definition init (interval : Z) : groDispatcher :=
  mkDispatcher interval
    (init_bucket <$> replicate (Z.to_nat groNBuckets) groBucket_zero).


(** [setInterval] stores the interval; the signal it sends afterwards is
    the [EvNewInterval] event of the worker. *)
Definition setInterval (gd : groDispatcher) (interval : Z) : groDispatcher :=
  mkDispatcher interval (gd_buckets gd).

Definition neqb (a b : Z) : bool := negb (a =? b).

(** The body of the loop over the options in [findGROPacket]: [n] more
    bytes from index [i] on. *)
Fixpoint optionsDiffer (n i : nat) (tcpHdr groTcpHdr : list byte) : Res bool :=
  match n with
  | O => Done false
  | S n =>
      a ← at_ tcpHdr i; b ← at_ groTcpHdr i;
      if neqb a b then Done true else optionsDiffer n (S i) tcpHdr groTcpHdr
  end.

(** One iteration of the loop of [findGROPacket] on the element [groPkt]:
    [None] is [continue], [Some f] is [return groPkt, f]. *)
Definition findGROPacket_body (ipHdr tcpHdr : list byte) (groPkt : groPacket) :
    Res (option bool) :=
  (* Do the addresses match? *)
  addrs ←
    (a ← header.IPv4.SourceAddress ipHdr;
     b ← header.IPv4.SourceAddress (pk_ipHdr groPkt);
     Done (bool_decide (a ≠ b)))
    |||
    (a ← header.IPv4.DestinationAddress ipHdr;
     b ← header.IPv4.DestinationAddress (pk_ipHdr groPkt);
     Done (bool_decide (a ≠ b)));
  if (addrs : bool) then Done None else
  (* Do the ports match? *)
  ports ←
    (a ← header.TCP.SourcePort tcpHdr;
     b ← header.TCP.SourcePort (pk_tcpHdr groPkt);
     Done (neqb a b))
    |||
    (a ← header.TCP.DestinationPort tcpHdr;
     b ← header.TCP.DestinationPort (pk_tcpHdr groPkt);
     Done (neqb a b));
  if (ports : bool) then Done None else
  (* IP checks. *)
  TOS ← header.IPv4.TOS ipHdr;
  groTOS ← header.IPv4.TOS (pk_ipHdr groPkt);
  ip ←
    (a ← header.IPv4.TTL ipHdr;
     b ← header.IPv4.TTL (pk_ipHdr groPkt);
     Done (neqb a b))
    ||| Done (neqb TOS groTOS);
  if (ip : bool) then Done (Some true) else
  (* TCP checks. *)
  flags ← header.TCP.Flags tcpHdr;
  groPktFlags ← header.TCP.Flags (pk_tcpHdr groPkt);
  dataOff ← header.TCP.DataOffset tcpHdr;
  tcp ←
    Done (neqb (Z.land flags header.TCPFlagCwr) 0)
    ||| Done (neqb (Z.ldiff (Z.lxor flags groPktFlags)
                      (Z.lor (Z.lor header.TCPFlagCwr header.TCPFlagFin)
                         header.TCPFlagPsh)) 0)
    ||| (a ← header.TCP.AckNumber tcpHdr;
         b ← header.TCP.AckNumber (pk_tcpHdr groPkt);
         Done (neqb a b))
    ||| (b ← header.TCP.DataOffset (pk_tcpHdr groPkt); Done (neqb dataOff b))
    ||| (s ← header.TCP.SequenceNumber (pk_tcpHdr groPkt);
         p ← payloadSize groPkt;
         c ← header.TCP.SequenceNumber tcpHdr;
         Done (neqb ((s + p) mod 2 ^ 32) c));
  if (tcp : bool) then Done (Some true) else
  (* The options, including timestamps, must be identical. *)
  opts ← optionsDiffer (Z.to_nat (dataOff - header.TCPMinimumSize))
           (Z.to_nat header.TCPMinimumSize) tcpHdr (pk_tcpHdr groPkt);
  if (opts : bool) then Done (Some true) else
  (* There's an upper limit on coalesced packet size. *)
  tl ← header.IPv4.TotalLength ipHdr;
  match pk_pkt groPkt with
  | None => Panic
  | Some p =>
      if groMaxPacketSize <=? tl - header.IPv4MinimumSize - dataOff + Size p
      then Done (Some true)
      else Done (Some false)
  end.

(** The loop of [findGROPacket], from the element [cur] on. *)
Fixpoint findGROPacket_from (fuel : nat) (bucket : groBucket)
    (ipHdr tcpHdr : list byte) (cur : option nat) : Res (option nat * bool) :=
  match cur with
  | None => Done (None, false)
  | Some groPkt =>
      match fuel with
      | O => OutOfFuel
      | S fuel =>
          x ← deref (gb_packetsPrealloc bucket) groPkt;
          r ← findGROPacket_body ipHdr tcpHdr x;
          match r with
          | Some f => Done (Some groPkt, f)
          | None =>
              findGROPacket_from fuel bucket ipHdr tcpHdr (next (pk_entry x))
          end
      end
  end.

(** findGROPacket returns the groPkt that matches ipHdr and tcpHdr, or nil
    if none exists. It also returns whether the groPkt should be flushed
    based on differences between the two headers. *)
Definition findGROPacket (fuel : nat) (bucket : groBucket)
    (ipHdr tcpHdr : list byte) : Res (option nat * bool) :=
  findGROPacket_from fuel bucket ipHdr tcpHdr (Front (gb_packets bucket)).

Definition sumBytes (acc : Z) (bs : list byte) : Z :=
  foldl (fun sum val => sum + u8 val) acc bs.

Definition bucketForPacket (ipHdr tcpHdr : list byte) : Res Z :=
  let sum := 0 in
  src ← header.IPv4.SourceAddress ipHdr;
  let sum := sumBytes sum src in
  dst ← header.IPv4.DestinationAddress ipHdr;
  let sum := sumBytes sum dst in
  sp ← header.TCP.SourcePort tcpHdr;
  let sum := sum + sp in
  dp ← header.TCP.DestinationPort tcpHdr;
  let sum := sum + dp in
  Done sum.

(** The merge branch of [dispatch]: the payload of [pkt] is appended to the
    staged packet [groPkt], FIN and PSH are added to the stored flags and
    the stored total length grows by the payload size. The stored header
    slices are views of the staged packet's own buffer (they come from
    [PullUp]), so the two writes also reach its bytes. *)
Definition mergeInto (bucket : groBucket) (groPkt : nat) (pkt : PacketBuffer)
    (dataOff flags tcpPayloadSize : Z) : Res groBucket :=
  x ← deref (gb_packetsPrealloc bucket) groPkt;
  match pk_pkt x with
  | None => Panic
  | Some staged =>
      let buf := drop (Z.to_nat (header.IPv4MinimumSize + dataOff))
                   (pb_data pkt) in
      let data := pb_data staged ++ buf in
      (* Add flags from the packet to the GRO packet. *)
      groFlags ← header.TCP.Flags (pk_tcpHdr x);
      let newFlags :=
        Z.lor groFlags
          (Z.land flags (Z.lor header.TCPFlagFin header.TCPFlagPsh)) in
      tcpHdr ← header.TCP.SetFlags (pk_tcpHdr x) newFlags;
      let flagsAt := (Z.to_nat header.IPv4MinimumSize + 13)%nat in
      let ipHdr := <[flagsAt := b8 newFlags]> (pk_ipHdr x) in
      let data := <[flagsAt := b8 newFlags]> data in
      (* Update the IP total length. *)
      tl ← header.IPv4.TotalLength ipHdr;
      let newLen := (tl + tcpPayloadSize) mod 65536 in
      ipHdr ← header.IPv4.SetTotalLength ipHdr newLen;
      let data :=
        <[3%nat := b8 newLen]> (<[2%nat := b8 (newLen / 256)]> data) in
      let staged :=
        mkPacketBuffer data (pb_RXChecksumValidated staged) (pb_refs staged) in
      let x :=
        mkGroPacket (pk_entry x) (Some staged) ipHdr tcpHdr (pk_created x)
          (pk_ep x) (pk_idx x) in
      Done (mkBucket (gb_count bucket) (gb_packets bucket)
              (<[groPkt := x]> (gb_packetsPrealloc bucket))
              (gb_allocIdxs bucket))
  end.

(** The flush decision of [dispatch] for the incoming segment. *)
Definition flushDecision (totalLength flags mtu : Z) : bool :=
  neqb totalLength mtu
  || neqb (Z.land flags
             (Z.lor (Z.lor (Z.lor (Z.lor header.TCPFlagUrg header.TCPFlagPsh)
                              header.TCPFlagRst) header.TCPFlagSyn)
                header.TCPFlagFin)) 0.

(** "Flush groPkt or merge the packets": the [if] of [dispatch] on the
    answer of [findGROPacket]. It returns the bucket, the new value of
    [groPkt] and the deliveries. After a merge the source also resets its
    local [pkt], which no later branch reads. *)
Definition flushOrMerge (bucket : groBucket) (groPkt : option nat)
    (flushGROPkt : bool) (pkt : PacketBuffer) (dataOff flags tcpPayloadSize : Z)
    (ep : NetworkEndpoint) : Res (groBucket * option nat * list Delivery) :=
  if flushGROPkt then
    (* Flush the existing GRO packet. *)
    match groPkt with
    | None => Panic
    | Some g =>
        x ← deref (gb_packetsPrealloc bucket) g;
        out ← HandlePacket ep (pk_pkt x) [];
        bucket ← removeOne bucket g;
        Done (bucket, None, out)
    end
  else
    match groPkt with
    | Some g =>
        (* Merge pkt in to GRO packet. *)
        bucket ← mergeInto bucket g pkt dataOff flags tcpPayloadSize;
        Done (bucket, Some g, [])
    | None => Done (bucket, None, [])
    end.

(** The [switch] of [dispatch] on [flush] and [groPkt]. *)
Definition applyFlush (flush : bool) (bucket : groBucket) (groPkt : option nat)
    (out : list Delivery) (pkt : PacketBuffer) (ipHdr tcpHdr : list byte)
    (ep : NetworkEndpoint) (now : Z) : Res (groBucket * list Delivery) :=
  match flush, groPkt with
  | true, Some g =>
      (* A merge occurred and we need to flush groPkt. *)
      x ← deref (gb_packetsPrealloc bucket) g;
      out ← HandlePacket ep (pk_pkt x) out;
      bucket ← removeOne bucket g;
      Done (bucket, out)
  | true, None =>
      (* No merge occurred and the incoming packet needs to be flushed. *)
      out ← HandlePacket ep (Some pkt) out;
      Done (bucket, out)
  | false, None =>
      (* New flow and we don't need to flush. Insert pkt into GRO. *)
      '(bucket, out) ←
        (if full bucket then
           (* Head is always the oldest packet *)
           '(bucket, oldest) ← removeOldest bucket;
           out ← HandlePacket ep oldest out;
           Done (bucket, out)
         else Done (bucket, out));
      bucket ← insert bucket (Some (IncRef pkt)) ipHdr tcpHdr ep now;
      Done (bucket, out)
  | false, Some _ => Done (bucket, out)
  end.

(** The part of [dispatch] that runs with [gd.mu] held, on the bucket of
    the packet. It returns the bucket and the deliveries it made. *)
Definition dispatchBucket (fuel : nat) (bucket : groBucket)
    (pkt : PacketBuffer) (ipHdr tcpHdr : list byte) (dataOff tcpPayloadSize : Z)
    (ep : NetworkEndpoint) (mtu now : Z) : Res (groBucket * list Delivery) :=
  '(groPkt, flushGROPkt) ← findGROPacket fuel bucket ipHdr tcpHdr;
  flags ← header.TCP.Flags tcpHdr;
  '(bucket, groPkt, out) ←
    flushOrMerge bucket groPkt flushGROPkt pkt dataOff flags tcpPayloadSize ep;
  (* Flush if the packet isn't MSS-sized or if certain flags are set. *)
  tl ← header.IPv4.TotalLength ipHdr;
  let flush := flushDecision tl flags mtu in
  applyFlush flush bucket groPkt out pkt ipHdr tcpHdr ep now.

(** What the filters of [dispatch] hand to the coalescing path: the packet,
    its two header slices, [dataOff] and [tcpPayloadSize]. *)
Record Segment := mkSegment {
  seg_pkt : PacketBuffer;
  seg_ipHdr : list byte;
  seg_tcpHdr : list byte;
  seg_dataOff : Z;
  seg_tcpPayloadSize : Z;
}.

(** The validity and checksum routines of the header and buffer packages
    are not part of the sources at hand; [dispatch] only branches on what
    they answer, so they are taken as given. *)
Record Checks := mkChecks {
  IPv4_IsValid : list byte -> Z -> bool;
  IPv4_IsChecksumValid : list byte -> bool;
  ChecksumAtOffset : PacketBuffer -> Z -> Z;
  TCP_IsChecksumValid : list byte -> list byte -> list byte -> Z -> Z -> bool;
}.

Section Dispatch.

Variable chk : Checks.

(** The filters of [dispatch] between the interval test and the lock:
    [None] when the packet is passed along as it is. *)
Definition parseSegment (pkt : PacketBuffer) (netProto : Z) :
    Res (option Segment) :=
  (* We only GRO IPv4 packets. *)
  if neqb netProto header.IPv4ProtocolNumber then Done None else
  match PullUp pkt (header.IPv4MinimumSize + header.TCPMinimumSize) with
  | None => Done None
  | Some hdrBytes =>
  let ipHdr := hdrBytes in
  (* We only handle atomic packets. *)
  frag ←
    (o ← header.IPv4.FragmentOffset ipHdr; Done (neqb o 0))
    ||| (f ← header.IPv4.Flags ipHdr;
         Done (neqb (Z.land f header.IPv4FlagMoreFragments) 0))
    ||| (f ← header.IPv4.Flags ipHdr;
         Done (Z.land f header.IPv4FlagDontFragment =? 0));
  if (frag : bool) then Done None else
  (* We only handle TCP packets without IP options. *)
  opt ←
    (l ← header.IPv4.HeaderLength ipHdr;
     Done (neqb l header.IPv4MinimumSize))
    ||| (p ← header.IPv4.Protocol ipHdr;
         Done (neqb p header.TCPProtocolNumber));
  if (opt : bool) then Done None else
  let tcpHdr := drop (Z.to_nat header.IPv4MinimumSize) hdrBytes in
  dataOff ← header.TCP.DataOffset tcpHdr;
  if dataOff <? header.TCPMinimumSize then Done None else
  match PullUp pkt (header.IPv4MinimumSize + dataOff) with
  | None => Done None
  | Some hdrBytes =>
  let tcpHdr := drop (Z.to_nat header.IPv4MinimumSize) hdrBytes in
  tl ← header.IPv4.TotalLength ipHdr;
  let tcpPayloadSize := (tl - header.IPv4MinimumSize - dataOff) mod 65536 in
  if pb_RXChecksumValidated pkt then
    Done (Some (mkSegment pkt ipHdr tcpHdr dataOff tcpPayloadSize))
  else
    if negb (IPv4_IsValid chk ipHdr (Size pkt))
       || negb (IPv4_IsChecksumValid chk ipHdr) then Done None else
    let payloadChecksum :=
      ChecksumAtOffset chk pkt (header.IPv4MinimumSize + dataOff) in
    src ← header.IPv4.SourceAddress ipHdr;
    dst ← header.IPv4.DestinationAddress ipHdr;
    if negb (TCP_IsChecksumValid chk tcpHdr src dst payloadChecksum
               tcpPayloadSize) then Done None else
    (* We've validated the checksum, no reason for others to do it
       again. *)
    let pkt := mkPacketBuffer (pb_data pkt) true (pb_refs pkt) in
    Done (Some (mkSegment pkt ipHdr tcpHdr dataOff tcpPayloadSize))
  end
  end.

(** [dispatch] past its first test, that is with GRO enabled. *)
Definition dispatchEnabled (fuel : nat) (gd : groDispatcher)
    (pkt : PacketBufferPtr) (netProto : Z) (ep : NetworkEndpoint)
    (mtu now : Z) : Res (groDispatcher * list Delivery) :=
  match pkt with
  | None =>
      (* the nil packet is only passed along; its [Data()] panics *)
      if neqb netProto header.IPv4ProtocolNumber then
        out ← HandlePacket ep pkt []; Done (gd, out)
      else Panic
  | Some p =>
      seg ← parseSegment p netProto;
      match seg with
      | None => out ← HandlePacket ep pkt []; Done (gd, out)
      | Some s =>
          (* Now we can get the bucket for the packet. *)
          sum ← bucketForPacket (seg_ipHdr s) (seg_tcpHdr s);
          let i := Z.land sum groNBucketsMask in
          bucket ← index (gd_buckets gd) i;
          '(bucket, out) ←
            dispatchBucket fuel bucket (seg_pkt s) (seg_ipHdr s)
              (seg_tcpHdr s) (seg_dataOff s) (seg_tcpPayloadSize s)
              ep mtu now;
          Done (mkDispatcher (gd_intervalNS gd)
                  (<[Z.to_nat i := bucket]> (gd_buckets gd)), out)
      end
  end.

(** dispatch sends pkt up the stack after it undergoes GRO coalescing. *)
Definition dispatch (fuel : nat) (gd : groDispatcher) (pkt : PacketBufferPtr)
    (netProto : Z) (ep : NetworkEndpoint) (mtu now : Z) :
    Res (groDispatcher * list Delivery) :=
  (* If GRO is disabled simply pass the packet along. *)
  if gd_intervalNS gd =? 0 then
    out ← HandlePacket ep pkt []; Done (gd, out)
  else dispatchEnabled fuel gd pkt netProto ep mtu now.

(** The loop of [flush] over one bucket, from the element [cur] on. *)
Fixpoint flushBucket (fuel : nat) (bucket : groBucket) (oldTime : Z)
    (cur : option nat) (out : list Delivery) :
    Res (groBucket * list Delivery) :=
  match cur with
  | None => Done (bucket, out)
  | Some groPkt =>
      match fuel with
      | O => OutOfFuel
      | S fuel =>
          x ← deref (gb_packetsPrealloc bucket) groPkt;
          if pk_created x <? oldTime then
            out ← HandlePacket (pk_ep x) (pk_pkt x) out;
            bucket ← removeOne bucket groPkt;
            cur ← Next (gb_packetsPrealloc bucket) groPkt;
            flushBucket fuel bucket oldTime cur out
          else
            (* Packets are ordered by age, so we can move on once we find
               one that's too new. *)
            Done (bucket, out)
      end
  end.

(** The loop of [flushAll] over one bucket, from the element [cur] on. *)
Fixpoint flushAllBucket (fuel : nat) (bucket : groBucket)
    (cur : option nat) (out : list Delivery) :
    Res (groBucket * list Delivery) :=
  match cur with
  | None => Done (bucket, out)
  | Some groPkt =>
      match fuel with
      | O => OutOfFuel
      | S fuel =>
          x ← deref (gb_packetsPrealloc bucket) groPkt;
          out ← HandlePacket (pk_ep x) (pk_pkt x) out;
          bucket ← removeOne bucket groPkt;
          cur ← Next (gb_packetsPrealloc bucket) groPkt;
          flushAllBucket fuel bucket cur out
      end
  end.

(** [for i := range gd.buckets { bucket := &gd.buckets[i]; ... }] *)
Fixpoint forBuckets
    (f : groBucket -> list Delivery -> Res (groBucket * list Delivery))
    (buckets : list groBucket) (out : list Delivery) :
    Res (list groBucket * list Delivery) :=
  match buckets with
  | [] => Done ([], out)
  | bucket :: rest =>
      '(bucket, out) ← f bucket out;
      '(rest, out) ← forBuckets f rest out;
      Done (bucket :: rest, out)
  end.

(** flush sends any packets older than interval up the stack. [now] is
    the reading of [time.Now()]. *)
Definition flush (fuel : nat) (gd : groDispatcher) (now : Z) :
    Res (groDispatcher * list Delivery) :=
  let interval := gd_intervalNS gd in
  let oldTime := now - interval in
  '(buckets, out) ←
    forBuckets
      (fun bucket out =>
         flushBucket fuel bucket oldTime (Front (gb_packets bucket)) out)
      (gd_buckets gd) [];
  Done (mkDispatcher (gd_intervalNS gd) buckets, out).

Definition flushAll (fuel : nat) (gd : groDispatcher) :
    Res (groDispatcher * list Delivery) :=
  '(buckets, out) ←
    forBuckets
      (fun bucket out =>
         flushAllBucket fuel bucket (Front (gb_packets bucket)) out)
      (gd_buckets gd) [];
  Done (mkDispatcher (gd_intervalNS gd) buckets, out).

(** *** The worker started by [start]

    The channel the worker selects on: the one that never fires, or the
    channel of a ticker of the given period. *)
Inductive tickerCh :=
| chNever
| chTicker (interval : Z).

Inductive Event :=
| EvNewInterval
| EvTick (now : Z)
| EvStop.


(** One round of the [select] of the worker: [None] when the worker
    returns, or when the event cannot occur ([ch] never fires). *)
Definition workerStep (fuel : nat) (gd : groDispatcher) (ch : tickerCh)
    (ev : Event) : Res (option (groDispatcher * tickerCh) * list Delivery) :=
  match ev with
  | EvNewInterval =>
      let interval := gd_intervalNS gd in
      if interval =? 0 then
        (* Never run. Flush any existing GRO packets. *)
        '(gd, out) ← flushAll fuel gd;
        Done (Some (gd, chNever), out)
      else Done (Some (gd, chTicker interval), [])
  | EvTick now =>
      match ch with
      | chNever => Done (None, [])
      | chTicker _ =>
          '(gd, out) ← flush fuel gd now;
          Done (Some (gd, ch), out)
      end
  | EvStop => Done (None, [])
  end.

(** *** Runs of the dispatcher *)

Inductive Op :=
| OpDispatch (pkt : PacketBufferPtr) (netProto : Z) (ep : NetworkEndpoint)
    (mtu now : Z)
| OpFlush (now : Z)
| OpFlushAll
| OpSetInterval (interval : Z).

Definition run (fuel : nat) (gd : groDispatcher) (op : Op) :
    Res (groDispatcher * list Delivery) :=
  match op with
  | OpDispatch pkt netProto ep mtu now =>
      dispatch fuel gd pkt netProto ep mtu now
  | OpFlush now => flush fuel gd now
  | OpFlushAll => flushAll fuel gd
  | OpSetInterval interval => Done (setInterval gd interval, [])
  end.

(** The states of the dispatcher between two operations, from [init] on,
    when every operation satisfies [ok]. An operation that panics or does
    not return has no state after it. *)
Inductive reachableWith (ok : Op -> Prop) : groDispatcher -> Prop :=
| reachable_init interval : reachableWith ok (init interval)
| reachable_run gd fuel op gd' out :
    reachableWith ok gd -> ok op -> run fuel gd op = Done (gd', out) ->
    reachableWith ok gd'.

(** The states reached by any operations at all. *)
Definition reachable : groDispatcher -> Prop := reachableWith (fun _ => True).

(** The same, run on a list of operations, with the deliveries of all of
    them. *)
Fixpoint runAll (fuel : nat) (gd : groDispatcher) (ops : list Op) :
    Res (groDispatcher * list Delivery) :=
  match ops with
  | [] => Done (gd, [])
  | op :: ops =>
      '(gd, out) ← run fuel gd op;
      '(gd, out') ← runAll fuel gd ops;
      Done (gd, out ++ out')
  end.

End Dispatch.

(** ** The vocabulary of the properties *)

(** [linked mem cur g]: walking the [next] links from [cur] visits the
    slot [g]. *)
Inductive linked (mem : list groPacket) : option nat -> nat -> Prop :=
| linked_here g : linked mem (Some g) g
| linked_next g x i :
    mem !! g = Some x -> linked mem (next (pk_entry x)) i ->
    linked mem (Some g) i.

(** The slot [g] is in the list of the bucket: it holds a staged entry. *)
Definition staged (gb : groBucket) (g : nat) : Prop :=
  linked (gb_packetsPrealloc gb) (Front (gb_packets gb)) g.

(** The 4-tuple read from a pair of headers. *)
Definition Flow := (list byte * list byte * Z * Z)%type.

Definition flowOf (ipHdr tcpHdr : list byte) : Res Flow :=
  src ← header.IPv4.SourceAddress ipHdr;
  dst ← header.IPv4.DestinationAddress ipHdr;
  sp ← header.TCP.SourcePort tcpHdr;
  dp ← header.TCP.DestinationPort tcpHdr;
  Done (src, dst, sp, dp).

Definition flow (x : groPacket) : Res Flow :=
  flowOf (pk_ipHdr x) (pk_tcpHdr x).

(** ** Segments for the examples *)

Definition be16 (v : Z) : list byte := [b8 (v / 256); b8 v].
Definition be32 (v : Z) : list byte :=
  [b8 (v / 16777216); b8 (v / 65536); b8 (v / 256); b8 v].

(** A TCP segment over IPv4 with DF set, no IP options, no TCP options and
    [payload] zero bytes of data, already checksum-validated by the link
    layer. *)
Definition tcp4 (src dst : list Z) (ttl tos sport dport seq ack flags : Z)
    (payload : nat) : PacketBuffer :=
  mkPacketBuffer
    ([b8 0x45; b8 tos] ++ be16 (40 + Z.of_nat payload)
       ++ [b8 0; b8 0; b8 0x40; b8 0; b8 ttl; b8 6; b8 0; b8 0]
       ++ (b8 <$> src) ++ (b8 <$> dst)
       ++ be16 sport ++ be16 dport ++ be32 seq ++ be32 ack
       ++ [b8 0x50; b8 flags; b8 0; b8 0; b8 0; b8 0; b8 0; b8 0]
       ++ replicate payload (b8 0))
    true 1.

Definition noChecks : Checks :=
  mkChecks (fun _ _ => true) (fun _ => true) (fun _ _ => 0)
    (fun _ _ _ _ _ => true).

Definition segA : PacketBuffer :=
  tcp4 [10; 0; 0; 1] [10; 0; 0; 2] 64 0 1000 80 1000 0 16 1460.

(** A segment of another flow that falls into the bucket of [segA]. *)
Definition segB : PacketBuffer :=
  tcp4 [10; 0; 0; 1] [10; 0; 0; 2] 64 0 1008 80 1 0 16 1460.

(** The arrival of a segment at time [now] on a link of MTU 1500. *)
Definition arrive (p : PacketBuffer) (now : Z) : Op :=
  OpDispatch (Some p) header.IPv4ProtocolNumber (Some 1%nat) 1500 now.

(** The deliveries of a run that returned. *)
Definition deliveries {A} (r : Res (A * list Delivery)) :
    option (list Delivery) :=
  match r with
  | Done (_, out) => Some out
  | _ => None
  end.

(** ** The flush decision, in the words of the specification *)

(** The flag [f] is set in [flags]. *)
Definition flagSet (flags f : Z) : Prop := Z.land flags f <> 0.

(** [flush = (ipTotalLength != mtu) || any_of(URG, PSH, RST, SYN, FIN)] *)
Definition spec_flush (ipTotalLength flags mtu : Z) : Prop :=
  ipTotalLength <> mtu \/
  Exists (flagSet flags)
    [header.TCPFlagUrg; header.TCPFlagPsh; header.TCPFlagRst;
     header.TCPFlagSyn; header.TCPFlagFin].

(** ** The FlowMatcher, in the words of the specification *)

(** The header fields the matcher compares. *)
Record Fields := mkFields {
  f_src : list byte;
  f_dst : list byte;
  f_sport : Z;
  f_dport : Z;
  f_ttl : Z;
  f_tos : Z;
  f_flags : Z;
  f_ack : Z;
  f_seq : Z;
  f_dataOff : Z;
  f_totalLength : Z;
  f_options : list byte;
}.

Definition fields (ipHdr tcpHdr : list byte) : Res Fields :=
  src ← header.IPv4.SourceAddress ipHdr;
  dst ← header.IPv4.DestinationAddress ipHdr;
  sport ← header.TCP.SourcePort tcpHdr;
  dport ← header.TCP.DestinationPort tcpHdr;
  ttl ← header.IPv4.TTL ipHdr;
  tos ← header.IPv4.TOS ipHdr;
  flags ← header.TCP.Flags tcpHdr;
  ack ← header.TCP.AckNumber tcpHdr;
  seq ← header.TCP.SequenceNumber tcpHdr;
  dataOff ← header.TCP.DataOffset tcpHdr;
  tl ← header.IPv4.TotalLength ipHdr;
  options ← slice tcpHdr (Z.to_nat header.TCPMinimumSize) (Z.to_nat dataOff);
  Done (mkFields src dst sport dport ttl tos flags ack seq dataOff tl options).

(** The payload size the headers announce, as [payloadSize] computes it. *)
Definition f_payloadSize (x : Fields) : Z :=
  (f_totalLength x - header.IPv4MinimumSize - f_dataOff x) mod 65536.

Definition same4 (c e : Fields) : Prop :=
  f_src c = f_src e /\ f_dst c = f_dst e /\
  f_sport c = f_sport e /\ f_dport c = f_dport e.

Definition tcpFlagBits : list Z :=
  [header.TCPFlagFin; header.TCPFlagSyn; header.TCPFlagRst; header.TCPFlagPsh;
   header.TCPFlagAck; header.TCPFlagUrg; header.TCPFlagEce; header.TCPFlagCwr].

(** The two flag bytes differ only within [{CWR, FIN, PSH}]. *)
Definition flagsDifferWithin (a b : Z) : Prop :=
  Forall (fun f =>
            f = header.TCPFlagCwr \/ f = header.TCPFlagFin \/
            f = header.TCPFlagPsh \/ (flagSet a f <-> flagSet b f))
    tcpFlagBits.

(** The conditions of MatchMergeable other than the size limit, for a
    candidate [c] and a staged entry [e]. *)
Definition headersAgree (c e : Fields) : Prop :=
  f_ttl c = f_ttl e /\ f_tos c = f_tos e /\
  ~ flagSet (f_flags c) header.TCPFlagCwr /\
  flagsDifferWithin (f_flags c) (f_flags e) /\
  f_ack c = f_ack e /\
  f_dataOff c = f_dataOff e /\
  (f_seq e + f_payloadSize e) mod 2 ^ 32 = f_seq c /\
  f_options c = f_options e.

(** MatchMergeable as the specification words it: the last condition is
    [entry.coalescedPayloadSize + candidate.payloadSize < GRO_MAX]. *)
Definition spec_mergeable (c e : Fields) : Prop :=
  headersAgree c e /\
  f_payloadSize e + f_payloadSize c < groMaxPacketSize.

(** MatchMergeable as the code decides it: the last condition adds the
    payload size of the candidate to the size of the staged packet's whole
    buffer, headers included. *)
Definition code_mergeable (c e : Fields) (staged : PacketBuffer) : Prop :=
  headersAgree c e /\
  f_totalLength c - header.IPv4MinimumSize - f_dataOff c + Size staged
  < groMaxPacketSize.

(** The header slices that [dispatch] takes from a segment without TCP
    options. *)
Definition ipHdrOf (p : PacketBuffer) : list byte := take 40 (pb_data p).
Definition tcpHdrOf (p : PacketBuffer) : list byte :=
  drop 20 (take 40 (pb_data p)).

(** A staged entry that holds the segment [p] alone. *)
Definition entryOf (p : PacketBuffer) : groPacket :=
  mkGroPacket (mkEntry None None) (Some p) (ipHdrOf p) (tcpHdrOf p) 0
    (Some 1%nat) 0.

(** A 64000-byte segment, and the segment that follows it in its flow. *)
Definition segBig : PacketBuffer :=
  tcp4 [10; 0; 0; 1] [10; 0; 0; 2] 64 0 1000 80 1000 0 16 (Z.to_nat 64000).
Definition segNext : PacketBuffer :=
  tcp4 [10; 0; 0; 1] [10; 0; 0; 2] 64 0 1000 80 65000 0 16 1500.

(** The segment that follows [segA] in its flow. *)
Definition segA2 : PacketBuffer :=
  tcp4 [10; 0; 0; 1] [10; 0; 0; 2] 64 0 1000 80 2460 0 16 1460.

(** The answer of one iteration of [findGROPacket] as a function of the
    fields of the two header pairs and of the staged packet: [None] for no
    match, [Some true] for a match that must be flushed, [Some false] for a
    match that can be merged. *)
Definition classify (c e : Fields) (staged : PacketBuffer) : option bool :=
  if bool_decide (f_src c <> f_src e) || bool_decide (f_dst c <> f_dst e)
  then None else
  if neqb (f_sport c) (f_sport e) || neqb (f_dport c) (f_dport e)
  then None else
  if neqb (f_ttl c) (f_ttl e) || neqb (f_tos c) (f_tos e) then Some true else
  if neqb (Z.land (f_flags c) header.TCPFlagCwr) 0
     || neqb (Z.ldiff (Z.lxor (f_flags c) (f_flags e))
                (Z.lor (Z.lor header.TCPFlagCwr header.TCPFlagFin)
                   header.TCPFlagPsh)) 0
     || neqb (f_ack c) (f_ack e)
     || neqb (f_dataOff c) (f_dataOff e)
     || neqb ((f_seq e + f_payloadSize e) mod 2 ^ 32) (f_seq c)
  then Some true else
  if bool_decide (f_options c <> f_options e) then Some true else
  if groMaxPacketSize
     <=? f_totalLength c - header.IPv4MinimumSize - f_dataOff c + Size staged
  then Some true
  else Some false.

(** [flagsDifferWithin] as a test, and the values of a byte. *)
Definition flagsDifferWithinb (a b : Z) : bool :=
  forallb (fun f =>
             (f =? header.TCPFlagCwr) || (f =? header.TCPFlagFin)
             || (f =? header.TCPFlagPsh)
             || Bool.eqb (neqb (Z.land a f) 0) (neqb (Z.land b f) 0))
    tcpFlagBits.

Definition byteValues : list Z := Z.of_nat <$> seq 0 256.

(** ** Invariants of a bucket *)

(** Two different slots of the list of the bucket never hold entries of
    the same flow. *)
Definition oneEntryPerFlow (gb : groBucket) : Prop :=
  forall i j x y t,
    staged gb i -> staged gb j -> i <> j ->
    gb_packetsPrealloc gb !! i = Some x ->
    gb_packetsPrealloc gb !! j = Some y ->
    flow x = Done t -> flow y <> Done t.

(** No slot of the list holds an entry of the flow [t]. *)
Definition noFlow (t : Flow) (gb : groBucket) : Prop :=
  forall i x,
    staged gb i -> gb_packetsPrealloc gb !! i = Some x -> flow x <> Done t.

(** [evolves S mem mem']: every slot of [mem'] is a slot of [mem] whose
    [next] link is the old one or a link of [S], and whose flow is the old
    one or can no longer be read. *)
Definition evolves (S : option nat -> Prop) (mem mem' : list groPacket) :
    Prop :=
  forall k x',
    mem' !! k = Some x' ->
    exists x,
      mem !! k = Some x /\
      (next (pk_entry x') = next (pk_entry x) \/ S (next (pk_entry x'))) /\
      (flow x' = flow x \/ flow x' = Panic).

(** [samePayload x y]: [y] is [x] with other links. *)
Definition samePayload (x y : groPacket) : Prop :=
  exists l, y = with_entry x l.

(** [keeps gb gb']: every slot of [gb'] holds what it held in [gb], or has
    been reset, up to the links. *)
Definition keeps (gb gb' : groBucket) : Prop :=
  forall k y,
    gb_packetsPrealloc gb' !! k = Some y ->
    samePayload groPacket_zero y \/
    exists x, gb_packetsPrealloc gb !! k = Some x /\ samePayload x y.

(** [shrinks gb gb']: the list of [gb'] visits only slots that the list of
    [gb] visits, and no slot changed its flow. *)
Definition shrinks (gb gb' : groBucket) : Prop :=
  (forall i, staged gb' i -> staged gb i) /\
  evolves (fun _ => True) (gb_packetsPrealloc gb) (gb_packetsPrealloc gb').

(** A pointer to a slot of the bucket, or nil. *)
Definition ptrInBounds (o : option nat) : Prop :=
  forall q, o = Some q -> (q < Z.to_nat groBucketSize)%nat.

Definition slotInBounds (x : groPacket) : Prop :=
  ptrInBounds (next (pk_entry x)) /\ ptrInBounds (prev (pk_entry x)) /\
  0 <= pk_idx x < groBucketSize.

(** [inBounds gb]: the two arrays have their [groBucketSize] elements, and
    every free index, every link and the two ends of the list point into
    them. *)
Definition inBounds (gb : groBucket) : Prop :=
  length (gb_packetsPrealloc gb) = Z.to_nat groBucketSize /\
  length (gb_allocIdxs gb) = Z.to_nat groBucketSize /\
  Forall (fun i => 0 <= i < groBucketSize) (gb_allocIdxs gb) /\
  Forall slotInBounds (gb_packetsPrealloc gb) /\
  ptrInBounds (l_head (gb_packets gb)) /\
  ptrInBounds (l_tail (gb_packets gb)).

(** ** States for the examples *)

(** A full-sized segment of the [k]-th of a family of flows that all fall
    into one bucket. *)
Definition flowSeg (k : Z) : PacketBuffer :=
  tcp4 [10; 0; 0; 1] [10; 0; 0; 2] 64 0 (1000 + 8 * k) 80 1 0 16 1460.

(** The segment after [segA] in its flow, with another ACK number. *)
Definition segAck : PacketBuffer :=
  tcp4 [10; 0; 0; 1] [10; 0; 0; 2] 64 0 1000 80 2460 7 16 1460.

(** The dispatcher after [init] with 10ms and the operations [ops]. *)
Definition stateAfter (ops : list Op) : groDispatcher :=
  match runAll noChecks 16 (init 10000000) ops with
  | Done (gd, _) => gd
  | _ => init 0
  end.

Definition bucketOf (gd : groDispatcher) (i : nat) : groBucket :=
  default groBucket_zero (gd_buckets gd !! i).

Definition eightFlows : list Op :=
  (fun k => arrive (flowSeg k) (100 + k)) <$> [0; 1; 2; 3; 4; 5; 6; 7].

(** ** Packets as long as they say *)






(** Nine and ten flows of the family, one segment each. *)
Definition nineFlows : list Op :=
  (fun k => arrive (flowSeg k) (100 + k)) <$> [0; 1; 2; 3; 4; 5; 6; 7; 8].

Definition tenFlows : list Op :=
  (fun k => arrive (flowSeg k) (100 + k)) <$> [0; 1; 2; 3; 4; 5; 6; 7; 8; 9].
(** ** Further vocabulary *)

(** The slots of the bucket only hold entries whose flow falls into the
    bucket of index [i]. *)
Definition inOwnBucket (i : nat) (gb : groBucket) : Prop :=
  forall k x sum,
    gb_packetsPrealloc gb !! k = Some x ->
    bucketForPacket (pk_ipHdr x) (pk_tcpHdr x) = Done sum ->
    Z.to_nat (Z.land sum groNBucketsMask) = i.



(** ** Shutdown *)

(** [pkt.DecRef()]. Modelled from the spec: the packet buffer is not part
    of the sources at hand; the spec lists reference counting with
    [incRef] and [decRef] as the contract of a packet. *)
Definition DecRef (pk : PacketBuffer) : PacketBuffer :=
  mkPacketBuffer (pb_data pk) (pb_RXChecksumValidated pk) (pb_refs pk - 1).

(** The slot [x] after [x.pkt.DecRef()]. *)
Definition released (x : groPacket) (p : PacketBuffer) : groPacket :=
  mkGroPacket (pk_entry x) (Some (DecRef p)) (pk_ipHdr x) (pk_tcpHdr x)
    (pk_created x) (pk_ep x) (pk_idx x).

(** The loop of [close] over one bucket, from the element [cur] on. *)
Fixpoint closeBucket (fuel : nat) (mem : list groPacket) (cur : option nat) :
    Res (list groPacket) :=
  match cur with
  | None => Done mem
  | Some groPkt =>
      match fuel with
      | O => OutOfFuel
      | S fuel =>
          x ← deref mem groPkt;
          match pk_pkt x with
          | None => Panic
          | Some p =>
              closeBucket fuel (<[groPkt := released x p]> mem)
                (next (pk_entry x))
          end
      end
  end.

(** close stops the GRO goroutine and releases any held packets. The send
    on [gd.stop] is the [EvStop] event of the worker; what follows it is the
    loop over the buckets. *)
Definition close (fuel : nat) (gd : groDispatcher) : Res groDispatcher :=
  '(buckets, _) ←
    forBuckets
      (fun bucket out =>
         mem ← closeBucket fuel (gb_packetsPrealloc bucket)
                 (Front (gb_packets bucket));
         Done (mkBucket (gb_count bucket) (gb_packets bucket) mem
                 (gb_allocIdxs bucket), out))
      (gd_buckets gd) [];
  Done (mkDispatcher (gd_intervalNS gd) buckets).

(** [ends mem cur n]: the [next] links from [cur] end after [n] slots. *)
Inductive ends (mem : list groPacket) : option nat -> nat -> Prop :=
| ends_nil : ends mem None 0
| ends_next g x n :
    mem !! g = Some x -> ends mem (next (pk_entry x)) n ->
    ends mem (Some g) (S n).

(** * The save wrapper (package state)

    [Save] drives the kernel, the watchdog and the statefile package, none
    of which is part of the sources at hand. A run is
    embedded as the list of the calls it makes, in order, and the error it
    returns; the answers of the calls that can fail are given with the
    run. The texts of the log lines and the readings of [CPUTime] are not
    recorded. *)

Module state.

Section State.

(** The errors of the other packages, [map[string]string], [io.Writer],
    the key bytes, [*fd.FD] and [pgalloc.SaveOpts]. *)
Context {E Meta Writer Bytes FD MOpts : Type}.

(** A non-nil [error]: an error of another package, or an [ErrStateFile],
    which is returned when an error is encountered writing the statefile;
    [ErrStateFile_nil] is [ErrStateFile{nil}]. The nil error is [None]. *)
Inductive error :=
| ext (e : E)
| ErrStateFile (Err : error)
| ErrStateFile_nil.

(** [ErrStateFile{err}] *)
Definition wrap (err : option error) : error :=
  match err with
  | Some e => ErrStateFile e
  | None => ErrStateFile_nil
  end.

(** The functions of other packages that [Save] computes with:
    [make(map[string]string)], [addSaveMetadata] and
    [linuxerr.Equals(linuxerr.ENOSPC, err)]. *)
Record Externals := mkExternals {
  emptyMeta : Meta;
  addSaveMetadata : Meta -> Meta;
  Equals_ENOSPC : option error -> bool;
}.

(** SaveOpts contains save-related options. *)
Record SaveOpts := mkSaveOpts {
  Destination : Writer;
  PagesMetadata : option FD;
  PagesFile : option FD;
  Key : Bytes;
  Metadata : option Meta;
  MemoryFileSaveOpts : MOpts;
  Resume : bool;
  Autosave : bool;
}.

(** The calls of a run. *)
Inductive Call :=
| CPUTime
| LogInfof
| LogWarningf
| KPause
| KReceiveTaskStates
| KUnpause
| WStop
| WStart
| AddSaveMetadata (m : Meta)
| NewWriter (w : Writer) (key : Bytes) (m : Meta)
| BufioNewWriter (f : FD)
| KSaveTo (pagesMetadata pagesFile : option FD) (o : MOpts)
| WcClose
| BufFlush
| KSetSaveSuccess (autosave : bool)
| KSetSaveError (err : error)
| KBeforeResume
| KKill_WaitStatusExit (status : Z).

(** The errors that the calls of [Save] answer with. *)
Record SaveAnswers := mkSaveAnswers {
  NewWriter_err : option E;
  SaveTo_err : option E;
  Close_err : option E;
  Flush_err : option E;
}.

Variable x : Externals.

(** [if e := call; err == nil && e != nil { err = ErrStateFile{e} }] *)
Definition orStateFile (err : option error) (e : option E) : option error :=
  match err, e with
  | None, Some e => Some (ErrStateFile (ext e))
  | _, _ => err
  end.

(** Save saves the system state. *)
Definition Save (opts : SaveOpts) (a : SaveAnswers) :
    list Call * option error :=
  let tr := [CPUTime; LogInfof; LogInfof; KPause; KReceiveTaskStates] in
  (* defer k.Unpause(), log *)
  let tr := tr ++ [WStop] in
  (* defer w.Start() *)
  (* Supplement the metadata. *)
  let metadata :=
    match Metadata opts with
    | None => emptyMeta x
    | Some m => m
    end in
  let tr := tr ++ [AddSaveMetadata metadata] in
  let metadata := addSaveMetadata x metadata in
  (* Open the statefile. *)
  let tr := tr ++ [NewWriter (Destination opts) (Key opts) metadata] in
  let '(tr, err) :=
    match NewWriter_err a with
    | Some e => (tr, Some (ErrStateFile (ext e)))
    | None =>
        let tr :=
          match PagesMetadata opts with
          | Some f => tr ++ [BufioNewWriter f]
          | None => tr
          end in
        (* Save the kernel. *)
        let tr :=
          tr ++ [KSaveTo (PagesMetadata opts) (PagesFile opts)
                   (MemoryFileSaveOpts opts)] in
        let err := ext <$> SaveTo_err a in
        (* ENOSPC is a state file error. *)
        let err :=
          if Equals_ENOSPC x err then Some (wrap err) else err in
        let tr := tr ++ [WcClose] in
        let err := orStateFile err (Close_err a) in
        match PagesMetadata opts with
        | Some _ => (tr ++ [BufFlush], orStateFile err (Flush_err a))
        | None => (tr, err)
        end
    end in
  let tr := tr ++ [CPUTime; LogInfof] in
  let tr :=
    match err with
    | None => tr ++ [LogInfof; KSetSaveSuccess (Autosave opts)]
    | Some e => tr ++ [LogWarningf; KSetSaveError e]
    end in
  let tr :=
    if Resume opts then tr ++ [KBeforeResume]
    else (* Kill the sandbox. *) tr ++ [KKill_WaitStatusExit 0] in
  (* the deferred calls, last first *)
  (tr ++ [WStart; KUnpause; LogInfof], err).

End State.

End state.


(** * Properties *)

(** ** Runs that return *)

Lemma bind_Done {A B} (f : A -> Res B) (m : Res A) (b : B) :
  mbind f m = Done b -> exists a, m = Done a /\ f a = Done b.
Proof. destruct m; simpl; eauto; discriminate. Qed.

Lemma orElse_Done (a b : Res bool) (r : bool) :
  (a ||| b) = Done r ->
  (a = Done true /\ r = true) \/ (a = Done false /\ b = Done r).
Proof.
  unfold orElse. intros H. apply bind_Done in H as ([] & Ha & H).
  - left. split; congruence.
  - right. split; congruence.
Qed.

(** One step of the inversion of a run that returned. *)
Ltac run_step H :=
  match type of H with
  | mbind _ _ = Done _ =>
      let a := fresh "a" in
      let E := fresh "E" in
      apply bind_Done in H as (a & E & H)
  | Done _ = Done _ => injection H as H
  | Panic = Done _ => discriminate H
  | OutOfFuel = Done _ => discriminate H
  | (if ?c then _ else _) = Done _ =>
      let E := fresh "E" in destruct c eqn:E
  | (let '(_, _) := ?p in _) = Done _ => destruct p
  | match ?x with _ => _ end = Done _ =>
      let E := fresh "E" in destruct x eqn:E
  end.

Lemma deref_Done mem p x : deref mem p = Done x <-> mem !! p = Some x.
Proof. unfold deref. destruct (mem !! p); split; congruence. Qed.

(** ** The answer of [findGROPacket] *)

Lemma findGROPacket_from_found fuel bucket ipHdr tcpHdr cur g f :
  findGROPacket_from fuel bucket ipHdr tcpHdr cur = Done (Some g, f) ->
  linked (gb_packetsPrealloc bucket) cur g /\
  exists x, gb_packetsPrealloc bucket !! g = Some x /\
            findGROPacket_body ipHdr tcpHdr x = Done (Some f).
Proof.
  revert cur. induction fuel as [|fuel IH]; intros [c|] H; simpl in H;
    try discriminate.
  apply bind_Done in H as (x & Ex & H). apply deref_Done in Ex.
  apply bind_Done in H as (r & Er & H). destruct r as [f'|].
  - injection H as -> ->. split; [constructor | eauto].
  - apply IH in H as [Hl Hx]. split; [econstructor; eauto | exact Hx].
Qed.

Lemma findGROPacket_from_none fuel bucket ipHdr tcpHdr cur f :
  findGROPacket_from fuel bucket ipHdr tcpHdr cur = Done (None, f) ->
  f = false /\
  forall g, linked (gb_packetsPrealloc bucket) cur g ->
    exists x, gb_packetsPrealloc bucket !! g = Some x /\
              findGROPacket_body ipHdr tcpHdr x = Done None.
Proof.
  revert cur. induction fuel as [|fuel IH]; intros [c|] H; simpl in H;
    try discriminate.
  - injection H as <-. split; [done|]. intros g Hg. inversion Hg.
  - apply bind_Done in H as (x & Ex & H). apply deref_Done in Ex.
    apply bind_Done in H as (r & Er & H). destruct r as [f'|]; [discriminate|].
    apply IH in H as [-> Hall]. split; [done|].
    intros g Hg. inversion Hg; subst.
    + eauto.
    + assert (x0 = x) by congruence. subst. auto.
  - injection H as <-. split; [done|]. intros g Hg. inversion Hg.
Qed.

(** C10. [findGROPacket] never answers nil together with a flush request:
    when the flag it returns is true, the entry it returns is a slot of the
    bucket's list, so the flush branch of [dispatch], which reads that entry
    to deliver and remove it, has an entry to read. *)
Theorem findGROPacket_flush_entry fuel bucket ipHdr tcpHdr groPkt :
  findGROPacket fuel bucket ipHdr tcpHdr = Done (groPkt, true) ->
  exists g x, groPkt = Some g /\ staged bucket g /\
              deref (gb_packetsPrealloc bucket) g = Done x.
Proof.
  unfold findGROPacket. intros H. destruct groPkt as [g|].
  - apply findGROPacket_from_found in H as (Hl & x & Hx & _).
    exists g, x. split; [done|]. split; [exact Hl | by apply deref_Done].
  - apply findGROPacket_from_none in H as [? _]. discriminate.
Qed.

(** ** The disabled dispatcher *)

(** C8. With a stored interval of 0, [dispatch] makes exactly one delivery,
    of the packet it was given and as it was given, and returns the
    dispatcher unchanged. *)
Theorem dispatch_disabled chk fuel gd pkt netProto e mtu now :
  gd_intervalNS gd = 0 ->
  dispatch chk fuel gd pkt netProto (Some e) mtu now = Done (gd, [(e, pkt)]).
Proof. intros H. unfold dispatch. rewrite H. reflexivity. Qed.

Lemma dispatch_disabled_witness :
  gd_intervalNS (init 0) = 0 /\
  dispatch noChecks 0 (init 0) (Some segA) header.IPv4ProtocolNumber
    (Some 1%nat) 1500 5 = Done (init 0, [(1%nat, Some segA)]).
Proof.
  split; [reflexivity|]. apply (dispatch_disabled noChecks). reflexivity.
Defined.

(** ** Negative intervals *)




(** ** The flush decision *)

Lemma neqb_true a b : neqb a b = true <-> a <> b.
Proof. unfold neqb. rewrite negb_true_iff. apply Z.eqb_neq. Qed.

Lemma neqb_false a b : neqb a b = false <-> a = b.
Proof. unfold neqb. rewrite negb_false_iff. apply Z.eqb_eq. Qed.

Lemma flushDecision_spec tl flags mtu :
  flushDecision tl flags mtu = true <-> spec_flush tl flags mtu.
Proof.
  unfold flushDecision, spec_flush, flagSet.
  rewrite orb_true_iff, !neqb_true, !Z.land_lor_distr_r.
  rewrite !Exists_cons, Exists_nil.
  split.
  - intros [H|H]; [by left|]. right.
    destruct (Z.eq_dec (Z.land flags header.TCPFlagUrg) 0) as [E1|]; [|tauto].
    destruct (Z.eq_dec (Z.land flags header.TCPFlagPsh) 0) as [E2|]; [|tauto].
    destruct (Z.eq_dec (Z.land flags header.TCPFlagRst) 0) as [E3|]; [|tauto].
    destruct (Z.eq_dec (Z.land flags header.TCPFlagSyn) 0) as [E4|]; [|tauto].
    destruct (Z.eq_dec (Z.land flags header.TCPFlagFin) 0) as [E5|]; [|tauto].
    exfalso. apply H. rewrite E1, E2, E3, E4, E5. reflexivity.
  - intros [H|H]; [by left|]. right. intros E.
    apply Z.lor_eq_0_iff in E as [E E5]. apply Z.lor_eq_0_iff in E as [E E4].
    apply Z.lor_eq_0_iff in E as [E E3]. apply Z.lor_eq_0_iff in E as [E1 E2].
    tauto.
Qed.

(** C4. Under the lock, the [switch] of [dispatch] is entered with the flush
    decision of the specification, taken on the total length and the flags
    of the incoming segment's own headers: whatever [findGROPacket] answered
    and whether or not a merge changed the staged entry's headers. *)
Theorem dispatch_flush_decision fuel bucket pkt ipHdr tcpHdr dataOff
    tcpPayloadSize ep mtu now tl flags :
  header.IPv4.TotalLength ipHdr = Done tl ->
  header.TCP.Flags tcpHdr = Done flags ->
  dispatchBucket fuel bucket pkt ipHdr tcpHdr dataOff tcpPayloadSize ep mtu now
  = ('(groPkt, flushGROPkt) ← findGROPacket fuel bucket ipHdr tcpHdr;
     '(bucket, groPkt, out) ←
       flushOrMerge bucket groPkt flushGROPkt pkt dataOff flags
         tcpPayloadSize ep;
     applyFlush (bool_decide (spec_flush tl flags mtu)) bucket groPkt out pkt
       ipHdr tcpHdr ep now).
Proof.
  intros Htl Hfl. unfold dispatchBucket. rewrite Hfl, Htl. simpl.
  replace (flushDecision tl flags mtu)
    with (bool_decide (spec_flush tl flags mtu)); [reflexivity|].
  destruct (flushDecision tl flags mtu) eqn:E.
  - apply bool_decide_eq_true. by apply flushDecision_spec.
  - apply bool_decide_eq_false. rewrite <- flushDecision_spec. congruence.
Qed.

Lemma dispatch_flush_decision_witness :
  header.IPv4.TotalLength (ipHdrOf segA2) = Done 1500 /\
  header.TCP.Flags (tcpHdrOf segA2) = Done 16 /\
  dispatchBucket 8 (init_bucket groBucket_zero) segA2 (ipHdrOf segA2)
    (tcpHdrOf segA2) 20 1460 (Some 1%nat) 1500 101
  = ('(groPkt, flushGROPkt) ←
       findGROPacket 8 (init_bucket groBucket_zero) (ipHdrOf segA2)
         (tcpHdrOf segA2);
     '(bucket, groPkt, out) ←
       flushOrMerge (init_bucket groBucket_zero) groPkt flushGROPkt segA2 20
         16 1460 (Some 1%nat);
     applyFlush (bool_decide (spec_flush 1500 16 1500)) bucket groPkt out
       segA2 (ipHdrOf segA2) (tcpHdrOf segA2) (Some 1%nat) 101).
Proof.
  split; [vm_compute; reflexivity|]. split; [vm_compute; reflexivity|].
  apply dispatch_flush_decision; vm_compute; reflexivity.
Defined.

(** The headers of the staged entry are not consulted: after an in-order
    second full-sized segment is merged, the stored total length is 2960 and
    no longer the MTU, and yet nothing is delivered. *)
Example merged_entry_not_consulted :
  match
    runAll noChecks 8 (init 10000000) [arrive segA 100; arrive segA2 101]
  with
  | Done (gd, out) =>
      out = [] /\
      exists b x,
        gd_buckets gd !! 7%nat = Some b /\ staged b 0 /\
        gb_packetsPrealloc b !! 0%nat = Some x /\
        header.IPv4.TotalLength (pk_ipHdr x) = Done 2960 /\
        (Size <$> pk_pkt x) = Some 2960
  | _ => False
  end.
Proof.
  match goal with |- match ?t with _ => _ end => set (r := t) end.
  vm_compute in r. subst r. cbv beta iota.
  split; [reflexivity|].
  eexists _, _. split; [reflexivity|]. split; [apply linked_here|].
  split; [reflexivity|]. split; vm_compute; reflexivity.
Qed.

(** ** Bytes *)

Lemma u8_range x : 0 <= u8 x < 256.
Proof.
  unfold u8. pose proof (Byte.to_N_bounded x). lia.
Qed.

Lemma u8_inj x y : u8 x = u8 y -> x = y.
Proof.
  unfold u8. intros H. apply N2Z.inj in H.
  pose proof (Byte.of_to_N x) as Hx. pose proof (Byte.of_to_N y) as Hy.
  congruence.
Qed.

Lemma at__Done b i v : at_ b i = Done v -> 0 <= v < 256.
Proof.
  unfold at_. destruct (b !! i); [|discriminate].
  intros [= <-]. apply u8_range.
Qed.

Lemma slice_Done b lo hi r :
  slice b lo hi = Done r ->
  (hi <= length b)%nat /\ r = take (hi - lo) (drop lo b).
Proof.
  unfold slice. destruct (length b <? hi)%nat eqn:E; [discriminate|].
  apply Nat.ltb_ge in E. intros [= <-]. done.
Qed.

Lemma optionsDiffer_spec n i a b :
  (n <> 0 -> i + n <= length a)%nat -> (n <> 0 -> i + n <= length b)%nat ->
  optionsDiffer n i a b
  = Done (bool_decide (take n (drop i a) <> take n (drop i b))).
Proof.
  revert i. induction n as [|n IH]; intros i Ha Hb.
  - reflexivity.
  - cbn [optionsDiffer]. unfold at_.
    destruct (lookup_lt_is_Some_2 a i) as [x Hx]; [lia|].
    destruct (lookup_lt_is_Some_2 b i) as [y Hy]; [lia|].
    rewrite Hx, Hy. cbn [mbind Res_bind].
    rewrite (drop_S a x i Hx), (drop_S b y i Hy). cbn [take].
    destruct (neqb (u8 x) (u8 y)) eqn:E.
    + apply neqb_true in E. rewrite bool_decide_eq_true_2; [done|].
      intros [= ->]. done.
    + apply neqb_false, u8_inj in E. subst y.
      rewrite IH by lia. f_equal. apply bool_decide_ext.
      split; intros H; [congruence|]. intros E. apply H. by f_equal.
Qed.

(** ** The matcher *)

Lemma fields_Done ipHdr tcpHdr c :
  fields ipHdr tcpHdr = Done c ->
  header.IPv4.SourceAddress ipHdr = Done (f_src c) /\
  header.IPv4.DestinationAddress ipHdr = Done (f_dst c) /\
  header.TCP.SourcePort tcpHdr = Done (f_sport c) /\
  header.TCP.DestinationPort tcpHdr = Done (f_dport c) /\
  header.IPv4.TTL ipHdr = Done (f_ttl c) /\
  header.IPv4.TOS ipHdr = Done (f_tos c) /\
  header.TCP.Flags tcpHdr = Done (f_flags c) /\
  header.TCP.AckNumber tcpHdr = Done (f_ack c) /\
  header.TCP.SequenceNumber tcpHdr = Done (f_seq c) /\
  header.TCP.DataOffset tcpHdr = Done (f_dataOff c) /\
  header.IPv4.TotalLength ipHdr = Done (f_totalLength c) /\
  slice tcpHdr (Z.to_nat header.TCPMinimumSize) (Z.to_nat (f_dataOff c))
  = Done (f_options c).
Proof.
  unfold fields. intros H. repeat run_step H. subst c. simpl.
  repeat split; assumption.
Qed.

Lemma findGROPacket_body_classify ipHdr tcpHdr groPkt c e p :
  fields ipHdr tcpHdr = Done c ->
  fields (pk_ipHdr groPkt) (pk_tcpHdr groPkt) = Done e ->
  pk_pkt groPkt = Some p ->
  findGROPacket_body ipHdr tcpHdr groPkt = Done (classify c e p).
Proof.
  intros Hc He Hp.
  apply fields_Done in Hc
    as (C1 & C2 & C3 & C4 & C5 & C6 & C7 & C8 & C9 & C10 & C11 & C12).
  apply fields_Done in He
    as (E1 & E2 & E3 & E4 & E5 & E6 & E7 & E8 & E9 & E10 & E11 & E12).
  unfold findGROPacket_body, classify, payloadSize, f_payloadSize.
  rewrite C1, C2, C3, C4, C5, C6, C7, C8, C9, C10, C11.
  rewrite E1, E2, E3, E4, E5, E6, E7, E8, E9, E10, E11, Hp.
  unfold orElse. cbn [mbind Res_bind].
  destruct (bool_decide (f_src c <> f_src e)); cbn [orb]; [reflexivity|].
  destruct (bool_decide (f_dst c <> f_dst e)); cbn [orb]; [reflexivity|].
  destruct (neqb (f_sport c) (f_sport e)); cbn [orb]; [reflexivity|].
  destruct (neqb (f_dport c) (f_dport e)); cbn [orb]; [reflexivity|].
  destruct (neqb (f_ttl c) (f_ttl e)); cbn [orb]; [reflexivity|].
  destruct (neqb (f_tos c) (f_tos e)); cbn [orb]; [reflexivity|].
  destruct (neqb (Z.land (f_flags c) header.TCPFlagCwr) 0); cbn [orb];
    [reflexivity|].
  match goal with |- context [neqb (Z.ldiff ?a ?b) 0] =>
    destruct (neqb (Z.ldiff a b) 0); cbn [orb]; [reflexivity|] end.
  destruct (neqb (f_ack c) (f_ack e)); cbn [orb]; [reflexivity|].
  destruct (neqb (f_dataOff c) (f_dataOff e)) eqn:Eoff; cbn [orb];
    [reflexivity|].
  match goal with |- context [neqb (?a mod 2 ^ 32) ?b] =>
    destruct (neqb (a mod 2 ^ 32) b); cbn [orb]; [reflexivity|] end.
  apply neqb_false in Eoff.
  apply slice_Done in C12 as [Lc ->]. apply slice_Done in E12 as [Le ->].
  rewrite <- Eoff in *.
  rewrite optionsDiffer_spec.
  - cbn [mbind Res_bind].
    replace (Z.to_nat (f_dataOff c - header.TCPMinimumSize))
      with (Z.to_nat (f_dataOff c) - Z.to_nat header.TCPMinimumSize)%nat
      by (unfold header.TCPMinimumSize; lia).
    destruct (bool_decide _); [reflexivity|].
    destruct (groMaxPacketSize <=? _); reflexivity.
  - unfold header.TCPMinimumSize. lia.
  - unfold header.TCPMinimumSize. lia.
Qed.

Lemma flagsDifferWithinb_spec a b :
  flagsDifferWithinb a b = true <-> flagsDifferWithin a b.
Proof.
  unfold flagsDifferWithinb, flagsDifferWithin.
  rewrite forallb_forall, Forall_forall. 
  split; intros H f Hf.
  - specialize (H f (proj1 (list_elem_of_In _ _) Hf)).
    rewrite !orb_true_iff, !Z.eqb_eq in H.
    destruct H as [[[H|H]|H]|H]; [tauto..|].
    right; right; right. apply Bool.eqb_prop in H. unfold flagSet.
    rewrite <- !neqb_true, H. tauto.
  - specialize (H f (proj2 (list_elem_of_In _ _) Hf)).
    rewrite !orb_true_iff, !Z.eqb_eq.
    destruct H as [H|[H|[H|H]]]; [tauto..|].
    right. unfold flagSet in H. rewrite <- !neqb_true in H.
    destruct (neqb (Z.land a f) 0), (neqb (Z.land b f) 0); simpl; try done;
      exfalso; intuition congruence.
Qed.

Lemma byteValues_elem v : 0 <= v < 256 -> In v byteValues.
Proof.
  intros H. unfold byteValues. apply list_elem_of_In, list_elem_of_fmap.
  exists (Z.to_nat v). split; [lia|]. apply elem_of_seq. lia.
Qed.

Lemma flags_mask_check :
  forallb (fun a =>
             forallb (fun b =>
                        Bool.eqb
                          (neqb (Z.ldiff (Z.lxor a b)
                                   (Z.lor (Z.lor header.TCPFlagCwr
                                             header.TCPFlagFin)
                                      header.TCPFlagPsh)) 0)
                          (negb (flagsDifferWithinb a b)))
               byteValues)
    byteValues = true.
Proof. vm_compute. reflexivity. Qed.

Lemma flags_mask a b :
  0 <= a < 256 -> 0 <= b < 256 ->
  neqb (Z.ldiff (Z.lxor a b)
          (Z.lor (Z.lor header.TCPFlagCwr header.TCPFlagFin)
             header.TCPFlagPsh)) 0 = false
  <-> flagsDifferWithin a b.
Proof.
  intros Ha Hb. pose proof flags_mask_check as H.
  rewrite forallb_forall in H. specialize (H a (byteValues_elem a Ha)).
  rewrite forallb_forall in H. specialize (H b (byteValues_elem b Hb)).
  apply Bool.eqb_prop in H. rewrite H, negb_false_iff.
  apply flagsDifferWithinb_spec.
Qed.

Lemma classify_spec c e p :
  0 <= f_flags c < 256 -> 0 <= f_flags e < 256 ->
  (classify c e p = None <-> ~ same4 c e) /\
  (classify c e p = Some false <-> same4 c e /\ code_mergeable c e p) /\
  (classify c e p = Some true <-> same4 c e /\ ~ code_mergeable c e p).
Proof.
  intros Rc Re. pose proof (flags_mask _ _ Rc Re) as Hmask.
  unfold classify, same4, code_mergeable, headersAgree, flagSet.
  destruct (bool_decide (f_src c <> f_src e)) eqn:T1;
    [apply bool_decide_eq_true in T1; cbn [orb];
     intuition (try discriminate; try congruence)|].
  apply bool_decide_eq_false, dec_stable in T1.
  destruct (bool_decide (f_dst c <> f_dst e)) eqn:T2;
    [apply bool_decide_eq_true in T2; cbn [orb];
     intuition (try discriminate; try congruence)|].
  apply bool_decide_eq_false, dec_stable in T2.
  destruct (neqb (f_sport c) (f_sport e)) eqn:T3;
    [apply neqb_true in T3; cbn [orb];
     intuition (try discriminate; try congruence)|].
  apply neqb_false in T3.
  destruct (neqb (f_dport c) (f_dport e)) eqn:T4;
    [apply neqb_true in T4; cbn [orb];
     intuition (try discriminate; try congruence)|].
  apply neqb_false in T4.
  destruct (neqb (f_ttl c) (f_ttl e)) eqn:T5;
    [apply neqb_true in T5; cbn [orb];
     intuition (try discriminate; try congruence)|].
  apply neqb_false in T5.
  destruct (neqb (f_tos c) (f_tos e)) eqn:T6;
    [apply neqb_true in T6; cbn [orb];
     intuition (try discriminate; try congruence)|].
  apply neqb_false in T6.
  destruct (neqb (Z.land (f_flags c) header.TCPFlagCwr) 0) eqn:T7;
    [apply neqb_true in T7; cbn [orb];
     intuition (try discriminate; try congruence)|].
  apply neqb_false in T7.
  match type of Hmask with ?t = false <-> _ => destruct t eqn:T8 end;
    [cbn [orb];
     assert (~ flagsDifferWithin (f_flags c) (f_flags e))
       by (rewrite <- Hmask; congruence);
     intuition (try discriminate; try congruence)|].
  assert (T8' : flagsDifferWithin (f_flags c) (f_flags e))
    by (by apply Hmask).
  clear Hmask.
  destruct (neqb (f_ack c) (f_ack e)) eqn:T9;
    [apply neqb_true in T9; cbn [orb];
     intuition (try discriminate; try congruence)|].
  apply neqb_false in T9.
  destruct (neqb (f_dataOff c) (f_dataOff e)) eqn:T10;
    [apply neqb_true in T10; cbn [orb];
     intuition (try discriminate; try congruence)|].
  apply neqb_false in T10.
  destruct (neqb ((f_seq e + f_payloadSize e) mod 2 ^ 32) (f_seq c)) eqn:T11;
    [apply neqb_true in T11; cbn [orb];
     intuition (try discriminate; try congruence)|].
  apply neqb_false in T11. cbn [orb].
  destruct (bool_decide (f_options c <> f_options e)) eqn:T12;
    [apply bool_decide_eq_true in T12;
     intuition (try discriminate; try congruence)|].
  apply bool_decide_eq_false, dec_stable in T12.
  destruct (groMaxPacketSize <=? _) eqn:T13;
    [apply Z.leb_le in T13 | apply Z.leb_gt in T13];
    intuition (try discriminate; try congruence; try lia).
Qed.

(** C3, as stated, fails. The staged entry holds one 64000-byte segment and
    the candidate is the next 1500 bytes of its flow: every condition of
    MatchMergeable in the words of the specification holds, the two payload
    sizes add up to 65500, below 65536, and the matcher still asks for a
    flush. *)
Lemma spec_mergeable_flushed :
  exists c e,
    fields (ipHdrOf segNext) (tcpHdrOf segNext) = Done c /\
    fields (pk_ipHdr (entryOf segBig)) (pk_tcpHdr (entryOf segBig)) = Done e /\
    same4 c e /\ spec_mergeable c e /\
    findGROPacket_body (ipHdrOf segNext) (tcpHdrOf segNext) (entryOf segBig)
    = Done (Some true).
Proof.
  eexists _, _. split; [vm_compute; reflexivity|].
  split; [vm_compute; reflexivity|].
  split; [repeat split|]. split; [|vm_compute; reflexivity].
  split; [|vm_compute; reflexivity].
  unfold headersAgree. repeat split; try (vm_compute; congruence).
  apply flagsDifferWithinb_spec. vm_compute. reflexivity.
Qed.

(** C3, amended. For a candidate and a staged entry whose headers can be
    read, the matcher answers: no match exactly when the 4-tuples differ;
    mergeable exactly when the 4-tuples are equal, TTL, TOS, ACK number and
    TCP header length are equal, CWR is clear on the candidate, the flags
    differ only within CWR, FIN and PSH, the candidate's sequence number
    continues the entry, the option bytes are identical, and the
    candidate's payload size plus the size of the staged packet's whole
    buffer, headers included, is below [groMaxPacketSize]; a flush in all
    other cases. *)
Theorem flowMatcher_classification ipHdr tcpHdr groPkt c e p :
  fields ipHdr tcpHdr = Done c ->
  fields (pk_ipHdr groPkt) (pk_tcpHdr groPkt) = Done e ->
  pk_pkt groPkt = Some p ->
  exists r,
    findGROPacket_body ipHdr tcpHdr groPkt = Done r /\
    (r = None <-> ~ same4 c e) /\
    (r = Some false <-> same4 c e /\ code_mergeable c e p) /\
    (r = Some true <-> same4 c e /\ ~ code_mergeable c e p).
Proof.
  intros Hc He Hp. exists (classify c e p).
  split; [by apply findGROPacket_body_classify|].
  apply classify_spec.
  - apply fields_Done in Hc as (_ & _ & _ & _ & _ & _ & H & _).
    by apply at__Done in H.
  - apply fields_Done in He as (_ & _ & _ & _ & _ & _ & H & _).
    by apply at__Done in H.
Qed.

Lemma flowMatcher_classification_witness :
  exists c e,
    fields (ipHdrOf segA2) (tcpHdrOf segA2) = Done c /\
    fields (pk_ipHdr (entryOf segA)) (pk_tcpHdr (entryOf segA)) = Done e /\
    pk_pkt (entryOf segA) = Some segA /\
    exists r,
      findGROPacket_body (ipHdrOf segA2) (tcpHdrOf segA2) (entryOf segA)
      = Done r /\
      (r = None <-> ~ same4 c e) /\
      (r = Some false <-> same4 c e /\ code_mergeable c e segA) /\
      (r = Some true <-> same4 c e /\ ~ code_mergeable c e segA).
Proof.
  eexists _, _. split; [vm_compute; reflexivity|].
  split; [vm_compute; reflexivity|]. split; [reflexivity|].
  apply flowMatcher_classification; [vm_compute; reflexivity..|reflexivity].
Defined.

(** ** The links of a bucket *)

Lemma linked_step mem cur c x k :
  linked mem cur c -> mem !! c = Some x -> next (pk_entry x) = Some k ->
  linked mem cur k.
Proof.
  induction 1 as [g|g y i Hy Hl IH]; intros Hx Hk.
  - eapply linked_next; [exact Hx|]. rewrite Hk. constructor.
  - eapply linked_next; [exact Hy|]. by apply IH.
Qed.

Lemma linked_evolves S (Q : nat -> Prop) mem mem' :
  evolves S mem mem' ->
  (forall c x k,
     Q c -> mem !! c = Some x -> next (pk_entry x) = Some k -> Q k) ->
  (forall k, S (Some k) -> Q k) ->
  forall cur i, linked mem' cur i -> (forall c, cur = Some c -> Q c) -> Q i.
Proof.
  intros Hev Hclosed HS cur i Hl.
  induction Hl as [g|g x' i Hx' Hl IH]; intros Hcur; [by apply Hcur|].
  apply IH. intros c Hc.
  destruct (Hev g x' Hx') as (x & Hx & [Hn|Hn] & _).
  - eapply Hclosed; [by apply Hcur | exact Hx | congruence].
  - apply HS. by rewrite <- Hc.
Qed.

Lemma evolves_refl S mem : evolves S mem mem.
Proof. intros k x Hx. exists x. auto. Qed.

Lemma evolves_trans S mem1 mem2 mem3 :
  evolves S mem1 mem2 -> evolves S mem2 mem3 -> evolves S mem1 mem3.
Proof.
  intros H12 H23 k x3 H3.
  destruct (H23 k x3 H3) as (x2 & H2 & Hn2 & Hf2).
  destruct (H12 k x2 H2) as (x1 & H1 & Hn1 & Hf1).
  exists x1. split; [done|]. split.
  - destruct Hn2 as [->|]; [|by right]. exact Hn1.
  - destruct Hf2 as [->|]; [|by right]. exact Hf1.
Qed.

Lemma evolves_weaken (S S' : option nat -> Prop) mem mem' :
  (forall v, S v -> S' v) -> evolves S mem mem' -> evolves S' mem mem'.
Proof.
  intros HS H k x' Hx'. destruct (H k x' Hx') as (x & Hx & Hn & Hf).
  exists x. split; [done|]. split; [|done]. destruct Hn; auto.
Qed.

Lemma evolves_update S mem p x x' :
  mem !! p = Some x ->
  (next (pk_entry x') = next (pk_entry x) \/ S (next (pk_entry x'))) ->
  (flow x' = flow x \/ flow x' = Panic) ->
  evolves S mem (<[p := x']> mem).
Proof.
  intros Hx Hn Hf k y Hy. destruct (decide (k = p)) as [->|Hne].
  - rewrite list_lookup_insert_eq in Hy by (by eapply lookup_lt_Some).
    injection Hy as <-. eauto.
  - rewrite list_lookup_insert_ne in Hy by done. exists y. auto.
Qed.

Lemma SetNext_evolves (S : option nat -> Prop) mem p v mem' :
  SetNext mem p v = Done mem' -> S v -> evolves S mem mem'.
Proof.
  unfold SetNext. intros H Hv. apply bind_Done in H as (x & Hx & H).
  apply deref_Done in Hx. injection H as <-.
  eapply evolves_update; [exact Hx | by right | by left].
Qed.

Lemma SetPrev_evolves S mem p v mem' :
  SetPrev mem p v = Done mem' -> evolves S mem mem'.
Proof.
  unfold SetPrev. intros H. apply bind_Done in H as (x & Hx & H).
  apply deref_Done in Hx. injection H as <-.
  eapply evolves_update; [exact Hx | by left | by left].
Qed.

Lemma evolves_zero (S : option nat -> Prop) mem p :
  S None -> evolves S mem (<[p := groPacket_zero]> mem).
Proof.
  intros HS. destruct (mem !! p) as [x|] eqn:Hx.
  - eapply evolves_update; [exact Hx | by right | by right].
  - rewrite list_insert_ge by (by apply lookup_ge_None). apply evolves_refl.
Qed.

(** [relinked mem mem']: the slots of [mem'] are those of [mem] with other
    links. *)
Lemma SetNext_relinked mem p v mem' k y :
  SetNext mem p v = Done mem' -> mem' !! k = Some y ->
  exists x l, mem !! k = Some x /\ y = with_entry x l.
Proof.
  unfold SetNext. intros H Hy. apply bind_Done in H as (x & Hx & H).
  apply deref_Done in Hx. injection H as <-.
  destruct (decide (k = p)) as [->|Hne].
  - rewrite list_lookup_insert_eq in Hy by (by eapply lookup_lt_Some).
    injection Hy as <-. eauto.
  - rewrite list_lookup_insert_ne in Hy by done.
    exists y, (pk_entry y). split; [done|]. by destruct y.
Qed.

Lemma SetPrev_relinked mem p v mem' k y :
  SetPrev mem p v = Done mem' -> mem' !! k = Some y ->
  exists x l, mem !! k = Some x /\ y = with_entry x l.
Proof.
  unfold SetPrev. intros H Hy. apply bind_Done in H as (x & Hx & H).
  apply deref_Done in Hx. injection H as <-.
  destruct (decide (k = p)) as [->|Hne].
  - rewrite list_lookup_insert_eq in Hy by (by eapply lookup_lt_Some).
    injection Hy as <-. eauto.
  - rewrite list_lookup_insert_ne in Hy by done.
    exists y, (pk_entry y). split; [done|]. by destruct y.
Qed.

Lemma Remove_relinked l mem e l' mem' k y :
  Remove l mem e = Done (l', mem') -> mem' !! k = Some y ->
  exists x l, mem !! k = Some x /\ y = with_entry x l.
Proof.
  unfold Remove. intros H Hy.
  apply bind_Done in H as (x & Hx & H).
  apply bind_Done in H as ([l1 mem1] & H1 & H).
  apply bind_Done in H as ([l2 mem2] & H2 & H).
  apply bind_Done in H as (mem3 & H3 & H).
  apply bind_Done in H as (mem4 & H4 & H).
  injection H as <- <-.
  destruct (SetPrev_relinked _ _ _ _ _ _ H4 Hy) as (y3 & ? & Hy3 & ->).
  destruct (SetNext_relinked _ _ _ _ _ _ H3 Hy3) as (y2 & ? & Hy2 & ->).
  assert (exists y1 l, mem1 !! k = Some y1 /\ y2 = with_entry y1 l)
    as (y1 & ? & Hy1 & ->).
  { destruct (next (pk_entry x)).
    - apply bind_Done in H2 as (m & Hm & H2). injection H2 as <- <-.
      eapply SetPrev_relinked; eauto.
    - exists y2, (pk_entry y2).
      destruct (decide (l_tail l1 = Some e)); injection H2 as <- <-;
        (split; [done|]); by destruct y2. }
  assert (exists y0 l, mem !! k = Some y0 /\ y1 = with_entry y0 l)
    as (y0 & ? & Hy0 & ->).
  { destruct (prev (pk_entry x)).
    - apply bind_Done in H1 as (m & Hm & H1). injection H1 as <- <-.
      eapply SetNext_relinked; eauto.
    - exists y1, (pk_entry y1).
      destruct (decide (l_head l = Some e)); injection H1 as <- <-;
        (split; [done|]); by destruct y1. }
  eexists y0, _. split; [done|]. reflexivity.
Qed.

Lemma Remove_evolves l mem e l' mem' :
  Remove l mem e = Done (l', mem') ->
  exists x,
    mem !! e = Some x /\
    evolves (fun v => v = None \/ v = next (pk_entry x)) mem mem' /\
    (l_head l' = l_head l \/
     (l_head l = Some e /\ l_head l' = next (pk_entry x))).
Proof.
  unfold Remove. intros H.
  apply bind_Done in H as (x & Hx & H). apply deref_Done in Hx.
  exists x. split; [exact Hx|].
  set (S := fun v => v = None \/ v = next (pk_entry x)).
  apply bind_Done in H as ([l1 mem1] & H1 & H).
  apply bind_Done in H as ([l2 mem2] & H2 & H).
  apply bind_Done in H as (mem3 & H3 & H).
  apply bind_Done in H as (mem4 & H4 & H).
  injection H as <- <-.
  assert (E1 : evolves S mem mem1 /\
               (l_head l1 = l_head l \/
                (l_head l = Some e /\ l_head l1 = next (pk_entry x)))).
  { destruct (prev (pk_entry x)) as [p|].
    - apply bind_Done in H1 as (m & Hm & H1). injection H1 as <- <-.
      split; [|by left]. eapply SetNext_evolves; [exact Hm|]. by right.
    - destruct (decide (l_head l = Some e)) as [Hh|Hh];
        injection H1 as <- <-; (split; [apply evolves_refl|]); simpl; auto. }
  destruct E1 as [E1 Hh].
  assert (E2 : evolves S mem1 mem2 /\ l_head l2 = l_head l1).
  { destruct (next (pk_entry x)) as [n|].
    - apply bind_Done in H2 as (m & Hm & H2). injection H2 as <- <-.
      split; [|done]. eapply SetPrev_evolves. exact Hm.
    - destruct (decide (l_tail l1 = Some e));
        injection H2 as <- <-; (split; [apply evolves_refl|]); done. }
  destruct E2 as [E2 Hh2].
  split; [|by rewrite Hh2].
  eapply evolves_trans; [exact E1|]. eapply evolves_trans; [exact E2|].
  eapply evolves_trans; [eapply SetNext_evolves; [exact H3|by left]|].
  eapply SetPrev_evolves. exact H4.
Qed.

Lemma store_Done {A} (a : list A) i x a' :
  store a i x = Done a' -> a' = <[Z.to_nat i := x]> a.
Proof.
  unfold store. destruct (_ || _); [discriminate|]. by intros [= <-].
Qed.

Lemma staged_head gb g : Front (gb_packets gb) = Some g -> staged gb g.
Proof. unfold staged. intros ->. constructor. Qed.

(** What [removeOne] does to a bucket, for an element of its list. *)
Lemma removeOne_spec gb e gb' :
  removeOne gb e = Done gb' -> staged gb e ->
  shrinks gb gb' /\
  gb_count gb' = gb_count gb - 1 /\
  gb_packetsPrealloc gb' !! e = Some groPacket_zero.
Proof.
  unfold removeOne. intros H He.
  apply bind_Done in H as ([l mem] & HR & H).
  apply bind_Done in H as (y & Hy & H). apply deref_Done in Hy.
  apply bind_Done in H as (idxs & Hidx & H). injection H as <-. simpl.
  apply Remove_evolves in HR as (x & Hx & Hev & Hh).
  set (S := fun v => v = None \/ v = next (pk_entry x)) in *.
  assert (Hev' : evolves S (gb_packetsPrealloc gb)
                   (<[e := groPacket_zero]> mem)).
  { eapply evolves_trans; [exact Hev|]. apply evolves_zero. by left. }
  split; [split|split; [done|]].
  - intros i Hi. unfold staged in Hi. simpl in Hi.
    eapply (linked_evolves S (staged gb)); [exact Hev'| | |exact Hi|].
    + intros c z k Hc Hz Hk. eapply linked_step; eauto.
    + intros k [Hk|Hk]; [discriminate|].
      eapply linked_step; [exact He | exact Hx | by symmetry].
    + intros c Hc. unfold Front in Hc. simpl in Hc.
      destruct Hh as [Hh|[Hh1 Hh2]].
      * apply staged_head. unfold Front. congruence.
      * eapply linked_step; [exact He | exact Hx | congruence].
  - simpl. eapply evolves_weaken; [|exact Hev']. done.
  - apply list_lookup_insert_eq. by eapply lookup_lt_Some.
Qed.

Lemma removeOldest_spec gb gb' p :
  removeOldest gb = Done (gb', p) ->
  exists front x,
    Front (gb_packets gb) = Some front /\
    gb_packetsPrealloc gb !! front = Some x /\
    p = pk_pkt x /\
    shrinks gb gb' /\
    gb_count gb' = gb_count gb - 1 /\
    gb_packetsPrealloc gb' !! front = Some groPacket_zero.
Proof.
  unfold removeOldest. intros H.
  destruct (Front (gb_packets gb)) as [e|] eqn:Hf; [|discriminate].
  apply bind_Done in H as ([l mem] & HR & H).
  apply bind_Done in H as (y & Hy & H). apply deref_Done in Hy.
  apply bind_Done in H as (idxs & Hidx & H). injection H as <- <-.
  assert (H1 : removeOne gb e
               = Done (mkBucket (gb_count gb - 1) l
                         (<[e := groPacket_zero]> mem) idxs)).
  { unfold removeOne. rewrite HR. simpl.
    rewrite (proj2 (deref_Done _ _ _) Hy). simpl. rewrite Hidx. done. }
  apply removeOne_spec in H1 as (Hs & Hc & Hz); [|by apply staged_head].
  pose proof HR as HR'. apply Remove_evolves in HR' as (x & Hx & Hev & _).
  exists e, x. split; [done|]. split; [done|]. split; [|done].
  destruct (Remove_relinked _ _ _ _ _ _ _ HR Hy) as (x' & ? & Hx' & ->).
  simpl. congruence.
Qed.

Lemma samePayload_refl x : samePayload x x.
Proof. exists (pk_entry x). by destruct x. Qed.

Lemma samePayload_trans x y z :
  samePayload x y -> samePayload y z -> samePayload x z.
Proof. intros [l ->] [l' ->]. by exists l'. Qed.

Lemma removeOne_keeps gb e gb' : removeOne gb e = Done gb' -> keeps gb gb'.
Proof.
  unfold removeOne. intros H.
  apply bind_Done in H as ([l mem] & HR & H).
  apply bind_Done in H as (y & Hy & H).
  apply bind_Done in H as (idxs & Hidx & H). injection H as <-.
  intros k z Hz. simpl in Hz.
  destruct (decide (k = e)) as [->|Hne].
  - apply list_lookup_insert_Some in Hz as [(_ & <- & _)|[? _]]; [|done].
    left. apply samePayload_refl.
  - rewrite list_lookup_insert_ne in Hz by done.
    destruct (Remove_relinked _ _ _ _ _ _ _ HR Hz) as (x & l0 & Hx & ->).
    right. exists x. split; [done|]. by exists l0.
Qed.

Lemma removeOldest_keeps gb gb' p :
  removeOldest gb = Done (gb', p) -> keeps gb gb'.
Proof.
  unfold removeOldest. intros H.
  destruct (Front (gb_packets gb)) as [e|] eqn:Hf; [|discriminate].
  apply bind_Done in H as ([l mem] & HR & H).
  apply bind_Done in H as (y & Hy & H). apply deref_Done in Hy.
  apply bind_Done in H as (idxs & Hidx & H). injection H as <- <-.
  apply (removeOne_keeps gb e). unfold removeOne. rewrite HR. simpl.
  rewrite (proj2 (deref_Done _ _ _) Hy). simpl. rewrite Hidx. done.
Qed.

Lemma SetNext_length mem p v mem' :
  SetNext mem p v = Done mem' -> length mem' = length mem.
Proof.
  unfold SetNext. intros H. apply bind_Done in H as (x & _ & H).
  injection H as <-. apply length_insert.
Qed.

Lemma SetPrev_length mem p v mem' :
  SetPrev mem p v = Done mem' -> length mem' = length mem.
Proof.
  unfold SetPrev. intros H. apply bind_Done in H as (x & _ & H).
  injection H as <-. apply length_insert.
Qed.

Lemma PushBack_length l mem e l' mem' :
  PushBack l mem e = Done (l', mem') -> length mem' = length mem.
Proof.
  unfold PushBack. intros H.
  apply bind_Done in H as (mem1 & H1 & H).
  apply bind_Done in H as (mem2 & H2 & H).
  apply SetNext_length in H1. apply SetPrev_length in H2.
  destruct (l_tail l).
  - apply bind_Done in H as (mem3 & H3 & H). injection H as <- <-.
    apply SetNext_length in H3. congruence.
  - injection H as <- <-. congruence.
Qed.

Lemma PushBack_spec l mem e l' mem' :
  PushBack l mem e = Done (l', mem') ->
  evolves (fun v => v = None \/ v = Some e) mem mem' /\
  (forall k y, mem' !! k = Some y ->
     exists x l0, mem !! k = Some x /\ y = with_entry x l0) /\
  (l_head l' = l_head l \/ l_head l' = Some e) /\
  l_tail l' = Some e.
Proof.
  unfold PushBack. intros H.
  set (S := fun v => v = None \/ v = Some e).
  apply bind_Done in H as (mem1 & H1 & H).
  apply bind_Done in H as (mem2 & H2 & H).
  assert (E12 : evolves S mem mem2).
  { eapply evolves_trans; [eapply SetNext_evolves; [exact H1|by left]|].
    eapply SetPrev_evolves. exact H2. }
  assert (R12 : forall k y, mem2 !! k = Some y ->
                  exists x l0, mem !! k = Some x /\ y = with_entry x l0).
  { intros k y Hy.
    destruct (SetPrev_relinked _ _ _ _ _ _ H2 Hy) as (y1 & ? & Hy1 & ->).
    destruct (SetNext_relinked _ _ _ _ _ _ H1 Hy1) as (y0 & ? & Hy0 & ->).
    eexists y0, _. split; [done|]. reflexivity. }
  destruct (l_tail l) as [t|].
  - apply bind_Done in H as (mem3 & H3 & H). injection H as <- <-.
    split; [|split; [|split; [by left|done]]].
    + eapply evolves_trans; [exact E12|].
      eapply SetNext_evolves; [exact H3|by right].
    + intros k y Hy.
      destruct (SetNext_relinked _ _ _ _ _ _ H3 Hy) as (y2 & ? & Hy2 & ->).
      destruct (R12 _ _ Hy2) as (y0 & ? & Hy0 & ->).
      eexists y0, _. split; [done|]. reflexivity.
  - injection H as <- <-. split; [done|]. split; [done|].
    split; [by right|done].
Qed.

Lemma index_Done {A} (a : list A) i x :
  index a i = Done x -> 0 <= i /\ a !! Z.to_nat i = Some x.
Proof.
  unfold index. destruct (i <? 0) eqn:E; [discriminate|].
  apply Z.ltb_ge in E. destruct (a !! Z.to_nat i); [|discriminate].
  by intros [= ->].
Qed.

(** What [insert] does to a bucket: the slot [s] it takes from the free
    stack is overwritten and appended; the list visits no other new slot. *)
Lemma insert_spec gb pkt ipHdr tcpHdr ep now gb' :
  insert gb pkt ipHdr tcpHdr ep now = Done gb' ->
  exists s,
    index (gb_allocIdxs gb) (gb_count gb) = Done (Z.of_nat s) /\
    (forall k, staged gb' k -> k = s \/ staged gb k) /\
    (exists l, gb_packetsPrealloc gb' !! s
               = Some (mkGroPacket l pkt ipHdr tcpHdr now ep 0)) /\
    (forall k y, k <> s -> gb_packetsPrealloc gb' !! k = Some y ->
       exists x l, gb_packetsPrealloc gb !! k = Some x /\ y = with_entry x l) /\
    gb_count gb' = gb_count gb + 1 /\
    l_tail (gb_packets gb') = Some s /\
    gb_allocIdxs gb' = gb_allocIdxs gb.
Proof.
  unfold insert. intros H.
  apply bind_Done in H as (i & Hi & H).
  apply bind_Done in H as (old & Hold & H).
  apply bind_Done in H as ([l mem'] & HP & H). injection H as <-. simpl.
  apply index_Done in Hold as [Hi0 Hold].
  set (s := Z.to_nat i) in *.
  set (new := mkGroPacket (mkEntry None None) pkt ipHdr tcpHdr now ep 0) in *.
  set (mem1 := <[s := new]> (gb_packetsPrealloc gb)) in *.
  assert (Hs1 : mem1 !! s = Some new).
  { apply list_lookup_insert_eq. by eapply lookup_lt_Some. }
  pose proof (PushBack_length _ _ _ _ _ HP) as Hlen.
  apply PushBack_spec in HP as (Hev & Hrel & Hh & Ht).
  exists s. split; [by replace (Z.of_nat s) with i by lia|].
  split; [|split; [|split; [|done]]].
  - intros k Hk. unfold staged in Hk. simpl in Hk.
    eapply (linked_evolves _ (fun k => k = s \/ staged gb k));
      [exact Hev| | |exact Hk|].
    + intros c x k' [->|Hc] Hx Hn.
      * rewrite Hs1 in Hx. injection Hx as <-. discriminate.
      * destruct (decide (c = s)) as [->|Hne].
        { rewrite Hs1 in Hx. injection Hx as <-. discriminate. }
        unfold mem1 in Hx. rewrite list_lookup_insert_ne in Hx by done.
        right. eapply linked_step; eauto.
    + intros k' [Hk'|Hk']; [discriminate|]. left. congruence.
    + intros c Hc. unfold Front in Hc. simpl in Hc.
      destruct Hh as [Hh|Hh].
      * right. apply staged_head. unfold Front. congruence.
      * left. congruence.
  - destruct (lookup_lt_is_Some_2 mem' s) as [y Hy].
    { rewrite Hlen. by eapply lookup_lt_Some. }
    destruct (Hrel _ _ Hy) as (x & l0 & Hx & ->).
    rewrite Hs1 in Hx. injection Hx as <-. exists l0. exact Hy.
  - intros k y Hne Hy. destruct (Hrel _ _ Hy) as (x & l0 & Hx & ->).
    unfold mem1 in Hx. rewrite list_lookup_insert_ne in Hx by done. eauto.
Qed.

(** ** Flows under the writes of a merge *)

Lemma at__insert_ne b i j v : i <> j -> at_ (<[i := v]> b) j = at_ b j.
Proof. intros H. unfold at_. by rewrite list_lookup_insert_ne. Qed.

Lemma slice_insert_out b i v lo hi :
  (i < lo \/ hi <= i)%nat -> (lo <= hi)%nat ->
  slice (<[i := v]> b) lo hi = slice b lo hi.
Proof.
  intros Hi Hlo. unfold slice. rewrite length_insert.
  destruct (length b <? hi)%nat; [done|]. f_equal.
  destruct (decide (i < lo)%nat).
  - by rewrite drop_insert_lt.
  - rewrite drop_insert_ge by lia. rewrite take_insert_ge by lia. done.
Qed.

Lemma flowOf_insert_ip ipHdr tcpHdr i v :
  (i < 12 \/ 20 <= i)%nat ->
  flowOf (<[i := v]> ipHdr) tcpHdr = flowOf ipHdr tcpHdr.
Proof.
  intros Hi. unfold flowOf, header.IPv4.SourceAddress,
    header.IPv4.DestinationAddress.
  rewrite !slice_insert_out by lia. done.
Qed.

Lemma flowOf_insert_tcp ipHdr tcpHdr i v :
  (4 <= i)%nat ->
  flowOf ipHdr (<[i := v]> tcpHdr) = flowOf ipHdr tcpHdr.
Proof.
  intros Hi. unfold flowOf, header.TCP.SourcePort, header.TCP.DestinationPort,
    Uint16.
  rewrite !at__insert_ne by lia. done.
Qed.

(** What the merge does to a bucket: one slot gets new header bytes and a
    longer packet; its links and its flow stay. *)
Lemma mergeInto_spec gb g pkt dataOff flags tcpPayloadSize gb' :
  mergeInto gb g pkt dataOff flags tcpPayloadSize = Done gb' ->
  exists x x',
    gb_packetsPrealloc gb !! g = Some x /\
    gb' = mkBucket (gb_count gb) (gb_packets gb)
            (<[g := x']> (gb_packetsPrealloc gb)) (gb_allocIdxs gb) /\
    pk_entry x' = pk_entry x /\ flow x' = flow x.
Proof.
  unfold mergeInto. intros H.
  apply bind_Done in H as (x & Hx & H). apply deref_Done in Hx.
  destruct (pk_pkt x) as [staged|]; [|discriminate].
  apply bind_Done in H as (groFlags & Hgf & H).
  apply bind_Done in H as (tcpHdr' & Htcp & H).
  apply bind_Done in H as (tl & Htl & H).
  apply bind_Done in H as (ipHdr' & Hip & H).
  injection H as <-. eexists x, _. split; [done|]. split; [reflexivity|].
  split; [reflexivity|].
  unfold flow. simpl.
  unfold header.TCP.SetFlags in Htcp.
  destruct (length (pk_tcpHdr x) <? 14)%nat; [discriminate|].
  injection Htcp as <-.
  unfold header.IPv4.SetTotalLength, PutUint16 in Hip.
  destruct (_ <? _)%nat; [discriminate|]. injection Hip as <-.
  rewrite flowOf_insert_tcp by lia.
  rewrite !flowOf_insert_ip by (simpl; lia). done.
Qed.

(** ** Buckets that only lose entries *)

Lemma shrinks_refl gb : shrinks gb gb.
Proof. split; [done|apply evolves_refl]. Qed.

Lemma oneEntryPerFlow_shrinks gb gb' :
  oneEntryPerFlow gb -> shrinks gb gb' -> oneEntryPerFlow gb'.
Proof.
  intros Hinv [Hst Hev] i j x' y' t Hi Hj Hne Hx' Hy' Hfx Hfy.
  destruct (Hev i x' Hx') as (x & Hx & _ & Hx2).
  destruct (Hev j y' Hy') as (y & Hy & _ & Hy2).
  destruct Hx2 as [Hx2|Hx2]; [|congruence].
  destruct Hy2 as [Hy2|Hy2]; [|congruence].
  eapply (Hinv i j x y t); eauto; congruence.
Qed.

Lemma noFlow_shrinks t gb gb' : noFlow t gb -> shrinks gb gb' -> noFlow t gb'.
Proof.
  intros Hno [Hst Hev] i x' Hi Hx' Hf.
  destruct (Hev i x' Hx') as (x & Hx & _ & [Hx2|Hx2]); [|congruence].
  eapply (Hno i x); eauto. congruence.
Qed.

Lemma mergeInto_shrinks gb g pkt dataOff flags tcpPayloadSize gb' :
  mergeInto gb g pkt dataOff flags tcpPayloadSize = Done gb' ->
  shrinks gb gb' /\ (forall i, staged gb i -> staged gb' i) /\
  gb_count gb' = gb_count gb.
Proof.
  intros H. apply mergeInto_spec in H as (x & x' & Hx & -> & He & Hf).
  assert (E1 : evolves (fun _ => False) (gb_packetsPrealloc gb)
                 (<[g := x']> (gb_packetsPrealloc gb))).
  { eapply evolves_update; [exact Hx | left; congruence | by left]. }
  assert (E2 : evolves (fun _ => False) (<[g := x']> (gb_packetsPrealloc gb))
                 (gb_packetsPrealloc gb)).
  { intros k y Hy. destruct (decide (k = g)) as [->|Hne].
    - exists x'. rewrite list_lookup_insert_eq by (by eapply lookup_lt_Some).
      split; [done|]. assert (y = x) as -> by congruence.
      split; left; congruence.
    - exists y. rewrite list_lookup_insert_ne by done. auto. }
  split; [split|split; [|done]].
  - intros i Hi. unfold staged in Hi. simpl in Hi.
    eapply (linked_evolves _ (staged gb)); [exact E1| | |exact Hi|].
    + intros c z k Hc Hz Hk. eapply linked_step; eauto.
    + intros k [].
    + intros c Hc. by apply staged_head.
  - simpl. eapply evolves_weaken; [|exact E1]. done.
  - intros i Hi. unfold staged in Hi.
    eapply (linked_evolves _
              (staged (mkBucket (gb_count gb) (gb_packets gb)
                         (<[g := x']> (gb_packetsPrealloc gb))
                         (gb_allocIdxs gb))));
      [exact E2| | |exact Hi|].
    + intros c z k Hc Hz Hk. eapply linked_step; eauto.
    + intros k [].
    + intros c Hc. by apply staged_head.
Qed.

(** ** What [findGROPacket] knows about flows *)

Lemma flowOf_Done ipHdr tcpHdr a b c d :
  flowOf ipHdr tcpHdr = Done (a, b, c, d) <->
  header.IPv4.SourceAddress ipHdr = Done a /\
  header.IPv4.DestinationAddress ipHdr = Done b /\
  header.TCP.SourcePort tcpHdr = Done c /\
  header.TCP.DestinationPort tcpHdr = Done d.
Proof.
  unfold flowOf. split.
  - intros H. apply bind_Done in H as (a' & Ea & H).
    apply bind_Done in H as (b' & Eb & H).
    apply bind_Done in H as (c' & Ec & H).
    apply bind_Done in H as (d' & Ed & H).
    injection H as <- <- <- <-. done.
  - intros (-> & -> & -> & ->). done.
Qed.

Lemma differ_Done {A} (fa fb : Res A) (test : A -> A -> bool) r :
  (a ← fa; b ← fb; Done (test a b)) = Done r ->
  exists a b, fa = Done a /\ fb = Done b /\ r = test a b.
Proof.
  intros H. apply bind_Done in H as (a & Ha & H).
  apply bind_Done in H as (b & Hb & H). injection H as <-. eauto.
Qed.

Lemma findGROPacket_body_flow ipHdr tcpHdr x r t :
  findGROPacket_body ipHdr tcpHdr x = Done r ->
  flowOf ipHdr tcpHdr = Done t ->
  match r with
  | None => flow x <> Done t
  | Some _ => flow x = Done t
  end.
Proof.
  destruct t as [[[a b] c] d]. intros H Ht.
  apply flowOf_Done in Ht as (Ha & Hb & Hc & Hd).
  unfold findGROPacket_body in H.
  apply bind_Done in H as (addrs & Haddrs & H).
  assert (Hsrc : addrs = true /\ flow x <> Done (a, b, c, d) \/
                 addrs = false /\
                 header.IPv4.SourceAddress (pk_ipHdr x) = Done a /\
                 header.IPv4.DestinationAddress (pk_ipHdr x) = Done b).
  { apply orElse_Done in Haddrs as [[H1 ->]|[H1 H2]].
    - left. split; [done|].
      apply differ_Done in H1 as (a1 & a2 & E1 & E2 & E3).
      symmetry in E3. apply bool_decide_eq_true in E3.
      intros Hf. apply flowOf_Done in Hf as (Hf & _). congruence.
    - apply differ_Done in H1 as (a1 & a2 & E1 & E2 & E3).
      symmetry in E3. apply bool_decide_eq_false, dec_stable in E3.
      apply differ_Done in H2 as (b1 & b2 & F1 & F2 & F3).
      destruct addrs; symmetry in F3.
      + left. split; [done|]. apply bool_decide_eq_true in F3.
        intros Hf. apply flowOf_Done in Hf as (_ & Hf & _). congruence.
      + right. apply bool_decide_eq_false, dec_stable in F3.
        split; [done|]. split; congruence. }
  destruct Hsrc as [[-> Hno]|(-> & Hsa & Hda)]; [by injection H as <-|].
  apply bind_Done in H as (ports & Hports & H).
  assert (Hprt : ports = true /\ flow x <> Done (a, b, c, d) \/
                 ports = false /\
                 header.TCP.SourcePort (pk_tcpHdr x) = Done c /\
                 header.TCP.DestinationPort (pk_tcpHdr x) = Done d).
  { apply orElse_Done in Hports as [[H1 ->]|[H1 H2]].
    - left. split; [done|].
      apply differ_Done in H1 as (a1 & a2 & E1 & E2 & E3).
      symmetry in E3. apply neqb_true in E3.
      intros Hf. apply flowOf_Done in Hf as (_ & _ & Hf & _). congruence.
    - apply differ_Done in H1 as (a1 & a2 & E1 & E2 & E3).
      symmetry in E3. apply neqb_false in E3.
      apply differ_Done in H2 as (b1 & b2 & F1 & F2 & F3).
      destruct ports; symmetry in F3.
      + left. split; [done|]. apply neqb_true in F3.
        intros Hf. apply flowOf_Done in Hf as (_ & _ & _ & Hf). congruence.
      + right. apply neqb_false in F3. split; [done|]. split; congruence. }
  destruct Hprt as [[-> Hno]|(-> & Hsp & Hdp)]; [by injection H as <-|].
  assert (Hflow : flow x = Done (a, b, c, d)) by (by apply flowOf_Done).
  repeat run_step H; subst r; exact Hflow.
Qed.

Lemma findGROPacket_none_noFlow fuel gb ipHdr tcpHdr f t :
  findGROPacket fuel gb ipHdr tcpHdr = Done (None, f) ->
  flowOf ipHdr tcpHdr = Done t -> noFlow t gb.
Proof.
  intros H Ht i x Hi Hx. apply findGROPacket_from_none in H as [_ H].
  destruct (H i Hi) as (y & Hy & Hb).
  assert (y = x) as -> by congruence.
  exact (findGROPacket_body_flow _ _ _ _ _ Hb Ht).
Qed.

Lemma findGROPacket_some_flow fuel gb ipHdr tcpHdr g f t :
  findGROPacket fuel gb ipHdr tcpHdr = Done (Some g, f) ->
  flowOf ipHdr tcpHdr = Done t ->
  staged gb g /\
  exists x, gb_packetsPrealloc gb !! g = Some x /\ flow x = Done t.
Proof.
  intros H Ht. apply findGROPacket_from_found in H as (Hl & x & Hx & Hb).
  split; [exact Hl|]. exists x. split; [done|].
  exact (findGROPacket_body_flow _ _ _ _ _ Hb Ht).
Qed.

(** ** One entry per flow, operation by operation *)

Lemma insert_oneEntryPerFlow gb pkt ipHdr tcpHdr ep now gb' t :
  insert gb pkt ipHdr tcpHdr ep now = Done gb' ->
  flowOf ipHdr tcpHdr = Done t ->
  oneEntryPerFlow gb -> noFlow t gb -> oneEntryPerFlow gb'.
Proof.
  intros H Ht Hinv Hno.
  apply insert_spec in H as (s & _ & Hst & [l Hs] & Hothers & _).
  assert (Hold : forall k y t0, k <> s -> staged gb' k ->
            gb_packetsPrealloc gb' !! k = Some y -> flow y = Done t0 ->
            staged gb k /\
            exists x, gb_packetsPrealloc gb !! k = Some x /\ flow x = Done t0).
  { intros k y t0 Hk Hkst Hy Hf.
    destruct (Hst k Hkst) as [?|Hk']; [done|]. split; [done|].
    destruct (Hothers k y Hk Hy) as (x & l0 & Hx & ->). eauto. }
  intros i j x y t0 Hi Hj Hne Hx Hy Hfx Hfy.
  destruct (decide (i = s)) as [->|His];
    [|destruct (decide (j = s)) as [->|Hjs]].
  - rewrite Hs in Hx. injection Hx as <-.
    assert (t0 = t) as -> by (unfold flow in Hfx; simpl in Hfx; congruence).
    destruct (Hold j y t (not_eq_sym Hne) Hj Hy Hfy) as (Hj' & y0 & Hy0 & Hf0).
    by eapply Hno.
  - rewrite Hs in Hy. injection Hy as <-.
    assert (t0 = t) as -> by (unfold flow in Hfy; simpl in Hfy; congruence).
    destruct (Hold i x t Hne Hi Hx Hfx) as (Hi' & x0 & Hx0 & Hf0).
    by eapply Hno.
  - destruct (Hold i x t0 His Hi Hx Hfx) as (Hi' & x0 & Hx0 & Hfx0).
    destruct (Hold j y t0 Hjs Hj Hy Hfy) as (Hj' & y0 & Hy0 & Hfy0).
    by eapply (Hinv i j x0 y0 t0).
Qed.

Lemma flushOrMerge_oneEntryPerFlow gb groPkt flushGROPkt pkt dataOff flags
    tcpPayloadSize ep gb1 groPkt1 out t :
  flushOrMerge gb groPkt flushGROPkt pkt dataOff flags tcpPayloadSize ep
  = Done (gb1, groPkt1, out) ->
  oneEntryPerFlow gb ->
  (groPkt = None -> noFlow t gb) ->
  (forall g, groPkt = Some g ->
     staged gb g /\
     exists x, gb_packetsPrealloc gb !! g = Some x /\ flow x = Done t) ->
  shrinks gb gb1 /\
  (groPkt1 = None -> noFlow t gb1) /\
  (forall g, groPkt1 = Some g -> staged gb1 g).
Proof.
  unfold flushOrMerge. intros H Hinv Hnone Hsome.
  destruct flushGROPkt; destruct groPkt as [g|]; try discriminate.
  - destruct (Hsome g eq_refl) as (Hg & xg & Hxg & Hfg).
    apply bind_Done in H as (x & Hx & H).
    apply bind_Done in H as (out1 & Ho & H).
    apply bind_Done in H as (gb2 & Hr & H). injection H as <- <- <-.
    apply removeOne_spec in Hr as ([Hst Hev] & _ & Hz); [|done].
    split; [by split|]. split; [|discriminate].
    intros _ i x' Hi Hx' Hf.
    destruct (decide (i = g)) as [->|Hne];
      [rewrite Hz in Hx'; by injection Hx' as <-|].
    destruct (Hev i x' Hx') as (x0 & Hx0 & _ & [Hf0|Hf0]); [|congruence].
    eapply (Hinv g i xg x0 t); eauto. congruence.
  - apply bind_Done in H as (gb2 & Hm & H). injection H as <- <- <-.
    apply mergeInto_shrinks in Hm as (Hs & Hconv & _).
    split; [done|]. split; [discriminate|].
    intros g' [= <-]. apply Hconv. by destruct (Hsome g eq_refl).
  - injection H as <- <- <-. split; [apply shrinks_refl|].
    split; [auto|discriminate].
Qed.

Lemma applyFlush_oneEntryPerFlow flush gb groPkt out pkt ipHdr tcpHdr ep now
    gb' out' t :
  applyFlush flush gb groPkt out pkt ipHdr tcpHdr ep now = Done (gb', out') ->
  flowOf ipHdr tcpHdr = Done t ->
  oneEntryPerFlow gb ->
  (groPkt = None -> noFlow t gb) ->
  (forall g, groPkt = Some g -> staged gb g) ->
  oneEntryPerFlow gb'.
Proof.
  unfold applyFlush. intros H Ht Hinv Hnone Hsome.
  destruct flush; destruct groPkt as [g|].
  - apply bind_Done in H as (x & Hx & H).
    apply bind_Done in H as (out1 & Ho & H).
    apply bind_Done in H as (gb2 & Hr & H). injection H as <- <-.
    apply removeOne_spec in Hr as (Hs & _); [|by apply Hsome].
    by eapply oneEntryPerFlow_shrinks.
  - apply bind_Done in H as (out1 & Ho & H). by injection H as <- <-.
  - by injection H as <- <-.
  - apply bind_Done in H as ([gb2 out2] & Hf & H).
    apply bind_Done in H as (gb3 & Hi & H). injection H as <- <-.
    assert (Hs : shrinks gb gb2).
    { destruct (full gb).
      - apply bind_Done in Hf as ([gb4 oldest] & Hro & Hf).
        apply bind_Done in Hf as (out4 & Ho & Hf). injection Hf as <- <-.
        by apply removeOldest_spec in Hro as (? & ? & _ & _ & _ & Hs & _).
      - injection Hf as <- <-. apply shrinks_refl. }
    eapply insert_oneEntryPerFlow; [exact Hi | exact Ht | |].
    + by eapply oneEntryPerFlow_shrinks.
    + eapply noFlow_shrinks; [by apply Hnone | done].
Qed.

Lemma dispatchBucket_oneEntryPerFlow fuel gb pkt ipHdr tcpHdr dataOff
    tcpPayloadSize ep mtu now gb' out t :
  oneEntryPerFlow gb ->
  flowOf ipHdr tcpHdr = Done t ->
  dispatchBucket fuel gb pkt ipHdr tcpHdr dataOff tcpPayloadSize ep mtu now
  = Done (gb', out) ->
  oneEntryPerFlow gb'.
Proof.
  unfold dispatchBucket. intros Hinv Ht H.
  apply bind_Done in H as ([groPkt fl] & Hfind & H).
  apply bind_Done in H as (flags & Hflags & H).
  apply bind_Done in H as ([[gb1 groPkt1] out1] & Hfm & H).
  apply bind_Done in H as (tl & Htl & H).
  eapply flushOrMerge_oneEntryPerFlow in Hfm as (Hs & Hnone & Hsome);
    [|exact Hinv| |].
  - eapply applyFlush_oneEntryPerFlow; [exact H | exact Ht | | exact Hnone
                                        | exact Hsome].
    by eapply oneEntryPerFlow_shrinks.
  - intros ->. by eapply findGROPacket_none_noFlow.
  - intros g ->. by eapply findGROPacket_some_flow.
Qed.

(** ** One removal per bucket and pass

    The two loops of the timer advance with [groPkt.Next()] after
    [removeOne] has reset [groPkt]: whatever the bucket holds, they end
    after their first removal. *)

Lemma Next_zero mem g :
  mem !! g = Some groPacket_zero -> Next mem g = Done None.
Proof. unfold Next, deref. by intros ->. Qed.

Lemma removeOne_zero gb e gb' :
  removeOne gb e = Done gb' ->
  gb_packetsPrealloc gb' !! e = Some groPacket_zero.
Proof.
  unfold removeOne. intros H.
  apply bind_Done in H as ([l mem] & _ & H).
  apply bind_Done in H as (y & Hy & H). apply deref_Done in Hy.
  apply bind_Done in H as (idxs & _ & H). injection H as <-. simpl.
  apply list_lookup_insert_eq. by eapply lookup_lt_Some.
Qed.

Lemma flushBucket_once fuel gb oldTime g out gb' out' :
  flushBucket fuel gb oldTime (Some g) out = Done (gb', out') ->
  exists x,
    gb_packetsPrealloc gb !! g = Some x /\
    ((pk_created x < oldTime /\
      HandlePacket (pk_ep x) (pk_pkt x) out = Done out' /\
      removeOne gb g = Done gb') \/
     (oldTime <= pk_created x /\ out' = out /\ gb' = gb)).
Proof.
  destruct fuel as [|fuel]; [discriminate|]. simpl. intros H.
  apply bind_Done in H as (x & Hx & H). apply deref_Done in Hx.
  exists x. split; [done|].
  destruct (pk_created x <? oldTime) eqn:E.
  - apply Z.ltb_lt in E. left. split; [done|].
    apply bind_Done in H as (out1 & Ho & H).
    apply bind_Done in H as (gb1 & Hr & H).
    apply bind_Done in H as (cur & Hn & H).
    rewrite (Next_zero _ _ (removeOne_zero _ _ _ Hr)) in Hn.
    injection Hn as <-. destruct fuel; simpl in H; by injection H as <- <-.
  - apply Z.ltb_ge in E. right. by injection H as <- <-.
Qed.

Lemma flushAllBucket_once fuel gb g out gb' out' :
  flushAllBucket fuel gb (Some g) out = Done (gb', out') ->
  exists x,
    gb_packetsPrealloc gb !! g = Some x /\
    HandlePacket (pk_ep x) (pk_pkt x) out = Done out' /\
    removeOne gb g = Done gb'.
Proof.
  destruct fuel as [|fuel]; [discriminate|]. simpl. intros H.
  apply bind_Done in H as (x & Hx & H). apply deref_Done in Hx.
  exists x. split; [done|].
  apply bind_Done in H as (out1 & Ho & H).
  apply bind_Done in H as (gb1 & Hr & H).
  apply bind_Done in H as (cur & Hn & H).
  rewrite (Next_zero _ _ (removeOne_zero _ _ _ Hr)) in Hn.
  injection Hn as <-. destruct fuel; simpl in H; by injection H as <- <-.
Qed.

(** ** From one bucket to the dispatcher *)

Lemma forBuckets_Forall (P : groBucket -> Prop) f buckets out buckets' out' :
  (forall gb o gb' o', P gb -> f gb o = Done (gb', o') -> P gb') ->
  Forall P buckets ->
  forBuckets f buckets out = Done (buckets', out') ->
  Forall P buckets'.
Proof.
  intros Hf. revert out buckets' out'.
  induction buckets as [|gb rest IH]; intros out buckets' out' HP H;
    simpl in H.
  - injection H as <- <-. constructor.
  - apply bind_Done in H as ([gb1 o1] & H1 & H).
    apply bind_Done in H as ([rest1 o2] & H2 & H). injection H as <- <-.
    inversion HP; subst. constructor; eauto.
Qed.

Lemma bucketForPacket_flow ipHdr tcpHdr sum :
  bucketForPacket ipHdr tcpHdr = Done sum ->
  exists t, flowOf ipHdr tcpHdr = Done t.
Proof.
  unfold bucketForPacket, flowOf. intros H.
  apply bind_Done in H as (a & -> & H). apply bind_Done in H as (b & -> & H).
  apply bind_Done in H as (c & -> & H). apply bind_Done in H as (d & -> & H).
  eauto.
Qed.

Lemma init_buckets (P : groBucket -> Prop) interval :
  P (init_bucket groBucket_zero) -> Forall P (gd_buckets (init interval)).
Proof.
  intros H. unfold init. cbn [gd_buckets].
  apply Forall_fmap, Forall_replicate. exact H.
Qed.

Section Reachable.

Variable chk : Checks.
Variable ok : Op -> Prop.
Variable okSeg : Segment -> Prop.
Variable P : groBucket -> Prop.

Hypothesis ok_segment :
  forall p netProto ep mtu now s,
    ok (OpDispatch (Some p) netProto ep mtu now) ->
    parseSegment chk p netProto = Done (Some s) -> okSeg s.
Hypothesis P_init : P (init_bucket groBucket_zero).
Hypothesis P_dispatch :
  forall fuel gb s ep mtu now gb' out t,
    P gb -> okSeg s -> flowOf (seg_ipHdr s) (seg_tcpHdr s) = Done t ->
    dispatchBucket fuel gb (seg_pkt s) (seg_ipHdr s) (seg_tcpHdr s)
      (seg_dataOff s) (seg_tcpPayloadSize s) ep mtu now = Done (gb', out) ->
    P gb'.
Hypothesis P_removeOne :
  forall gb g gb', P gb -> staged gb g -> removeOne gb g = Done gb' -> P gb'.

Lemma dispatch_buckets fuel gd pkt netProto ep mtu now gd' out :
  Forall P (gd_buckets gd) ->
  ok (OpDispatch pkt netProto ep mtu now) ->
  dispatch chk fuel gd pkt netProto ep mtu now = Done (gd', out) ->
  Forall P (gd_buckets gd').
Proof.
  intros HP Hok H. unfold dispatch in H.
  destruct (gd_intervalNS gd =? 0).
  { apply bind_Done in H as (o & _ & H). by injection H as <- <-. }
  unfold dispatchEnabled in H. destruct pkt as [p|].
  - apply bind_Done in H as (seg & Hseg & H). destruct seg as [s|].
    + apply bind_Done in H as (sum & Hsum & H).
      apply bind_Done in H as (gb & Hgb & H).
      apply bind_Done in H as ([gb' o] & Hd & H). injection H as <- <-.
      simpl. apply index_Done in Hgb as [_ Hgb].
      apply bucketForPacket_flow in Hsum as [t Ht].
      apply Forall_insert; [done|].
      eapply P_dispatch; [|by eapply ok_segment|exact Ht|exact Hd].
      eapply Forall_lookup_1; eauto.
    + apply bind_Done in H as (o & _ & H). by injection H as <- <-.
  - destruct (neqb netProto header.IPv4ProtocolNumber); [|discriminate].
    apply bind_Done in H as (o & _ & H). by injection H as <- <-.
Qed.

Lemma reachable_buckets gd :
  reachableWith chk ok gd -> Forall P (gd_buckets gd).
Proof.
  induction 1 as [interval|gd fuel op gd' out Hr IH Hok Hrun].
  - by apply init_buckets.
  - destruct op as [pkt netProto ep mtu now|now| |interval]; simpl in Hrun.
    + by eapply dispatch_buckets.
    + unfold flush in Hrun.
      apply bind_Done in Hrun as ([bs o] & Hf & Hrun).
      injection Hrun as <- <-. simpl.
      eapply forBuckets_Forall; [|exact IH|exact Hf].
      intros gb o1 gb1 o2 Hgb Hfl. cbn beta in Hfl.
      destruct (Front (gb_packets gb)) as [g|] eqn:Hg.
      * apply flushBucket_once in Hfl
          as (x & Hx & [(_ & _ & Hrm)|(_ & _ & ->)]); [|done].
        eapply P_removeOne; [exact Hgb|by apply staged_head|exact Hrm].
      * destruct fuel; simpl in Hfl; by injection Hfl as <- <-.
    + unfold flushAll in Hrun.
      apply bind_Done in Hrun as ([bs o] & Hf & Hrun).
      injection Hrun as <- <-. simpl.
      eapply forBuckets_Forall; [|exact IH|exact Hf].
      intros gb o1 gb1 o2 Hgb Hfl. cbn beta in Hfl.
      destruct (Front (gb_packets gb)) as [g|] eqn:Hg.
      * apply flushAllBucket_once in Hfl as (x & Hx & _ & Hrm).
        eapply P_removeOne; [exact Hgb|by apply staged_head|exact Hrm].
      * destruct fuel; simpl in Hfl; by injection Hfl as <- <-.
    + injection Hrun as <- <-. exact IH.
Qed.

End Reachable.

(** ** One staged entry per flow *)

Lemma init_bucket_empty g : ~ staged (init_bucket groBucket_zero) g.
Proof. intros H. inversion H. Qed.


(** ** The length of a bucket *)

Lemma removeOne_count gb e gb' :
  removeOne gb e = Done gb' -> gb_count gb' = gb_count gb - 1.
Proof.
  unfold removeOne. intros H.
  apply bind_Done in H as ([l mem] & _ & H).
  apply bind_Done in H as (y & _ & H).
  apply bind_Done in H as (idxs & _ & H). by injection H as <-.
Qed.

Lemma flushOrMerge_count gb groPkt flushGROPkt pkt dataOff flags
    tcpPayloadSize ep gb1 groPkt1 out :
  flushOrMerge gb groPkt flushGROPkt pkt dataOff flags tcpPayloadSize ep
  = Done (gb1, groPkt1, out) ->
  gb_count gb1 <= gb_count gb.
Proof.
  unfold flushOrMerge. intros H.
  destruct flushGROPkt; destruct groPkt as [g|]; try discriminate.
  - apply bind_Done in H as (x & Hx & H).
    apply bind_Done in H as (out1 & Ho & H).
    apply bind_Done in H as (gb2 & Hr & H). injection H as <- <- <-.
    apply removeOne_count in Hr. lia.
  - apply bind_Done in H as (gb2 & Hm & H). injection H as <- <- <-.
    apply mergeInto_spec in Hm as (x & x' & _ & -> & _). simpl. lia.
  - injection H as <- <- <-. lia.
Qed.

Lemma applyFlush_count flush gb groPkt out pkt ipHdr tcpHdr ep now gb' out' :
  applyFlush flush gb groPkt out pkt ipHdr tcpHdr ep now = Done (gb', out') ->
  gb_count gb <= groBucketSize -> gb_count gb' <= groBucketSize.
Proof.
  unfold applyFlush. intros H Hc.
  destruct flush; destruct groPkt as [g|].
  - apply bind_Done in H as (x & Hx & H).
    apply bind_Done in H as (out1 & Ho & H).
    apply bind_Done in H as (gb2 & Hr & H). injection H as <- <-.
    apply removeOne_count in Hr. lia.
  - apply bind_Done in H as (out1 & Ho & H). by injection H as <- <-.
  - by injection H as <- <-.
  - apply bind_Done in H as ([gb2 out2] & Hf & H).
    apply bind_Done in H as (gb3 & Hi & H). injection H as <- <-.
    apply insert_spec in Hi as (s & _ & _ & _ & _ & Hi & _).
    assert (gb_count gb2 < groBucketSize); [|lia].
    unfold full in Hf. destruct (gb_count gb =? groBucketSize) eqn:E.
    + apply bind_Done in Hf as ([gb4 oldest] & Hro & Hf).
      apply bind_Done in Hf as (out4 & Ho & Hf). injection Hf as <- <-.
      apply removeOldest_spec in Hro as (? & ? & _ & _ & _ & _ & Hro & _).
      lia.
    + injection Hf as <- <-. apply Z.eqb_neq in E. lia.
Qed.

Lemma dispatchBucket_count fuel gb pkt ipHdr tcpHdr dataOff tcpPayloadSize ep
    mtu now gb' out :
  gb_count gb <= groBucketSize ->
  dispatchBucket fuel gb pkt ipHdr tcpHdr dataOff tcpPayloadSize ep mtu now
  = Done (gb', out) ->
  gb_count gb' <= groBucketSize.
Proof.
  unfold dispatchBucket. intros Hc H.
  apply bind_Done in H as ([groPkt fl] & Hfind & H).
  apply bind_Done in H as (flags & Hflags & H).
  apply bind_Done in H as ([[gb1 groPkt1] out1] & Hfm & H).
  apply bind_Done in H as (tl & Htl & H).
  apply flushOrMerge_count in Hfm.
  eapply applyFlush_count; [exact H|lia].
Qed.

Lemma reachable_count chk gd gb :
  reachable chk gd -> gb ∈ gd_buckets gd -> gb_count gb <= groBucketSize.
Proof.
  intros Hr Hgb.
  assert (Hall : Forall (fun gb => gb_count gb <= groBucketSize)
                   (gd_buckets gd)).
  { eapply (reachable_buckets chk (fun _ => True) (fun _ => True));
      [done| | | |exact Hr].
    - done.
    - intros. by eapply dispatchBucket_count.
    - simpl. intros gb0 g gb1 H0 _ Hrm. apply removeOne_count in Hrm. lia. }
  rewrite Forall_forall in Hall. by apply Hall.
Qed.

(** ** Links and free indexes stay inside the bucket *)

Lemma ptrInBounds_None : ptrInBounds None.
Proof. intros q H. discriminate. Qed.

Lemma ptrInBounds_Some q :
  (q < Z.to_nat groBucketSize)%nat -> ptrInBounds (Some q).
Proof. intros H q' [= <-]. exact H. Qed.

Lemma SetNext_inBounds mem p v mem' :
  SetNext mem p v = Done mem' ->
  Forall slotInBounds mem -> ptrInBounds v -> Forall slotInBounds mem'.
Proof.
  unfold SetNext. intros H Hall Hv.
  apply bind_Done in H as (x & Hx & H). apply deref_Done in Hx.
  injection H as <-. apply Forall_insert; [done|].
  destruct (Forall_lookup_1 _ _ _ _ Hall Hx) as (_ & Hp & Hi).
  split; [exact Hv|]. split; [exact Hp|exact Hi].
Qed.

Lemma SetPrev_inBounds mem p v mem' :
  SetPrev mem p v = Done mem' ->
  Forall slotInBounds mem -> ptrInBounds v -> Forall slotInBounds mem'.
Proof.
  unfold SetPrev. intros H Hall Hv.
  apply bind_Done in H as (x & Hx & H). apply deref_Done in Hx.
  injection H as <-. apply Forall_insert; [done|].
  destruct (Forall_lookup_1 _ _ _ _ Hall Hx) as (Hn & _ & Hi).
  split; [exact Hn|]. split; [exact Hv|exact Hi].
Qed.

Lemma SetNext_returns mem p v :
  (p < length mem)%nat -> exists mem', SetNext mem p v = Done mem'.
Proof.
  intros H. apply lookup_lt_is_Some_2 in H as [x Hx].
  unfold SetNext. rewrite (proj2 (deref_Done _ _ _) Hx). simpl. eauto.
Qed.

Lemma SetPrev_returns mem p v :
  (p < length mem)%nat -> exists mem', SetPrev mem p v = Done mem'.
Proof.
  intros H. apply lookup_lt_is_Some_2 in H as [x Hx].
  unfold SetPrev. rewrite (proj2 (deref_Done _ _ _) Hx). simpl. eauto.
Qed.

Lemma Remove_length l mem e l' mem' :
  Remove l mem e = Done (l', mem') -> length mem' = length mem.
Proof.
  unfold Remove. intros H.
  apply bind_Done in H as (x & Hx & H).
  apply bind_Done in H as ([l1 mem1] & H1 & H).
  apply bind_Done in H as ([l2 mem2] & H2 & H).
  apply bind_Done in H as (mem3 & H3 & H).
  apply bind_Done in H as (mem4 & H4 & H). injection H as <- <-.
  apply SetNext_length in H3. apply SetPrev_length in H4.
  assert (length mem1 = length mem).
  { destruct (prev (pk_entry x)).
    - apply bind_Done in H1 as (m & Hm & H1). injection H1 as <- <-.
      by apply SetNext_length in Hm.
    - destruct (decide (l_head l = Some e)); by injection H1 as <- <-. }
  assert (length mem2 = length mem1).
  { destruct (next (pk_entry x)).
    - apply bind_Done in H2 as (m & Hm & H2). injection H2 as <- <-.
      by apply SetPrev_length in Hm.
    - destruct (decide (l_tail l1 = Some e)); by injection H2 as <- <-. }
  congruence.
Qed.

Lemma Remove_inBounds l mem e l' mem' :
  Remove l mem e = Done (l', mem') ->
  Forall slotInBounds mem ->
  ptrInBounds (l_head l) -> ptrInBounds (l_tail l) ->
  Forall slotInBounds mem' /\
  ptrInBounds (l_head l') /\ ptrInBounds (l_tail l').
Proof.
  unfold Remove. intros H Hall Hh Ht.
  apply bind_Done in H as (x & Hx & H). apply deref_Done in Hx.
  destruct (Forall_lookup_1 _ _ _ _ Hall Hx) as (Hn & Hp & _).
  apply bind_Done in H as ([l1 mem1] & H1 & H).
  apply bind_Done in H as ([l2 mem2] & H2 & H).
  apply bind_Done in H as (mem3 & H3 & H).
  apply bind_Done in H as (mem4 & H4 & H). injection H as <- <-.
  assert (I1 : Forall slotInBounds mem1 /\
               ptrInBounds (l_head l1) /\ ptrInBounds (l_tail l1)).
  { destruct (prev (pk_entry x)).
    - apply bind_Done in H1 as (m & Hm & H1). injection H1 as <- <-.
      split; [by eapply SetNext_inBounds|done].
    - destruct (decide (l_head l = Some e)); by injection H1 as <- <-. }
  destruct I1 as (Hall1 & Hh1 & Ht1).
  assert (I2 : Forall slotInBounds mem2 /\
               ptrInBounds (l_head l2) /\ ptrInBounds (l_tail l2)).
  { destruct (next (pk_entry x)).
    - apply bind_Done in H2 as (m & Hm & H2). injection H2 as <- <-.
      split; [by eapply SetPrev_inBounds|done].
    - destruct (decide (l_tail l1 = Some e)); by injection H2 as <- <-. }
  destruct I2 as (Hall2 & Hh2 & Ht2).
  split; [|done].
  eapply SetPrev_inBounds; [exact H4| |apply ptrInBounds_None].
  eapply SetNext_inBounds; [exact H3|exact Hall2|apply ptrInBounds_None].
Qed.

Lemma Remove_returns l mem e :
  Forall slotInBounds mem -> length mem = Z.to_nat groBucketSize ->
  (e < length mem)%nat ->
  exists l' mem', Remove l mem e = Done (l', mem').
Proof.
  intros Hall Hlen He. unfold Remove.
  destruct (lookup_lt_is_Some_2 mem e He) as [x Hx].
  rewrite (proj2 (deref_Done _ _ _) Hx). cbn [mbind Res_bind].
  destruct (Forall_lookup_1 _ _ _ _ Hall Hx) as (Hn & Hp & _).
  assert (E1 : exists l1 mem1,
             match prev (pk_entry x) with
             | Some p =>
                 mem0 ← SetNext mem p (next (pk_entry x)); Done (l, mem0)
             | None =>
                 if decide (l_head l = Some e)
                 then Done (mkList (next (pk_entry x)) (l_tail l), mem)
                 else Done (l, mem)
             end = Done (l1, mem1) /\ length mem1 = length mem).
  { destruct (prev (pk_entry x)) as [p|].
    - destruct (SetNext_returns mem p (next (pk_entry x))) as [m Hm].
      { rewrite Hlen. by apply Hp. }
      rewrite Hm. cbn [mbind Res_bind]. eexists _, _. split; [done|].
      by apply SetNext_length in Hm.
    - destruct (decide (l_head l = Some e)); eauto. }
  destruct E1 as (l1 & mem1 & -> & Hlen1). cbn [mbind Res_bind].
  assert (E2 : exists l2 mem2,
             match next (pk_entry x) with
             | Some n =>
                 mem0 ← SetPrev mem1 n (prev (pk_entry x)); Done (l1, mem0)
             | None =>
                 if decide (l_tail l1 = Some e)
                 then Done (mkList (l_head l1) (prev (pk_entry x)), mem1)
                 else Done (l1, mem1)
             end = Done (l2, mem2) /\ length mem2 = length mem).
  { destruct (next (pk_entry x)) as [n|].
    - destruct (SetPrev_returns mem1 n (prev (pk_entry x))) as [m Hm].
      { rewrite Hlen1, Hlen. by apply Hn. }
      rewrite Hm. cbn [mbind Res_bind]. eexists _, _. split; [done|].
      apply SetPrev_length in Hm. congruence.
    - destruct (decide (l_tail l1 = Some e)); eauto. }
  destruct E2 as (l2 & mem2 & -> & Hlen2). cbn [mbind Res_bind].
  destruct (SetNext_returns mem2 e None) as [mem3 H3]; [lia|].
  rewrite H3. cbn [mbind Res_bind].
  destruct (SetPrev_returns mem3 e None) as [mem4 H4].
  { apply SetNext_length in H3. lia. }
  rewrite H4. cbn [mbind Res_bind]. eauto.
Qed.

Lemma store_returns {A} (a : list A) i x :
  0 <= i < Z.of_nat (length a) -> exists a', store a i x = Done a'.
Proof.
  intros H. unfold store.
  destruct (Z.ltb_spec i 0); [lia|].
  destruct (Z.leb_spec (Z.of_nat (length a)) i); [lia|]. simpl. eauto.
Qed.

Lemma index_returns {A} (a : list A) i :
  0 <= i < Z.of_nat (length a) -> exists x, index a i = Done x.
Proof.
  intros H. unfold index. destruct (Z.ltb_spec i 0); [lia|].
  destruct (lookup_lt_is_Some_2 a (Z.to_nat i)) as [x ->]; [lia|]. eauto.
Qed.

Lemma slotInBounds_zero : slotInBounds groPacket_zero.
Proof.
  split; [apply ptrInBounds_None|]. split; [apply ptrInBounds_None|].
  simpl. unfold groBucketSize. lia.
Qed.

Lemma removeOne_inBounds gb e gb' :
  inBounds gb -> removeOne gb e = Done gb' -> inBounds gb'.
Proof.
  intros (Hlm & Hla & Hidx & Hall & Hh & Ht) H. unfold removeOne in H.
  apply bind_Done in H as ([l mem] & HR & H).
  apply bind_Done in H as (y & Hy & H). apply deref_Done in Hy.
  apply bind_Done in H as (idxs & Hst & H). injection H as <-.
  pose proof (Remove_length _ _ _ _ _ HR) as Hlen.
  apply Remove_inBounds in HR as (Hall' & Hh' & Ht'); [|done..].
  apply store_Done in Hst as ->.
  unfold inBounds. simpl. rewrite !length_insert.
  split; [congruence|]. split; [done|].
  split; [apply Forall_insert; [done|]|].
  { by destruct (Forall_lookup_1 _ _ _ _ Hall' Hy) as (_ & _ & ?). }
  split; [|done]. apply Forall_insert; [done|apply slotInBounds_zero].
Qed.

Lemma removeOne_returns gb e :
  inBounds gb -> (e < Z.to_nat groBucketSize)%nat ->
  1 <= gb_count gb <= groBucketSize ->
  exists gb', removeOne gb e = Done gb'.
Proof.
  intros (Hlm & Hla & Hidx & Hall & Hh & Ht) He Hc. unfold removeOne.
  destruct (Remove_returns (gb_packets gb) (gb_packetsPrealloc gb) e)
    as (l & mem & HR); [done|done|lia|].
  rewrite HR. cbn [mbind Res_bind].
  apply Remove_length in HR.
  destruct (lookup_lt_is_Some_2 mem e) as [y Hy]; [lia|].
  rewrite (proj2 (deref_Done _ _ _) Hy). cbn [mbind Res_bind].
  destruct (store_returns (gb_allocIdxs gb) (gb_count gb - 1) (pk_idx y))
    as [idxs ->].
  { rewrite Hla. unfold groBucketSize in *. lia. }
  cbn [mbind Res_bind]. eauto.
Qed.

Lemma removeOldest_removeOne gb gb' p :
  removeOldest gb = Done (gb', p) ->
  exists front, Front (gb_packets gb) = Some front /\
                removeOne gb front = Done gb'.
Proof.
  unfold removeOldest. intros H.
  destruct (Front (gb_packets gb)) as [e|] eqn:Hf; [|discriminate].
  apply bind_Done in H as ([l mem] & HR & H).
  apply bind_Done in H as (y & Hy & H).
  apply bind_Done in H as (idxs & Hidx & H). injection H as <- <-.
  exists e. split; [done|]. unfold removeOne. rewrite HR. simpl.
  rewrite Hy. simpl. rewrite Hidx. done.
Qed.

Lemma removeOldest_returns gb front :
  inBounds gb -> Front (gb_packets gb) = Some front ->
  1 <= gb_count gb <= groBucketSize ->
  exists gb' p, removeOldest gb = Done (gb', p).
Proof.
  intros Hin Hf Hc.
  destruct (removeOne_returns gb front Hin) as [gb' H]; [|done|].
  { destruct Hin as (_ & _ & _ & _ & Hh & _). by apply Hh. }
  unfold removeOne in H. unfold removeOldest. rewrite Hf.
  apply bind_Done in H as ([l mem] & HR & H).
  apply bind_Done in H as (y & Hy & H).
  apply bind_Done in H as (idxs & Hidx & H).
  rewrite HR. cbn [mbind Res_bind]. rewrite Hy. cbn [mbind Res_bind].
  rewrite Hidx. cbn [mbind Res_bind]. eauto.
Qed.

Lemma PushBack_inBounds l mem e l' mem' :
  PushBack l mem e = Done (l', mem') ->
  Forall slotInBounds mem -> length mem = Z.to_nat groBucketSize ->
  ptrInBounds (l_head l) -> ptrInBounds (l_tail l) ->
  Forall slotInBounds mem' /\
  ptrInBounds (l_head l') /\ ptrInBounds (l_tail l').
Proof.
  unfold PushBack. intros H Hall Hlen Hh Ht.
  apply bind_Done in H as (mem1 & H1 & H).
  apply bind_Done in H as (mem2 & H2 & H).
  assert (He : ptrInBounds (Some e)).
  { apply ptrInBounds_Some. rewrite <- Hlen.
    unfold SetNext in H1. apply bind_Done in H1 as (x & Hx & _).
    apply deref_Done in Hx. by eapply lookup_lt_Some. }
  assert (Hall2 : Forall slotInBounds mem2).
  { eapply SetPrev_inBounds; [exact H2| |exact Ht].
    eapply SetNext_inBounds; [exact H1|exact Hall|apply ptrInBounds_None]. }
  destruct (l_tail l) as [t|].
  - apply bind_Done in H as (mem3 & H3 & H). injection H as <- <-.
    split; [by eapply SetNext_inBounds|done].
  - by injection H as <- <-.
Qed.

Lemma PushBack_returns l mem e :
  (e < length mem)%nat ->
  (forall t, l_tail l = Some t -> (t < length mem)%nat) ->
  exists l' mem', PushBack l mem e = Done (l', mem').
Proof.
  intros He Ht. unfold PushBack.
  destruct (SetNext_returns mem e None He) as [mem1 H1].
  rewrite H1. cbn [mbind Res_bind]. apply SetNext_length in H1.
  destruct (SetPrev_returns mem1 e (l_tail l)) as [mem2 H2]; [lia|].
  rewrite H2. cbn [mbind Res_bind]. apply SetPrev_length in H2.
  destruct (l_tail l) as [t|]; [|eauto].
  destruct (SetNext_returns mem2 t (Some e)) as [mem3 ->].
  { specialize (Ht t eq_refl). lia. }
  cbn [mbind Res_bind]. eauto.
Qed.

Lemma insert_inBounds gb pkt ipHdr tcpHdr ep now gb' :
  inBounds gb -> insert gb pkt ipHdr tcpHdr ep now = Done gb' -> inBounds gb'.
Proof.
  intros (Hlm & Hla & Hidx & Hall & Hh & Ht) H. unfold insert in H.
  apply bind_Done in H as (i & Hi & H).
  apply bind_Done in H as (old & Hold & H).
  apply bind_Done in H as ([l mem'] & HP & H). injection H as <-.
  pose proof (PushBack_length _ _ _ _ _ HP) as Hlen.
  rewrite length_insert in Hlen.
  apply PushBack_inBounds in HP as (Hall' & Hh' & Ht'); try done.
  - unfold inBounds. simpl. split; [congruence|done].
  - apply Forall_insert; [done|].
    split; [apply ptrInBounds_None|]. split; [apply ptrInBounds_None|].
    simpl. unfold groBucketSize. lia.
  - by rewrite length_insert.
Qed.

Lemma insert_returns gb pkt ipHdr tcpHdr ep now :
  inBounds gb -> 0 <= gb_count gb < groBucketSize ->
  exists gb', insert gb pkt ipHdr tcpHdr ep now = Done gb'.
Proof.
  intros (Hlm & Hla & Hidx & Hall & Hh & Ht) Hc. unfold insert.
  destruct (index_returns (gb_allocIdxs gb) (gb_count gb)) as [i Hi].
  { rewrite Hla. unfold groBucketSize in *. lia. }
  rewrite Hi. cbn [mbind Res_bind].
  apply index_Done in Hi as [_ Hi].
  pose proof (Forall_lookup_1 _ _ _ _ Hidx Hi) as Hr. cbn beta in Hr.
  destruct (index_returns (gb_packetsPrealloc gb) i) as [old ->].
  { rewrite Hlm. unfold groBucketSize in *. lia. }
  cbn [mbind Res_bind].
  match goal with
  | |- context [PushBack ?l ?m ?e] =>
      destruct (PushBack_returns l m e) as (l' & mem' & ->)
  end.
  - rewrite length_insert, Hlm. unfold groBucketSize in *. lia.
  - intros t Ht'. rewrite length_insert, Hlm. by apply Ht.
  - cbn [mbind Res_bind]. eauto.
Qed.

Lemma mergeInto_inBounds gb g pkt dataOff flags tcpPayloadSize gb' :
  inBounds gb ->
  mergeInto gb g pkt dataOff flags tcpPayloadSize = Done gb' -> inBounds gb'.
Proof.
  intros (Hlm & Hla & Hidx & Hall & Hh & Ht) H. unfold mergeInto in H.
  apply bind_Done in H as (x & Hx & H). apply deref_Done in Hx.
  destruct (pk_pkt x) as [staged|]; [|discriminate].
  apply bind_Done in H as (groFlags & Hgf & H).
  apply bind_Done in H as (tcpHdr' & Htcp & H).
  apply bind_Done in H as (tl & Htl & H).
  apply bind_Done in H as (ipHdr' & Hip & H). injection H as <-.
  unfold inBounds. simpl. rewrite length_insert.
  repeat (split; [done|]). split; [|done].
  apply Forall_insert; [done|].
  exact (Forall_lookup_1 _ _ _ _ Hall Hx).
Qed.

Lemma dispatchBucket_inBounds fuel gb pkt ipHdr tcpHdr dataOff tcpPayloadSize
    ep mtu now gb' out :
  inBounds gb ->
  dispatchBucket fuel gb pkt ipHdr tcpHdr dataOff tcpPayloadSize ep mtu now
  = Done (gb', out) ->
  inBounds gb'.
Proof.
  unfold dispatchBucket. intros Hin H.
  apply bind_Done in H as ([groPkt fl] & Hfind & H).
  apply bind_Done in H as (flags & Hflags & H).
  apply bind_Done in H as ([[gb1 groPkt1] out1] & Hfm & H).
  apply bind_Done in H as (tl & Htl & H).
  assert (Hin1 : inBounds gb1).
  { unfold flushOrMerge in Hfm.
    destruct fl; destruct groPkt as [g|]; try discriminate.
    - apply bind_Done in Hfm as (x & Hx & Hfm).
      apply bind_Done in Hfm as (o & Ho & Hfm).
      apply bind_Done in Hfm as (gb2 & Hr & Hfm). injection Hfm as <- <- <-.
      by eapply removeOne_inBounds.
    - apply bind_Done in Hfm as (gb2 & Hm & Hfm). injection Hfm as <- <- <-.
      by eapply mergeInto_inBounds.
    - by injection Hfm as <- <- <-. }
  unfold applyFlush in H.
  destruct (flushDecision tl flags mtu); destruct groPkt1 as [g|].
  - apply bind_Done in H as (x & Hx & H).
    apply bind_Done in H as (o & Ho & H).
    apply bind_Done in H as (gb2 & Hr & H). injection H as <- <-.
    by eapply removeOne_inBounds.
  - apply bind_Done in H as (o & Ho & H). by injection H as <- <-.
  - by injection H as <- <-.
  - apply bind_Done in H as ([gb2 out2] & Hf & H).
    apply bind_Done in H as (gb3 & Hi & H). injection H as <- <-.
    eapply insert_inBounds; [|exact Hi].
    destruct (full gb1).
    + apply bind_Done in Hf as ([gb4 oldest] & Hro & Hf).
      apply bind_Done in Hf as (o & Ho & Hf). injection Hf as <- <-.
      apply removeOldest_removeOne in Hro as (front & _ & Hro).
      by eapply removeOne_inBounds.
    + by injection Hf as <- <-.
Qed.

Lemma inBounds_init : inBounds (init_bucket groBucket_zero).
Proof.
  unfold inBounds. simpl.
  split; [reflexivity|]. split; [reflexivity|].
  split; [repeat (constructor; [unfold groBucketSize; lia|]); constructor|].
  split; [|split; apply ptrInBounds_None].
  repeat (constructor;
          [split; [apply ptrInBounds_None|];
           split; [apply ptrInBounds_None|simpl; unfold groBucketSize; lia]|]).
  constructor.
Qed.

Lemma reachable_inBounds chk gd gb :
  reachable chk gd -> gb ∈ gd_buckets gd -> inBounds gb.
Proof.
  intros Hr Hgb.
  assert (Hall : Forall inBounds (gd_buckets gd)).
  { eapply (reachable_buckets chk (fun _ => True) (fun _ => True));
      [done| | | |exact Hr].
    - apply inBounds_init.
    - intros. by eapply dispatchBucket_inBounds.
    - intros gb0 g gb1 H0 _ Hrm. by eapply removeOne_inBounds. }
  rewrite Forall_forall in Hall. by apply Hall.
Qed.

(** Eviction when the lookup returns. In every state reached from [init],
    no bucket counts more than [groBucketSize] entries. When [dispatch]
    stages a segment that matched
    no entry and needs no flush into a bucket that is full and whose list
    has a front, [removeOldest] returns the packet of that front and resets
    its slot, the packet is handed to the endpoint of the call, and then
    [insert] appends the segment, with one more reference, at the tail. The
    call returns with that one delivery, and the bucket is full again. *)
Theorem evict_oldest_when_full chk gd :
  reachable chk gd ->
  (forall gb, gb ∈ gd_buckets gd -> gb_count gb <= groBucketSize) /\
  (forall fuel gb pkt ipHdr tcpHdr dataOff tcpPayloadSize e mtu now tl flags
          front,
     gb ∈ gd_buckets gd ->
     full gb = true ->
     Front (gb_packets gb) = Some front ->
     findGROPacket fuel gb ipHdr tcpHdr = Done (None, false) ->
     header.IPv4.TotalLength ipHdr = Done tl ->
     header.TCP.Flags tcpHdr = Done flags ->
     flushDecision tl flags mtu = false ->
     exists x gb1 gb' s l,
       gb_packetsPrealloc gb !! front = Some x /\
       removeOldest gb = Done (gb1, pk_pkt x) /\
       gb_packetsPrealloc gb1 !! front = Some groPacket_zero /\
       gb_count gb1 = groBucketSize - 1 /\
       insert gb1 (Some (IncRef pkt)) ipHdr tcpHdr (Some e) now = Done gb' /\
       dispatchBucket fuel gb pkt ipHdr tcpHdr dataOff tcpPayloadSize (Some e)
         mtu now = Done (gb', [(e, pk_pkt x)]) /\
       l_tail (gb_packets gb') = Some s /\
       gb_packetsPrealloc gb' !! s
       = Some (mkGroPacket l (Some (IncRef pkt)) ipHdr tcpHdr now (Some e) 0) /\
       gb_count gb' = groBucketSize).
Proof.
  intros Hr. split; [intros gb; by apply (reachable_count chk gd)|].
  intros fuel gb pkt ipHdr tcpHdr dataOff tcpPayloadSize e mtu now tl flags
    front Hgb Hfull Hfront Hfind Htl Hflags Hflush.
  pose proof (reachable_inBounds chk gd gb Hr Hgb) as Hin.
  pose proof Hfull as Hc. unfold full in Hc. apply Z.eqb_eq in Hc.
  destruct (removeOldest_returns gb front Hin Hfront) as (gb1 & p & Hro).
  { unfold groBucketSize in *. lia. }
  pose proof Hro as Hro'.
  apply removeOldest_spec in Hro'
    as (front' & x & Hfront' & Hx & -> & _ & Hc1 & Hz).
  assert (front' = front) as -> by congruence.
  assert (Hin1 : inBounds gb1).
  { pose proof Hro as Hro'.
    apply removeOldest_removeOne in Hro' as (f & _ & Hrm).
    by eapply removeOne_inBounds. }
  destruct (insert_returns gb1 (Some (IncRef pkt)) ipHdr tcpHdr (Some e) now
              Hin1) as [gb' Hi].
  { unfold groBucketSize in *. lia. }
  pose proof Hi as Hi'.
  apply insert_spec in Hi' as (s & _ & _ & [l Hs] & _ & Hc' & Ht & _).
  exists x, gb1, gb', s, l.
  split; [done|]. split; [done|]. split; [done|]. split; [lia|].
  split; [done|]. split; [|split; [done|split; [done|lia]]].
  unfold dispatchBucket. rewrite Hfind, Hflags.
  cbn [mbind Res_bind flushOrMerge]. rewrite Htl.
  cbn [mbind Res_bind]. rewrite Hflush.
  unfold applyFlush. rewrite Hfull, Hro.
  cbn [mbind Res_bind HandlePacket app]. rewrite Hi. done.
Qed.

(** ** The size of a coalesced packet *)

Lemma payloadSize_range x n :
  payloadSize x = Done n -> 0 <= n < groMaxPacketSize.
Proof.
  unfold payloadSize. intros H.
  apply bind_Done in H as (tl & _ & H). apply bind_Done in H as (off & _ & H).
  injection H as <-. change groMaxPacketSize with 65536.
  apply Z.mod_pos_bound. lia.
Qed.



(** ** Entries as long as they say *)

Lemma u8_b8 z : u8 (b8 z) = z mod 256.
Proof.
  unfold u8, b8. pose proof (Z.mod_pos_bound z 256 ltac:(lia)) as Hr.
  destruct (Byte.of_N (Z.to_N (z mod 256))) as [b|] eqn:E.
  - apply Byte.to_of_N in E. rewrite E. lia.
  - apply Byte.of_N_None_iff in E. lia.
Qed.


Lemma Uint16_PutUint16 b off v b' :
  PutUint16 b off v = Done b' -> 0 <= v < 65536 -> Uint16 b' off = Done v.
Proof.
  unfold PutUint16. destruct (length b <? off + 2)%nat eqn:E; [discriminate|].
  apply Nat.ltb_ge in E. intros [= <-] Hv. unfold Uint16, at_.
  rewrite (list_lookup_insert_ne _ (S off) off) by lia.
  rewrite (list_lookup_insert_eq _ (S off)) by (rewrite length_insert; lia).
  rewrite (list_lookup_insert_eq _ off) by lia.
  simpl. rewrite !u8_b8. f_equal.
  rewrite (Z.mod_small (v / 256)) by (split; [apply Z.div_pos|
    apply Z.div_lt_upper_bound]; lia).
  pose proof (Z.div_mod v 256 ltac:(lia)). lia.
Qed.

Lemma at__take b n i : (i < n)%nat -> at_ (take n b) i = at_ b i.
Proof. intros H. unfold at_. by rewrite lookup_take_lt. Qed.

Lemma at__drop b n i : at_ (drop n b) i = at_ b (n + i).
Proof. unfold at_. by rewrite lookup_drop. Qed.

Lemma PullUp_Some p size hdr :
  PullUp p size = Some hdr ->
  size <= Size p /\ hdr = take (Z.to_nat size) (pb_data p).
Proof.
  unfold PullUp, Size. destruct (_ <? _) eqn:E; [discriminate|].
  apply Z.ltb_ge in E. by intros [= <-].
Qed.




Lemma orElse_false a b :
  (a ||| b) = Done false -> a = Done false /\ b = Done false.
Proof.
  intros H. apply orElse_Done in H as [[_ ?]|[? ?]]; [discriminate|done].
Qed.


Lemma at__lt b i : (i < length b)%nat -> exists v, at_ b i = Done v.
Proof.
  intros H. apply lookup_lt_is_Some_2 in H as [y Hy].
  unfold at_. rewrite Hy. eauto.
Qed.









(** ** The timer flush *)

Lemma HandlePacket_length ep pkt out out' :
  HandlePacket ep pkt out = Done out' -> length out' = S (length out).
Proof.
  unfold HandlePacket. destruct ep; [|discriminate]. intros [= <-].
  rewrite length_app. simpl. lia.
Qed.

Lemma forBuckets_deliveries f buckets out buckets' out' :
  (forall gb o gb' o',
     f gb o = Done (gb', o') ->
     (length o' <= S (length o))%nat /\ gb_count gb - 1 <= gb_count gb') ->
  forBuckets f buckets out = Done (buckets', out') ->
  (length out' <= length out + length buckets)%nat /\
  Forall2 (fun gb gb' => gb_count gb - 1 <= gb_count gb') buckets buckets'.
Proof.
  intros Hf. revert out buckets' out'.
  induction buckets as [|gb rest IH]; intros out buckets' out' H; simpl in H.
  - injection H as <- <-. simpl. split; [lia|constructor].
  - apply bind_Done in H as ([gb1 o1] & H1 & H).
    apply bind_Done in H as ([rest1 o2] & H2 & H). injection H as <- <-.
    apply Hf in H1 as [H1 Hc]. apply IH in H2 as [H2 Hr]. simpl.
    split; [lia|by constructor].
Qed.

(** One pass of [flush] makes at most one delivery per bucket and takes at
    most one entry out of each bucket. *)
Lemma flush_one_per_bucket fuel gd now gd' out :
  flush fuel gd now = Done (gd', out) ->
  (length out <= length (gd_buckets gd))%nat /\
  Forall2 (fun gb gb' => gb_count gb - 1 <= gb_count gb')
    (gd_buckets gd) (gd_buckets gd').
Proof.
  unfold flush. intros H.
  apply bind_Done in H as ([bs o] & Hf & H). injection H as <- <-.
  apply forBuckets_deliveries in Hf; [exact Hf|].
  intros gb o1 gb1 o2 Hb. destruct (Front (gb_packets gb)) as [g|].
  - apply flushBucket_once in Hb as (x & Hx & [(_ & Ho & Hr)|(_ & -> & ->)]).
    + apply HandlePacket_length in Ho. apply removeOne_count in Hr. lia.
    + lia.
  - destruct fuel; simpl in Hb; injection Hb as <- <-; lia.
Qed.

(** The same for [flushAll]. *)
Lemma flushAll_one_per_bucket fuel gd gd' out :
  flushAll fuel gd = Done (gd', out) ->
  (length out <= length (gd_buckets gd))%nat /\
  Forall2 (fun gb gb' => gb_count gb - 1 <= gb_count gb')
    (gd_buckets gd) (gd_buckets gd').
Proof.
  unfold flushAll. intros H.
  apply bind_Done in H as ([bs o] & Hf & H). injection H as <- <-.
  apply forBuckets_deliveries in Hf; [exact Hf|].
  intros gb o1 gb1 o2 Hb. destruct (Front (gb_packets gb)) as [g|].
  - apply flushAllBucket_once in Hb as (x & Hx & Ho & Hr).
    apply HandlePacket_length in Ho. apply removeOne_count in Hr. lia.
  - destruct fuel; simpl in Hb; injection Hb as <- <-; lia.
Qed.


(** C1 at a failing input. Two segments of different flows are staged in
    one bucket at times 100 and 101; long after both have aged, one pass of
    [flush] delivers the first only and leaves the second aged entry
    staged. *)
Theorem flush_leaves_aged_entry :
  match
    runAll noChecks 8 (init 10000000)
      [arrive segA 100; arrive segB 101; OpFlush 1000000000]
  with
  | Done (gd, out) =>
      out = [(1%nat, Some (IncRef segA))] /\
      exists b x,
        gd_buckets gd !! 7%nat = Some b /\ staged b 1 /\
        gb_packetsPrealloc b !! 1%nat = Some x /\
        pk_pkt x = Some (IncRef segB) /\
        pk_created x < 1000000000 - gd_intervalNS gd
  | _ => False
  end.
Proof.
  match goal with |- match ?t with _ => _ end => set (r := t) end.
  vm_compute in r. subst r. cbv beta iota.
  split; [reflexivity|].
  eexists _, _. split; [reflexivity|]. split; [apply linked_here|].
  split; [reflexivity|]. split; [reflexivity|]. vm_compute. reflexivity.
Qed.

(** C2 at a failing input. The same two segments are staged, the interval
    is set to 0 and the worker handles the signal by [flushAll]: the first
    segment is delivered, the second stays staged, and the worker's channel
    never fires again. *)
Theorem flushAll_leaves_entry :
  match
    runAll noChecks 8 (init 10000000)
      [arrive segA 100; arrive segB 101; OpSetInterval 0]
  with
  | Done (gd, _) =>
      match workerStep 8 gd (chTicker 10000000) EvNewInterval with
      | Done (Some (gd', ch), out) =>
          ch = chNever /\
          out = [(1%nat, Some (IncRef segA))] /\
          exists b x,
            gd_buckets gd' !! 7%nat = Some b /\ staged b 1 /\
            gb_packetsPrealloc b !! 1%nat = Some x /\
            pk_pkt x = Some (IncRef segB)
      | _ => False
      end
  | _ => False
  end.
Proof.
  match goal with |- match ?t with _ => _ end => set (r := t) end.
  vm_compute in r. subst r. cbv beta iota.
  match goal with |- match ?t with _ => _ end => set (r := t) end.
  vm_compute in r. subst r. cbv beta iota.
  split; [reflexivity|]. split; [reflexivity|].
  eexists _, _. split; [reflexivity|]. split; [apply linked_here|].
  split; reflexivity.
Qed.

(** ** The free-slot stack after a removal

    [insert] writes a [groPacket] literal without [idx] and [removeOne]
    resets the whole element, so the index pushed on the free stack is 0
    for every entry that was ever inserted. After ten flows in one bucket
    the slot of the ninth has been taken for the tenth while the ninth was
    staged: its packet was never delivered and is in no slot, and the slot
    is its own successor in the list. A lookup that matches no entry then
    never returns. *)

Lemma findGROPacket_from_skip fuel gb ipHdr tcpHdr g x nx :
  gb_packetsPrealloc gb !! g = Some x ->
  next (pk_entry x) = nx ->
  findGROPacket_body ipHdr tcpHdr x = Done None ->
  findGROPacket_from (S fuel) gb ipHdr tcpHdr (Some g)
  = findGROPacket_from fuel gb ipHdr tcpHdr nx.
Proof.
  intros Hx <- Hb. simpl. rewrite (proj2 (deref_Done _ _ _) Hx). simpl.
  rewrite Hb. done.
Qed.

Lemma findGROPacket_from_self_loop fuel gb ipHdr tcpHdr g x :
  gb_packetsPrealloc gb !! g = Some x ->
  next (pk_entry x) = Some g ->
  findGROPacket_body ipHdr tcpHdr x = Done None ->
  findGROPacket_from fuel gb ipHdr tcpHdr (Some g) = OutOfFuel.
Proof.
  intros Hx Hn Hb. induction fuel as [|fuel IH]; [done|].
  by rewrite (findGROPacket_from_skip _ _ _ _ _ _ _ Hx Hn Hb).
Qed.

Example tenth_flow_takes_live_slot :
  match runAll noChecks 16 (init 10000000) tenFlows with
  | Done (gd, out) =>
      out = [(1%nat, Some (IncRef (flowSeg 0)));
             (1%nat, Some (IncRef (flowSeg 1)))] /\
      exists b x,
        gd_buckets gd !! 7%nat = Some b /\ gb_count b = 8 /\
        gb_packetsPrealloc b !! 0%nat = Some x /\
        pk_pkt x = Some (IncRef (flowSeg 9)) /\
        next (pk_entry x) = Some 0%nat /\
        Forall (fun y => pk_pkt y <> Some (IncRef (flowSeg 8)))
          (gb_packetsPrealloc b)
  | _ => False
  end.
Proof.
  match goal with |- match ?t with _ => _ end => set (r := t) end.
  vm_compute in r. subst r. cbv beta iota.
  split; [vm_compute; reflexivity|].
  eexists _, _. split; [reflexivity|]. split; [reflexivity|].
  split; [reflexivity|]. split; [vm_compute; reflexivity|].
  split; [reflexivity|].
  repeat constructor; vm_compute; discriminate.
Qed.

Example eleventh_flow_never_returns fuel :
  findGROPacket fuel (bucketOf (stateAfter tenFlows) 7)
    (ipHdrOf (flowSeg 10)) (tcpHdrOf (flowSeg 10)) = OutOfFuel.
Proof.
  unfold findGROPacket.
  replace (Front (gb_packets (bucketOf (stateAfter tenFlows) 7)))
    with (Some 2%nat) by (vm_compute; reflexivity).
  do 6 (destruct fuel as [|fuel]; [reflexivity|];
        erewrite findGROPacket_from_skip;
        [|vm_compute; reflexivity|vm_compute; reflexivity
         |vm_compute; reflexivity]).
  eapply findGROPacket_from_self_loop;
    [vm_compute; reflexivity|vm_compute; reflexivity|vm_compute; reflexivity].
Qed.

(** ** Instances *)

Lemma runAll_reachable chk ok fuel ops gd gd' out :
  reachableWith chk ok gd -> Forall ok ops ->
  runAll chk fuel gd ops = Done (gd', out) ->
  reachableWith chk ok gd'.
Proof.
  revert gd out. induction ops as [|op ops IH]; intros gd out Hr Hok H;
    simpl in H.
  - by injection H as <- <-.
  - apply bind_Done in H as ([gd1 out1] & H1 & H).
    apply bind_Done in H as ([gd2 out2] & H2 & H). injection H as <- <-.
    inversion Hok; subst.
    eapply IH; [|done|exact H2]. eapply reachable_run; eauto.
Qed.

Lemma stateAfter_reachable ok ops :
  Forall ok ops ->
  (exists r, runAll noChecks 16 (init 10000000) ops = Done r) ->
  reachableWith noChecks ok (stateAfter ops).
Proof.
  intros Hok [[gd out] H]. unfold stateAfter. rewrite H.
  eapply runAll_reachable; [apply reachable_init|exact Hok|exact H].
Qed.

Lemma findGROPacket_flush_entry_witness :
  findGROPacket 16 (bucketOf (stateAfter [arrive segA 100]) 7)
    (ipHdrOf segAck) (tcpHdrOf segAck) = Done (Some 0%nat, true) /\
  exists g x,
    Some 0%nat = Some g /\
    staged (bucketOf (stateAfter [arrive segA 100]) 7) g /\
    deref (gb_packetsPrealloc (bucketOf (stateAfter [arrive segA 100]) 7)) g
    = Done x.
Proof.
  assert (H : findGROPacket 16 (bucketOf (stateAfter [arrive segA 100]) 7)
                (ipHdrOf segAck) (tcpHdrOf segAck) = Done (Some 0%nat, true))
    by (vm_compute; reflexivity).
  split; [exact H|]. exact (findGROPacket_flush_entry _ _ _ _ _ H).
Defined.


Lemma evict_oldest_when_full_witness :
  reachable noChecks (stateAfter eightFlows) /\
  bucketOf (stateAfter eightFlows) 7 ∈ gd_buckets (stateAfter eightFlows) /\
  full (bucketOf (stateAfter eightFlows) 7) = true /\
  Front (gb_packets (bucketOf (stateAfter eightFlows) 7)) = Some 0%nat /\
  findGROPacket 16 (bucketOf (stateAfter eightFlows) 7) (ipHdrOf (flowSeg 8))
    (tcpHdrOf (flowSeg 8)) = Done (None, false) /\
  header.IPv4.TotalLength (ipHdrOf (flowSeg 8)) = Done 1500 /\
  header.TCP.Flags (tcpHdrOf (flowSeg 8)) = Done 16 /\
  flushDecision 1500 16 1500 = false /\
  (forall gb, gb ∈ gd_buckets (stateAfter eightFlows) ->
     gb_count gb <= groBucketSize) /\
  exists x gb1 gb' s l,
    gb_packetsPrealloc (bucketOf (stateAfter eightFlows) 7) !! 0%nat
    = Some x /\
    removeOldest (bucketOf (stateAfter eightFlows) 7)
    = Done (gb1, pk_pkt x) /\
    gb_packetsPrealloc gb1 !! 0%nat = Some groPacket_zero /\
    gb_count gb1 = groBucketSize - 1 /\
    insert gb1 (Some (IncRef (flowSeg 8))) (ipHdrOf (flowSeg 8))
      (tcpHdrOf (flowSeg 8)) (Some 1%nat) 108 = Done gb' /\
    dispatchBucket 16 (bucketOf (stateAfter eightFlows) 7) (flowSeg 8)
      (ipHdrOf (flowSeg 8)) (tcpHdrOf (flowSeg 8)) 20 1460 (Some 1%nat) 1500
      108 = Done (gb', [(1%nat, pk_pkt x)]) /\
    l_tail (gb_packets gb') = Some s /\
    gb_packetsPrealloc gb' !! s
    = Some (mkGroPacket l (Some (IncRef (flowSeg 8))) (ipHdrOf (flowSeg 8))
              (tcpHdrOf (flowSeg 8)) 108 (Some 1%nat) 0) /\
    gb_count gb' = groBucketSize.
Proof.
  set (gd := stateAfter eightFlows).
  assert (Hr : reachable noChecks gd).
  { apply stateAfter_reachable; [by apply Forall_true|].
    eexists. vm_compute. reflexivity. }
  destruct (evict_oldest_when_full noChecks gd Hr) as [Hcount Hevict].
  assert (Hin : bucketOf gd 7 ∈ gd_buckets gd).
  { apply (list_elem_of_lookup_2 _ 7%nat). vm_compute. reflexivity. }
  assert (Hfull : full (bucketOf gd 7) = true) by (vm_compute; reflexivity).
  assert (Hfront : Front (gb_packets (bucketOf gd 7)) = Some 0%nat)
    by (vm_compute; reflexivity).
  assert (Hfind : findGROPacket 16 (bucketOf gd 7) (ipHdrOf (flowSeg 8))
                    (tcpHdrOf (flowSeg 8)) = Done (None, false))
    by (vm_compute; reflexivity).
  assert (Htl : header.IPv4.TotalLength (ipHdrOf (flowSeg 8)) = Done 1500)
    by (vm_compute; reflexivity).
  assert (Hfl : header.TCP.Flags (tcpHdrOf (flowSeg 8)) = Done 16)
    by (vm_compute; reflexivity).
  assert (Hd : flushDecision 1500 16 1500 = false) by (vm_compute; reflexivity).
  repeat (split; [assumption|]).
  exact (Hevict 16%nat _ (flowSeg 8) _ _ 20 1460 1%nat 1500 108 _ _ _ Hin Hfull
           Hfront Hfind Htl Hfl Hd).
Defined.

(** ** Eviction from a full bucket

    [removeOldest] pushes the [idx] of the front on the free-slot stack,
    and [insert] has reset that [idx] to 0 when it wrote the entry. From
    the second eviction on, the slot that [insert] takes is therefore slot
    0 whether it is free or not. *)

(** One step along the [next] links of a list that is given in full. *)
Ltac follow_link :=
  match goal with
  | |- linked ?mem (Some ?g) _ =>
      apply (linked_next mem g (default groPacket_zero (mem !! g)));
      [vm_compute; reflexivity|];
      let nx := eval vm_compute in
                  (next (pk_entry (default groPacket_zero (mem !! g)))) in
      replace (next (pk_entry (default groPacket_zero (mem !! g)))) with nx
        by (vm_compute; reflexivity)
  end.

(** With slot 0 its own successor, [dispatch] of a segment that matches
    no entry of the bucket never returns from the lookup. *)
Lemma eleventh_dispatch_never_returns fuel :
  dispatch noChecks fuel (stateAfter tenFlows) (Some (flowSeg 10))
    header.IPv4ProtocolNumber (Some 1%nat) 1500 110 = OutOfFuel.
Proof.
  unfold dispatch.
  replace (gd_intervalNS (stateAfter tenFlows) =? 0) with false
    by (vm_compute; reflexivity).
  unfold dispatchEnabled.
  replace (parseSegment noChecks (flowSeg 10) header.IPv4ProtocolNumber)
    with (Done (Some (mkSegment (flowSeg 10) (ipHdrOf (flowSeg 10))
                        (tcpHdrOf (flowSeg 10)) 20 1460)))
    by (vm_compute; reflexivity).
  cbn [mbind Res_bind seg_ipHdr seg_tcpHdr seg_pkt seg_dataOff
         seg_tcpPayloadSize].
  replace (bucketForPacket (ipHdrOf (flowSeg 10)) (tcpHdrOf (flowSeg 10)))
    with (Done 1183) by (vm_compute; reflexivity).
  cbn [mbind Res_bind].
  replace (index (gd_buckets (stateAfter tenFlows))
             (Z.land 1183 groNBucketsMask))
    with (Done (bucketOf (stateAfter tenFlows) 7))
    by (vm_compute; reflexivity).
  cbn [mbind Res_bind]. unfold dispatchBucket.
  rewrite eleventh_flow_never_returns. reflexivity.
Qed.

(** C7. Eviction from a full bucket loses a staged entry and then hangs
    [dispatch]. After nine flows in one bucket the bucket is full, its front
    is slot 1 and slot 0 is its tail, holding the staged segment of the
    ninth flow; only the segment of the first flow has been delivered. The
    segment of a tenth flow matches no entry and needs no flush:
    [dispatch] delivers the front, and then [insert] writes the tenth
    segment over slot 0. The segment of the ninth flow is in no slot any
    more and was never delivered, and slot 0 is its own successor. The
    bucket is full again; [dispatch] of the segment of an eleventh flow,
    which neither matches an entry nor needs a flush, does not return,
    whatever the fuel: nothing is evicted and nothing is staged. *)
Theorem full_bucket_overwrites_staged_entry :
  let gd := stateAfter nineFlows in
  let b := bucketOf gd 7 in
  reachable noChecks gd /\
  gd_buckets gd !! 7%nat = Some b /\
  full b = true /\
  Front (gb_packets b) = Some 1%nat /\
  staged b 0 /\
  (exists x,
     gb_packetsPrealloc b !! 0%nat = Some x /\
     pk_pkt x = Some (IncRef (flowSeg 8))) /\
  deliveries (runAll noChecks 16 (init 10000000) nineFlows)
  = Some [(1%nat, Some (IncRef (flowSeg 0)))] /\
  findGROPacket 16 b (ipHdrOf (flowSeg 9)) (tcpHdrOf (flowSeg 9))
  = Done (None, false) /\
  header.IPv4.TotalLength (ipHdrOf (flowSeg 9)) = Done 1500 /\
  header.TCP.Flags (tcpHdrOf (flowSeg 9)) = Done 16 /\
  flushDecision 1500 16 1500 = false /\
  exists gd' b' x',
    dispatch noChecks 16 gd (Some (flowSeg 9)) header.IPv4ProtocolNumber
      (Some 1%nat) 1500 109
    = Done (gd', [(1%nat, Some (IncRef (flowSeg 1)))]) /\
    reachable noChecks gd' /\
    gd_buckets gd' !! 7%nat = Some b' /\
    full b' = true /\
    gb_packetsPrealloc b' !! 0%nat = Some x' /\
    pk_pkt x' = Some (IncRef (flowSeg 9)) /\
    next (pk_entry x') = Some 0%nat /\
    Forall (fun y => pk_pkt y <> Some (IncRef (flowSeg 8)))
      (gb_packetsPrealloc b') /\
    Forall (fun y => flow y
                     <> flowOf (ipHdrOf (flowSeg 10)) (tcpHdrOf (flowSeg 10)))
      (gb_packetsPrealloc b') /\
    header.IPv4.TotalLength (ipHdrOf (flowSeg 10)) = Done 1500 /\
    header.TCP.Flags (tcpHdrOf (flowSeg 10)) = Done 16 /\
    forall fuel,
      dispatch noChecks fuel gd' (Some (flowSeg 10))
        header.IPv4ProtocolNumber (Some 1%nat) 1500 110 = OutOfFuel.
Proof.
  cbv zeta.
  split.
  { apply stateAfter_reachable; [by apply Forall_true|].
    eexists. vm_compute. reflexivity. }
  split; [vm_compute; reflexivity|].
  split; [vm_compute; reflexivity|].
  split; [vm_compute; reflexivity|].
  split.
  { unfold staged, Front.
    replace (l_head (gb_packets (bucketOf (stateAfter nineFlows) 7)))
      with (Some 1%nat) by (vm_compute; reflexivity).
    do 7 follow_link.
    apply linked_here. }
  split.
  { exists (default groPacket_zero
              (gb_packetsPrealloc (bucketOf (stateAfter nineFlows) 7)
                 !! 0%nat)).
    split; vm_compute; reflexivity. }
  split; [vm_compute; reflexivity|].
  split; [vm_compute; reflexivity|].
  split; [vm_compute; reflexivity|].
  split; [vm_compute; reflexivity|].
  split; [vm_compute; reflexivity|].
  exists (stateAfter tenFlows), (bucketOf (stateAfter tenFlows) 7),
    (default groPacket_zero
       (gb_packetsPrealloc (bucketOf (stateAfter tenFlows) 7) !! 0%nat)).
  split; [vm_compute; reflexivity|].
  split.
  { apply stateAfter_reachable; [by apply Forall_true|].
    eexists. vm_compute. reflexivity. }
  split; [vm_compute; reflexivity|].
  split; [vm_compute; reflexivity|].
  split; [vm_compute; reflexivity|].
  split; [vm_compute; reflexivity|].
  split; [vm_compute; reflexivity|].
  set (mem := gb_packetsPrealloc (bucketOf (stateAfter tenFlows) 7)).
  split.
  { vm_compute in mem. subst mem.
    repeat (constructor; [vm_compute; discriminate|]). constructor. }
  split.
  { vm_compute in mem. subst mem.
    repeat (constructor; [vm_compute; discriminate|]). constructor. }
  split; [vm_compute; reflexivity|].
  split; [vm_compute; reflexivity|].
  apply eleventh_dispatch_never_returns.
Qed.



(** ** The filters of [dispatch] *)

Lemma pulled_reads p (n : nat) :
  Z.of_nat n <= Size p ->
  length (take n (pb_data p)) = n /\
  forall i, (i < n)%nat -> exists v, at_ (take n (pb_data p)) i = Done v /\
                                    at_ (pb_data p) i = Done v.
Proof.
  unfold Size. intros H.
  assert (Hl : length (take n (pb_data p)) = n) by (rewrite length_take; lia).
  split; [exact Hl|]. intros i Hi.
  destruct (at__lt (take n (pb_data p)) i) as [v Hv]; [lia|].
  exists v. split; [exact Hv|]. by rewrite at__take in Hv.
Qed.

Lemma parseSegment_Done chk p netProto :
  exists r, parseSegment chk p netProto = Done r.
Proof.
  unfold parseSegment.
  destruct (neqb netProto header.IPv4ProtocolNumber); [eauto|].
  destruct (PullUp p _) as [hdr1|] eqn:Hp1; [|eauto].
  apply PullUp_Some in Hp1 as [Hl1 ->].
  change (Z.to_nat (header.IPv4MinimumSize + header.TCPMinimumSize))
    with 40%nat in *.
  destruct (pulled_reads p 40) as [Hlen Hrd].
  { unfold header.IPv4MinimumSize, header.TCPMinimumSize in Hl1. lia. }
  set (ipHdr := take 40 (pb_data p)) in *.
  destruct (Hrd 0%nat) as (v0 & H0 & _); [lia|].
  destruct (Hrd 2%nat) as (v2 & H2 & _); [lia|].
  destruct (Hrd 3%nat) as (v3 & H3 & _); [lia|].
  destruct (Hrd 6%nat) as (v6 & H6 & _); [lia|].
  destruct (Hrd 7%nat) as (v7 & H7 & _); [lia|].
  destruct (Hrd 9%nat) as (v9 & H9 & _); [lia|].
  destruct (Hrd 32%nat) as (v32 & H32 & _); [lia|].
  unfold header.IPv4.FragmentOffset, header.IPv4.Flags, Uint16.
  rewrite H6, H7. cbn [mbind Res_bind]. unfold orElse at 2.
  cbn [mbind Res_bind].
  destruct (neqb (Z.shiftl _ 3 mod 65536) 0);
    [cbn [orElse mbind Res_bind]; eauto|].
  unfold orElse at 2. cbn [mbind Res_bind].
  destruct (neqb (Z.land _ header.IPv4FlagMoreFragments) 0);
    [cbn [orElse mbind Res_bind]; eauto|].
  unfold orElse at 1. cbn [mbind Res_bind].
  destruct (Z.land _ header.IPv4FlagDontFragment =? 0); [eauto|].
  unfold header.IPv4.HeaderLength, header.IPv4.Protocol.
  rewrite H0, H9. unfold orElse. cbn [mbind Res_bind].
  destruct (neqb (Z.land v0 15 * 4) header.IPv4MinimumSize);
    [cbn [mbind Res_bind]; eauto|].
  cbn [mbind Res_bind].
  destruct (neqb v9 header.TCPProtocolNumber); [eauto|].
  unfold header.TCP.DataOffset. rewrite at__drop.
  change (Z.to_nat header.IPv4MinimumSize + 12)%nat with 32%nat.
  rewrite H32. cbn [mbind Res_bind].
  destruct (_ <? header.TCPMinimumSize); [eauto|].
  destruct (PullUp p _) as [hdr2|]; [|eauto].
  unfold header.IPv4.TotalLength, Uint16. rewrite H2, H3.
  cbn [mbind Res_bind].
  destruct (pb_RXChecksumValidated p); [eauto|].
  destruct (_ || _); [eauto|].
  unfold header.IPv4.SourceAddress, header.IPv4.DestinationAddress, slice.
  rewrite Hlen. cbn [Nat.ltb Nat.leb mbind Res_bind].
  destruct (negb _); eauto.
Qed.

(** X1. The filters of [dispatch] never panic: whatever bytes the packet
    holds, every header field is read inside the bytes that [PullUp] has
    returned. *)
Theorem parseSegment_returns chk p netProto :
  exists r, parseSegment chk p netProto = Done r.
Proof. apply parseSegment_Done. Qed.

Lemma DataOffset_range b off :
  header.TCP.DataOffset b = Done off -> 0 <= off <= 60 /\ off mod 4 = 0.
Proof.
  unfold header.TCP.DataOffset. intros H.
  apply bind_Done in H as (v & Hv & H). injection H as <-.
  apply at__Done in Hv. rewrite Z.shiftr_div_pow2 by lia.
  change (2 ^ 4) with 16.
  assert (0 <= v / 16 < 16).
  { split; [apply Z.div_pos; lia|]. apply Z.div_lt_upper_bound; lia. }
  split; [lia|]. apply Z.mod_mul. lia.
Qed.

(** What the filters have established about a packet that they hand to
    the coalescing path. *)
Lemma parseSegment_Some chk p netProto s :
  parseSegment chk p netProto = Done (Some s) ->
  netProto = header.IPv4ProtocolNumber /\
  header.IPv4.HeaderLength (pb_data p) = Done header.IPv4MinimumSize /\
  header.IPv4.Protocol (pb_data p) = Done header.TCPProtocolNumber /\
  header.IPv4.FragmentOffset (pb_data p) = Done 0 /\
  (exists f,
     header.IPv4.Flags (pb_data p) = Done f /\
     Z.land f header.IPv4FlagMoreFragments = 0 /\
     Z.land f header.IPv4FlagDontFragment <> 0) /\
  header.TCPMinimumSize <= seg_dataOff s <= 60 /\
  header.IPv4MinimumSize + seg_dataOff s <= Size p /\
  seg_ipHdr s = take 40 (pb_data p) /\
  seg_tcpHdr s = take (Z.to_nat (seg_dataOff s)) (drop 20 (pb_data p)) /\
  header.TCP.DataOffset (seg_tcpHdr s) = Done (seg_dataOff s) /\
  (exists tl,
     header.IPv4.TotalLength (pb_data p) = Done tl /\
     seg_tcpPayloadSize s
     = (tl - header.IPv4MinimumSize - seg_dataOff s) mod 65536) /\
  seg_pkt s
  = mkPacketBuffer (pb_data p) true (pb_refs p) /\
  (pb_RXChecksumValidated p = false ->
   IPv4_IsValid chk (seg_ipHdr s) (Size p) = true /\
   IPv4_IsChecksumValid chk (seg_ipHdr s) = true).
Proof.
  unfold parseSegment. intros H.
  destruct (neqb netProto header.IPv4ProtocolNumber) eqn:Eproto;
    [discriminate|].
  apply neqb_false in Eproto.
  destruct (PullUp p _) as [hdr1|] eqn:Hp1; [|discriminate].
  apply PullUp_Some in Hp1 as [Hl1 ->].
  change (Z.to_nat (header.IPv4MinimumSize + header.TCPMinimumSize))
    with 40%nat in *.
  set (ipHdr := take 40 (pb_data p)) in *.
  apply bind_Done in H as (frag & Hfrag & H). destruct frag; [discriminate|].
  apply orElse_false in Hfrag as [Hfrag Hdf].
  apply orElse_false in Hfrag as [Hfo Hmf].
  apply bind_Done in Hfo as (fo & Hfo & E). injection E as E.
  apply neqb_false in E. subst fo.
  apply bind_Done in Hmf as (f & Hf & E). injection E as Emf.
  apply neqb_false in Emf.
  apply bind_Done in Hdf as (f' & Hf' & E). injection E as Edf.
  assert (f' = f) as -> by congruence. apply Z.eqb_neq in Edf.
  apply bind_Done in H as (opt & Hopt & H). destruct opt; [discriminate|].
  apply orElse_false in Hopt as [Hihl Hpr].
  apply bind_Done in Hihl as (ihl & Hihl & E). injection E as E.
  apply neqb_false in E. subst ihl.
  apply bind_Done in Hpr as (pr & Hpr & E). injection E as E.
  apply neqb_false in E. subst pr.
  apply bind_Done in H as (dataOff & Hoff & H).
  destruct (dataOff <? header.TCPMinimumSize) eqn:Hmin; [discriminate|].
  apply Z.ltb_ge in Hmin.
  destruct (PullUp p _) as [hdr2|] eqn:Hp2; [|discriminate].
  apply PullUp_Some in Hp2 as [Hl2 ->].
  apply bind_Done in H as (tl & Htl & H).
  pose proof (DataOffset_range _ _ Hoff) as [Hoff60 _].
  unfold header.IPv4MinimumSize, header.TCPMinimumSize in *.
  assert (Etcp : drop (Z.to_nat 20) (take (Z.to_nat (20 + dataOff)) (pb_data p))
                 = take (Z.to_nat dataOff) (drop 20 (pb_data p))).
  { change (Z.to_nat 20) with 20%nat.
    replace (Z.to_nat (20 + dataOff)) with (20 + Z.to_nat dataOff)%nat by lia.
    symmetry. apply take_drop_commute. }
  assert (Eoff : header.TCP.DataOffset
                   (take (Z.to_nat dataOff) (drop 20 (pb_data p)))
                 = Done dataOff).
  { unfold header.TCP.DataOffset in *. rewrite at__drop in Hoff.
    unfold ipHdr in Hoff. rewrite at__take in Hoff by (simpl; lia).
    rewrite at__take by lia. rewrite at__drop. exact Hoff. }
  assert (Hreads :
      header.IPv4.HeaderLength (pb_data p) = Done 20 /\
      header.IPv4.Protocol (pb_data p) = Done header.TCPProtocolNumber /\
      header.IPv4.FragmentOffset (pb_data p) = Done 0 /\
      header.IPv4.Flags (pb_data p) = Done f /\
      header.IPv4.TotalLength (pb_data p) = Done tl).
  { unfold header.IPv4.HeaderLength, header.IPv4.Protocol,
      header.IPv4.FragmentOffset, header.IPv4.Flags, header.IPv4.TotalLength,
      Uint16 in *.
    unfold ipHdr in *. rewrite !at__take in * by lia. done. }
  destruct Hreads as (R1 & R2 & R3 & R4 & R5).
  assert (Hs : seg_ipHdr s = ipHdr /\
               seg_tcpHdr s = take (Z.to_nat dataOff) (drop 20 (pb_data p)) /\
               seg_dataOff s = dataOff /\
               seg_tcpPayloadSize s = (tl - 20 - dataOff) mod 65536 /\
               seg_pkt s = mkPacketBuffer (pb_data p) true (pb_refs p) /\
               (pb_RXChecksumValidated p = false ->
                IPv4_IsValid chk ipHdr (Size p) = true /\
                IPv4_IsChecksumValid chk ipHdr = true)).
  { rewrite Etcp in H.
    destruct (pb_RXChecksumValidated p) eqn:Erx.
    - injection H as <-. cbn. repeat (split; [done|]).
      split; [|done]. destruct p. cbn in *. by subst.
    - destruct (negb (IPv4_IsValid _ _ _)) eqn:E1; [discriminate|].
      destruct (negb (IPv4_IsChecksumValid _ _)) eqn:E2; [discriminate|].
      cbn [orb] in H.
      apply bind_Done in H as (src & _ & H).
      apply bind_Done in H as (dst & _ & H).
      match type of H with
      | (if ?c then _ else _) = _ => destruct c; [discriminate|]
      end.
      injection H as <-. cbn. apply negb_false_iff in E1, E2. done. }
  destruct Hs as (-> & -> & -> & -> & -> & Hck).
  split; [done|]. split; [done|]. split; [done|]. split; [done|].
  split; [by exists f|]. split; [lia|]. split; [lia|].
  split; [done|]. split; [done|]. split; [done|].
  split; [by exists tl|]. done.
Qed.

(** X2. A packet that passes the filters of [dispatch] is an atomic IPv4
    packet without IP options that carries TCP: the fragment offset is 0,
    MF is clear and DF is set, the header length is 20 and the protocol is
    6. The slices handed on are the first 40 bytes and the TCP header with
    its options, whose data offset is between 20 and 60 and inside the
    packet; the payload size is the total length less the two headers as a
    16-bit number, and the packet is marked checksum-validated. *)
Theorem parseSegment_eligible chk p netProto s :
  parseSegment chk p netProto = Done (Some s) ->
  netProto = header.IPv4ProtocolNumber /\
  header.IPv4.HeaderLength (pb_data p) = Done header.IPv4MinimumSize /\
  header.IPv4.Protocol (pb_data p) = Done header.TCPProtocolNumber /\
  header.IPv4.FragmentOffset (pb_data p) = Done 0 /\
  (exists f,
     header.IPv4.Flags (pb_data p) = Done f /\
     Z.land f header.IPv4FlagMoreFragments = 0 /\
     Z.land f header.IPv4FlagDontFragment <> 0) /\
  header.TCPMinimumSize <= seg_dataOff s <= 60 /\
  header.IPv4MinimumSize + seg_dataOff s <= Size p /\
  seg_ipHdr s = take 40 (pb_data p) /\
  seg_tcpHdr s = take (Z.to_nat (seg_dataOff s)) (drop 20 (pb_data p)) /\
  header.TCP.DataOffset (seg_tcpHdr s) = Done (seg_dataOff s) /\
  (exists tl,
     header.IPv4.TotalLength (pb_data p) = Done tl /\
     seg_tcpPayloadSize s
     = (tl - header.IPv4MinimumSize - seg_dataOff s) mod 65536) /\
  seg_pkt s
  = mkPacketBuffer (pb_data p) true (pb_refs p) /\
  (pb_RXChecksumValidated p = false ->
   IPv4_IsValid chk (seg_ipHdr s) (Size p) = true /\
   IPv4_IsChecksumValid chk (seg_ipHdr s) = true).
Proof. apply parseSegment_Some. Qed.

Lemma parseSegment_eligible_witness :
  exists s,
    parseSegment noChecks segA header.IPv4ProtocolNumber = Done (Some s) /\
    header.TCPMinimumSize <= seg_dataOff s <= 60 /\
    seg_ipHdr s = take 40 (pb_data segA) /\
    seg_pkt s = mkPacketBuffer (pb_data segA) true (pb_refs segA).
Proof.
  set (s := mkSegment segA (ipHdrOf segA) (tcpHdrOf segA) 20 1460).
  assert (H : parseSegment noChecks segA header.IPv4ProtocolNumber
              = Done (Some s)) by (vm_compute; reflexivity).
  exists s. split; [exact H|].
  destruct (parseSegment_eligible _ _ _ _ H)
    as (_ & _ & _ & _ & _ & Hoff & _ & Hip & _ & _ & _ & Hpkt & _).
  split; [exact Hoff|]. split; [exact Hip|exact Hpkt].
Defined.

(** X3. A packet that is not an atomic TCP segment over IPv4 without IP
    options is passed along as it is: [dispatch] makes the one delivery of
    the packet it was given, unmarked, and leaves the dispatcher
    unchanged. *)
Theorem dispatch_passes_ineligible chk fuel gd p netProto e mtu now :
  netProto <> header.IPv4ProtocolNumber \/
  Size p < header.IPv4MinimumSize + header.TCPMinimumSize \/
  header.IPv4.HeaderLength (pb_data p) <> Done header.IPv4MinimumSize \/
  header.IPv4.Protocol (pb_data p) <> Done header.TCPProtocolNumber \/
  header.IPv4.FragmentOffset (pb_data p) <> Done 0 \/
  (exists f,
     header.IPv4.Flags (pb_data p) = Done f /\
     (Z.land f header.IPv4FlagMoreFragments <> 0 \/
      Z.land f header.IPv4FlagDontFragment = 0)) \/
  (exists off,
     header.TCP.DataOffset (drop 20 (pb_data p)) = Done off /\
     (off < header.TCPMinimumSize \/
      Size p < header.IPv4MinimumSize + off)) ->
  dispatch chk fuel gd (Some p) netProto (Some e) mtu now
  = Done (gd, [(e, Some p)]).
Proof.
  intros Hin. unfold dispatch. destruct (gd_intervalNS gd =? 0); [done|].
  unfold dispatchEnabled.
  destruct (parseSegment_Done chk p netProto) as [[s|] Hs]; rewrite Hs;
    [exfalso|done].
  apply parseSegment_Some in Hs
    as (Hproto & Hihl & Hpr & Hfo & (f & Hf & Hmf & Hdf) & Hoff & Hsize &
        _ & Htcp & Hdo & _).
  unfold header.IPv4MinimumSize, header.TCPMinimumSize in *.
  destruct Hin as [H|[H|[H|[H|[H|[H|H]]]]]]; try done.
  - lia.
  - destruct H as (f' & Hf' & H). assert (f' = f) as -> by congruence.
    destruct H; done.
  - destruct H as (off & Ho & H).
    assert (off = seg_dataOff s) as ->; [|lia].
    rewrite Htcp in Hdo. unfold header.TCP.DataOffset in *.
    rewrite at__take in Hdo by lia. congruence.
Qed.

Lemma dispatch_passes_ineligible_witness :
  dispatch noChecks 8 (init 10000000) (Some segA) 0x86dd (Some 1%nat) 1500 100
  = Done (init 10000000, [(1%nat, Some segA)]).
Proof.
  apply dispatch_passes_ineligible. left. discriminate.
Defined.
(** ** The bucket of a packet *)

Lemma forBuckets_lookup f buckets out buckets' out' :
  forBuckets f buckets out = Done (buckets', out') ->
  length buckets' = length buckets /\
  forall i gb', buckets' !! i = Some gb' ->
    exists gb o o', buckets !! i = Some gb /\ f gb o = Done (gb', o').
Proof.
  revert out buckets' out'.
  induction buckets as [|gb rest IH]; intros out buckets' out' H; simpl in H.
  - injection H as <- <-. split; [done|]. intros i gb' Hi. done.
  - apply bind_Done in H as ([gb1 o1] & H1 & H).
    apply bind_Done in H as ([rest1 o2] & H2 & H). injection H as <- <-.
    apply IH in H2 as [Hlen Hrest]. split; [simpl; lia|].
    intros [|i] gb' Hi; simpl in Hi.
    + injection Hi as <-. by exists gb, out, o1.
    + by apply Hrest.
Qed.

(** Induction over the reachable states, bucket by bucket. *)
Lemma reachable_indexed chk (P : nat -> groBucket -> Prop) :
  (forall i, P i (init_bucket groBucket_zero)) ->
  (forall fuel gb s ep mtu now gb' out sum,
     P (Z.to_nat (Z.land sum groNBucketsMask)) gb ->
     bucketForPacket (seg_ipHdr s) (seg_tcpHdr s) = Done sum ->
     dispatchBucket fuel gb (seg_pkt s) (seg_ipHdr s) (seg_tcpHdr s)
       (seg_dataOff s) (seg_tcpPayloadSize s) ep mtu now = Done (gb', out) ->
     P (Z.to_nat (Z.land sum groNBucketsMask)) gb') ->
  (forall i gb g gb', P i gb -> removeOne gb g = Done gb' -> P i gb') ->
  forall gd, reachable chk gd ->
    length (gd_buckets gd) = Z.to_nat groNBuckets /\
    forall i gb, gd_buckets gd !! i = Some gb -> P i gb.
Proof.
  intros Hinit Hdisp Hrm gd Hr.
  induction Hr as [interval|gd fuel op gd' out Hr [IHl IH] _ Hrun].
  - split; [reflexivity|]. intros i gb Hi. unfold init in Hi.
    cbn [gd_buckets] in Hi. rewrite list_lookup_fmap in Hi.
    destruct (replicate _ _ !! i) as [z|] eqn:Hz; [|discriminate].
    apply lookup_replicate in Hz as [-> _]. injection Hi as <-. apply Hinit.
  - destruct op as [pkt netProto ep mtu now|now| |interval]; simpl in Hrun.
    + unfold dispatch in Hrun. destruct (gd_intervalNS gd =? 0).
      { apply bind_Done in Hrun as (o & _ & Hrun). by injection Hrun as <- <-. }
      unfold dispatchEnabled in Hrun. destruct pkt as [p|].
      * apply bind_Done in Hrun as (seg & Hseg & Hrun). destruct seg as [s|].
        -- apply bind_Done in Hrun as (sum & Hsum & Hrun).
           apply bind_Done in Hrun as (gb0 & Hgb & Hrun).
           apply bind_Done in Hrun as ([gb1 o] & Hd & Hrun).
           injection Hrun as <- <-. cbn [gd_buckets].
           apply index_Done in Hgb as [_ Hgb].
           split; [by rewrite length_insert|].
           intros i gb Hi.
           destruct (decide (i = Z.to_nat (Z.land sum groNBucketsMask)))
             as [->|Hne].
           ++ rewrite list_lookup_insert_eq in Hi
                by (by eapply lookup_lt_Some).
              injection Hi as <-. eapply Hdisp; [|exact Hsum|exact Hd].
              by apply IH.
           ++ rewrite list_lookup_insert_ne in Hi by done. by apply IH.
        -- apply bind_Done in Hrun as (o & _ & Hrun).
           by injection Hrun as <- <-.
      * destruct (neqb netProto header.IPv4ProtocolNumber); [|discriminate].
        apply bind_Done in Hrun as (o & _ & Hrun). by injection Hrun as <- <-.
    + unfold flush in Hrun.
      apply bind_Done in Hrun as ([bs o] & Hf & Hrun).
      injection Hrun as <- <-. cbn [gd_buckets].
      apply forBuckets_lookup in Hf as [Hlen Hf]. split; [congruence|].
      intros i gb' Hi. destruct (Hf i gb' Hi) as (gb & o1 & o2 & Hgb & Hfl).
      cbn beta in Hfl. destruct (Front (gb_packets gb)) as [g|].
      * apply flushBucket_once in Hfl
          as (x & Hx & [(_ & _ & Hrm0)|(_ & _ & ->)]); [|by apply IH].
        eapply Hrm; [|exact Hrm0]. by apply IH.
      * destruct fuel; simpl in Hfl; injection Hfl as <- <-; by apply IH.
    + unfold flushAll in Hrun.
      apply bind_Done in Hrun as ([bs o] & Hf & Hrun).
      injection Hrun as <- <-. cbn [gd_buckets].
      apply forBuckets_lookup in Hf as [Hlen Hf]. split; [congruence|].
      intros i gb' Hi. destruct (Hf i gb' Hi) as (gb & o1 & o2 & Hgb & Hfl).
      cbn beta in Hfl. destruct (Front (gb_packets gb)) as [g|].
      * apply flushAllBucket_once in Hfl as (x & Hx & _ & Hrm0).
        eapply Hrm; [|exact Hrm0]. by apply IH.
      * destruct fuel; simpl in Hfl; injection Hfl as <- <-; by apply IH.
    + injection Hrun as <- <-. by split.
Qed.

Lemma reachable_nbuckets chk gd :
  reachable chk gd -> length (gd_buckets gd) = Z.to_nat groNBuckets.
Proof.
  intros Hr.
  by destruct (reachable_indexed chk (fun _ _ => True)
                 ltac:(done) ltac:(done) ltac:(done) gd Hr).
Qed.

Lemma land_mask_range sum : 0 <= Z.land sum groNBucketsMask < groNBuckets.
Proof.
  change groNBucketsMask with (Z.ones 3). rewrite Z.land_ones by lia.
  change groNBuckets with (2 ^ 3). apply Z.mod_pos_bound. lia.
Qed.

Lemma sumBytes_range acc bs :
  acc <= sumBytes acc bs <= acc + 255 * Z.of_nat (length bs).
Proof.
  unfold sumBytes. revert acc. induction bs as [|b bs IH]; intros acc; simpl.
  - lia.
  - specialize (IH (acc + u8 b)). pose proof (u8_range b). lia.
Qed.

Lemma bucketForPacket_flowOf ipHdr tcpHdr :
  bucketForPacket ipHdr tcpHdr
  = ('(src, dst, sp, dp) ← flowOf ipHdr tcpHdr;
     Done (sumBytes (sumBytes 0 src) dst + sp + dp)).
Proof.
  unfold bucketForPacket, flowOf.
  destruct (header.IPv4.SourceAddress ipHdr); [|done..]. cbn [mbind Res_bind].
  destruct (header.IPv4.DestinationAddress ipHdr); [|done..].
  cbn [mbind Res_bind].
  destruct (header.TCP.SourcePort tcpHdr); [|done..]. cbn [mbind Res_bind].
  destruct (header.TCP.DestinationPort tcpHdr); done.
Qed.

(** X4. [dispatch] always finds the bucket of a packet that passed its
    filters: the sum of the address bytes and the two ports can be read, it
    is between 0 and 133110, so that it does not wrap around in an [int],
    and masked with [groNBucketsMask] it is the index of one of the
    [groNBuckets] buckets of every state reached from [init]. *)
Theorem dispatch_bucket_exists chk gd p netProto s :
  reachable chk gd ->
  parseSegment chk p netProto = Done (Some s) ->
  exists sum gb,
    bucketForPacket (seg_ipHdr s) (seg_tcpHdr s) = Done sum /\
    0 <= sum <= 133110 /\
    0 <= Z.land sum groNBucketsMask < groNBuckets /\
    index (gd_buckets gd) (Z.land sum groNBucketsMask) = Done gb /\
    gb ∈ gd_buckets gd.
Proof.
  intros Hr Hs.
  apply parseSegment_Some in Hs
    as (_ & _ & _ & _ & _ & Hoff & Hsize & Hip & Htcp & _).
  unfold header.IPv4MinimumSize, header.TCPMinimumSize in *.
  destruct (pulled_reads p 40) as [Hlen _]; [lia|].
  assert (Hlt : length (seg_tcpHdr s) = Z.to_nat (seg_dataOff s)).
  { rewrite Htcp, length_take, length_drop. unfold Size in Hsize. lia. }
  rewrite <- Hip in Hlen.
  assert (Hsrc : exists a, header.IPv4.SourceAddress (seg_ipHdr s) = Done a /\
                           length a = 4%nat).
  { unfold header.IPv4.SourceAddress, slice. rewrite Hlen.
    cbn [Nat.ltb Nat.leb]. eexists. split; [reflexivity|].
    rewrite length_take, length_drop. lia. }
  assert (Hdst : exists b,
             header.IPv4.DestinationAddress (seg_ipHdr s) = Done b /\
             length b = 4%nat).
  { unfold header.IPv4.DestinationAddress, slice. rewrite Hlen.
    cbn [Nat.ltb Nat.leb]. eexists. split; [reflexivity|].
    rewrite length_take, length_drop. lia. }
  destruct Hsrc as (a & Ha & Hla). destruct Hdst as (b & Hb & Hlb).
  assert (Hport : forall off, (off < 4)%nat ->
             exists v, Uint16 (seg_tcpHdr s) off = Done v /\ 0 <= v < 65536).
  { intros off Ho. unfold Uint16.
    destruct (at__lt (seg_tcpHdr s) off) as [hi Hhi]; [lia|].
    destruct (at__lt (seg_tcpHdr s) (S off)) as [lo Hlo]; [lia|].
    exists (hi * 256 + lo). rewrite Hhi, Hlo. split; [done|].
    apply at__Done in Hhi, Hlo. lia. }
  destruct (Hport 0%nat) as (sp & Hsp & Hspr); [lia|].
  destruct (Hport 2%nat) as (dp & Hdp & Hdpr); [lia|].
  exists (sumBytes (sumBytes 0 a) b + sp + dp).
  pose proof (land_mask_range (sumBytes (sumBytes 0 a) b + sp + dp)) as Hm.
  destruct (index_returns (gd_buckets gd)
              (Z.land (sumBytes (sumBytes 0 a) b + sp + dp) groNBucketsMask))
    as [gb Hgb].
  { rewrite (reachable_nbuckets chk gd Hr). unfold groNBuckets in *. lia. }
  exists gb. split.
  { unfold bucketForPacket, header.TCP.SourcePort, header.TCP.DestinationPort.
    rewrite Ha, Hb, Hsp, Hdp. done. }
  split.
  { pose proof (sumBytes_range 0 a). pose proof (sumBytes_range (sumBytes 0 a) b).
    lia. }
  split; [exact Hm|]. split; [exact Hgb|].
  apply index_Done in Hgb as [_ Hgb]. by eapply list_elem_of_lookup_2.
Qed.

Lemma dispatch_bucket_exists_witness :
  exists s sum gb,
    parseSegment noChecks segA header.IPv4ProtocolNumber = Done (Some s) /\
    bucketForPacket (seg_ipHdr s) (seg_tcpHdr s) = Done sum /\
    0 <= sum <= 133110 /\
    0 <= Z.land sum groNBucketsMask < groNBuckets /\
    index (gd_buckets (init 10000000)) (Z.land sum groNBucketsMask) = Done gb /\
    gb ∈ gd_buckets (init 10000000).
Proof.
  set (s := mkSegment segA (ipHdrOf segA) (tcpHdrOf segA) 20 1460).
  assert (H : parseSegment noChecks segA header.IPv4ProtocolNumber
              = Done (Some s)) by (vm_compute; reflexivity).
  exists s.
  destruct (dispatch_bucket_exists noChecks (init 10000000) segA
              header.IPv4ProtocolNumber s (reachable_init _ _ _) H)
    as (sum & gb & Hres).
  exists sum, gb. split; [exact H|exact Hres].
Defined.

Lemma inOwnBucket_keeps i gb gb' :
  inOwnBucket i gb -> keeps gb gb' -> inOwnBucket i gb'.
Proof.
  intros H Hk k y sum Hy Hsum.
  destruct (Hk k y Hy) as [[l ->]|(x & Hx & [l ->])].
  - discriminate.
  - by eapply H.
Qed.

Lemma dispatchBucket_inOwnBucket fuel gb pkt ipHdr tcpHdr dataOff
    tcpPayloadSize ep mtu now gb' out sum :
  inOwnBucket (Z.to_nat (Z.land sum groNBucketsMask)) gb ->
  bucketForPacket ipHdr tcpHdr = Done sum ->
  dispatchBucket fuel gb pkt ipHdr tcpHdr dataOff tcpPayloadSize ep mtu now
  = Done (gb', out) ->
  inOwnBucket (Z.to_nat (Z.land sum groNBucketsMask)) gb'.
Proof.
  unfold dispatchBucket. intros Hin Hsum H.
  apply bind_Done in H as ([groPkt fl] & Hfind & H).
  apply bind_Done in H as (flags & Hflags & H).
  apply bind_Done in H as ([[gb1 groPkt1] out1] & Hfm & H).
  apply bind_Done in H as (tl & Htl & H).
  assert (Hin1 : inOwnBucket (Z.to_nat (Z.land sum groNBucketsMask)) gb1).
  { unfold flushOrMerge in Hfm.
    destruct fl; destruct groPkt as [g|]; try discriminate.
    - apply bind_Done in Hfm as (x & Hx & Hfm).
      apply bind_Done in Hfm as (o & Ho & Hfm).
      apply bind_Done in Hfm as (gb2 & Hr & Hfm). injection Hfm as <- <- <-.
      eapply inOwnBucket_keeps; [exact Hin|by eapply removeOne_keeps].
    - apply bind_Done in Hfm as (gb2 & Hm & Hfm). injection Hfm as <- <- <-.
      apply mergeInto_spec in Hm as (x & x' & Hx & -> & _ & Hfl).
      intros k y sum' Hy Hsum'. cbn [gb_packetsPrealloc] in Hy.
      destruct (decide (k = g)) as [->|Hne].
      + rewrite list_lookup_insert_eq in Hy by (by eapply lookup_lt_Some).
        injection Hy as <-. apply (Hin g x sum' Hx).
        rewrite bucketForPacket_flowOf in *. unfold flow in Hfl.
        by rewrite <- Hfl.
      + rewrite list_lookup_insert_ne in Hy by done. by eapply Hin.
    - by injection Hfm as <- <- <-. }
  unfold applyFlush in H.
  destruct (flushDecision tl flags mtu); destruct groPkt1 as [g|].
  - apply bind_Done in H as (x & Hx & H).
    apply bind_Done in H as (o & Ho & H).
    apply bind_Done in H as (gb2 & Hr & H). injection H as <- <-.
    eapply inOwnBucket_keeps; [exact Hin1|by eapply removeOne_keeps].
  - apply bind_Done in H as (o & Ho & H). by injection H as <- <-.
  - by injection H as <- <-.
  - apply bind_Done in H as ([gb2 out2] & Hf & H).
    apply bind_Done in H as (gb3 & Hi & H). injection H as <- <-.
    assert (Hin2 : inOwnBucket (Z.to_nat (Z.land sum groNBucketsMask)) gb2).
    { destruct (full gb1).
      - apply bind_Done in Hf as ([gb4 oldest] & Hro & Hf).
        apply bind_Done in Hf as (o & Ho & Hf). injection Hf as <- <-.
        eapply inOwnBucket_keeps; [exact Hin1|by eapply removeOldest_keeps].
      - by injection Hf as <- <-. }
    apply insert_spec in Hi as (s & _ & _ & [l Hs] & Hother & _).
    intros k y sum' Hy Hsum'.
    destruct (decide (k = s)) as [->|Hne].
    + rewrite Hs in Hy. injection Hy as <-. cbn in Hsum'. congruence.
    + destruct (Hother k y Hne Hy) as (x & l0 & Hx & ->).
      by eapply Hin2.
Qed.

(** X5. In every state reached from [init], an entry is only ever held in
    the bucket that [dispatch] searches for its flow: the index that
    [bucketForPacket] gives for the stored headers of any slot of the
    [i]-th bucket is [i]. *)
Theorem staged_in_own_bucket chk gd i gb k x sum :
  reachable chk gd ->
  gd_buckets gd !! i = Some gb ->
  gb_packetsPrealloc gb !! k = Some x ->
  bucketForPacket (pk_ipHdr x) (pk_tcpHdr x) = Done sum ->
  Z.land sum groNBucketsMask = Z.of_nat i.
Proof.
  intros Hr Hgb Hx Hsum.
  destruct (reachable_indexed chk inOwnBucket) with (gd := gd) as [_ H];
    [| | |exact Hr|].
  - intros j k0 x0 sum0 Hx0 Hs0. exfalso.
    cbn in Hx0. rewrite list_lookup_imap in Hx0.
    destruct (replicate _ _ !! k0) as [z|] eqn:Hz; [|discriminate].
    apply lookup_replicate in Hz as [-> _]. injection Hx0 as <-.
    discriminate.
  - intros. by eapply dispatchBucket_inOwnBucket.
  - intros j gb0 g gb1 H0 Hrm.
    eapply inOwnBucket_keeps; [exact H0|by eapply removeOne_keeps].
  - pose proof (H i gb Hgb k x sum Hx Hsum) as E.
    pose proof (land_mask_range sum). lia.
Qed.

Lemma staged_in_own_bucket_witness :
  exists x sum,
    gb_packetsPrealloc (bucketOf (stateAfter [arrive segA 100]) 7) !! 0%nat
    = Some x /\
    bucketForPacket (pk_ipHdr x) (pk_tcpHdr x) = Done sum /\
    Z.land sum groNBucketsMask = 7.
Proof.
  set (gd := stateAfter [arrive segA 100]).
  assert (Hr : reachable noChecks gd).
  { apply stateAfter_reachable; [by apply Forall_true|].
    eexists. vm_compute. reflexivity. }
  set (x := default groPacket_zero
              (gb_packetsPrealloc (bucketOf gd 7) !! 0%nat)).
  assert (Hgb : gd_buckets gd !! 7%nat = Some (bucketOf gd 7))
    by (vm_compute; reflexivity).
  assert (Hx : gb_packetsPrealloc (bucketOf gd 7) !! 0%nat = Some x)
    by (vm_compute; reflexivity).
  assert (Hsum : bucketForPacket (pk_ipHdr x) (pk_tcpHdr x) = Done 1103)
    by (vm_compute; reflexivity).
  exists x, 1103. split; [exact Hx|]. split; [exact Hsum|].
  exact (staged_in_own_bucket noChecks gd 7 _ 0 x 1103 Hr Hgb Hx Hsum).
Defined.
(** ** The lookup of a flow *)

Lemma reachable_oneEntryPerFlow chk gd gb :
  reachable chk gd -> gb ∈ gd_buckets gd -> oneEntryPerFlow gb.
Proof.
  intros Hr Hgb.
  assert (Hall : Forall oneEntryPerFlow (gd_buckets gd)).
  { eapply (reachable_buckets chk (fun _ => True) (fun _ => True)
              oneEntryPerFlow); [done| | | |exact Hr].
    - intros i0 j0 x0 y0 t0 Hi. by apply init_bucket_empty in Hi.
    - intros. by eapply dispatchBucket_oneEntryPerFlow.
    - intros gb0 g gb1 H0 Hg Hrm.
      apply removeOne_spec in Hrm as (Hs & _); [|done].
      by eapply oneEntryPerFlow_shrinks. }
  rewrite Forall_forall in Hall. by apply Hall.
Qed.

(** X6. In every state reached from [init], a lookup that returns finds the
    entry of the flow if and only if there is one: it answers nil exactly
    when no entry of the list has the addresses and ports of the headers,
    and it answers the slot [g] exactly when [g] is in the list and holds
    an entry with these addresses and ports. *)
Theorem findGROPacket_complete chk gd gb fuel ipHdr tcpHdr t r f :
  reachable chk gd -> gb ∈ gd_buckets gd ->
  flowOf ipHdr tcpHdr = Done t ->
  findGROPacket fuel gb ipHdr tcpHdr = Done (r, f) ->
  (r = None <-> noFlow t gb) /\
  (forall g,
     r = Some g <->
     staged gb g /\
     exists x, gb_packetsPrealloc gb !! g = Some x /\ flow x = Done t).
Proof.
  intros Hr Hgb Ht Hfind.
  pose proof (reachable_oneEntryPerFlow chk gd gb Hr Hgb) as Hone.
  destruct r as [g0|].
  - destruct (findGROPacket_some_flow _ _ _ _ _ _ _ Hfind Ht)
      as (Hg0 & x0 & Hx0 & Hf0).
    split.
    + split; [discriminate|]. intros Hno. exfalso.
      by apply (Hno g0 x0).
    + intros g. split.
      * intros [= <-]. split; [done|]. by exists x0.
      * intros (Hg & x & Hx & Hf).
        destruct (decide (g0 = g)) as [->|Hne]; [done|]. exfalso.
        by apply (Hone g0 g x0 x t).
  - pose proof (findGROPacket_none_noFlow _ _ _ _ _ _ Hfind Ht) as Hno.
    split; [done|]. intros g. split; [discriminate|].
    intros (Hg & x & Hx & Hf). exfalso. by apply (Hno g x).
Qed.

Lemma findGROPacket_complete_witness :
  exists t,
    flowOf (ipHdrOf segA2) (tcpHdrOf segA2) = Done t /\
    findGROPacket 16 (bucketOf (stateAfter [arrive segA 100]) 7)
      (ipHdrOf segA2) (tcpHdrOf segA2) = Done (Some 0%nat, false) /\
    ~ noFlow t (bucketOf (stateAfter [arrive segA 100]) 7).
Proof.
  set (gd := stateAfter [arrive segA 100]).
  assert (Hr : reachable noChecks gd).
  { apply stateAfter_reachable; [by apply Forall_true|].
    eexists. vm_compute. reflexivity. }
  assert (Hin : bucketOf gd 7 ∈ gd_buckets gd).
  { apply (list_elem_of_lookup_2 _ 7%nat). vm_compute. reflexivity. }
  set (t := match flowOf (ipHdrOf segA2) (tcpHdrOf segA2) with
            | Done t => t
            | _ => ([], [], 0, 0)
            end).
  assert (Ht : flowOf (ipHdrOf segA2) (tcpHdrOf segA2) = Done t)
    by (vm_compute; reflexivity).
  assert (Hfind : findGROPacket 16 (bucketOf gd 7) (ipHdrOf segA2)
                    (tcpHdrOf segA2) = Done (Some 0%nat, false))
    by (vm_compute; reflexivity).
  exists t. split; [exact Ht|]. split; [exact Hfind|].
  destruct (findGROPacket_complete noChecks gd _ _ _ _ t _ _ Hr Hin Ht Hfind)
    as [Hnone _].
  intros Hno. apply Hnone in Hno. discriminate.
Defined.
(** ** Insertion and lookup *)

Lemma findGROPacket_body_with_entry ipHdr tcpHdr x l :
  findGROPacket_body ipHdr tcpHdr (with_entry x l)
  = findGROPacket_body ipHdr tcpHdr x.
Proof. by destruct x. Qed.

(** The links after [PushBack]: the old tail points to the new element,
    the new element points nowhere, every other link is as before. *)
Lemma PushBack_links l mem e l' mem' :
  PushBack l mem e = Done (l', mem') ->
  l_tail l' = Some e /\
  l_head l' = match l_tail l with Some _ => l_head l | None => Some e end /\
  length mem' = length mem /\
  forall k y, mem' !! k = Some y ->
    exists x, mem !! k = Some x /\ samePayload x y /\
      next (pk_entry y)
      = if decide (l_tail l = Some k) then Some e
        else if decide (k = e) then None else next (pk_entry x).
Proof.
  intros H. pose proof (PushBack_length _ _ _ _ _ H) as Hlen.
  unfold PushBack in H.
  apply bind_Done in H as (mem1 & H1 & H).
  apply bind_Done in H as (mem2 & H2 & H).
  unfold SetNext in H1. apply bind_Done in H1 as (x1 & Hx1 & H1).
  apply deref_Done in Hx1. injection H1 as <-.
  unfold SetPrev in H2. apply bind_Done in H2 as (x2 & Hx2 & H2).
  apply deref_Done in Hx2. injection H2 as <-.
  rewrite list_lookup_insert_eq in Hx2 by (by eapply lookup_lt_Some).
  injection Hx2 as <-. rewrite list_insert_insert_eq in H.
  cbn [with_entry pk_entry next prev pk_pkt pk_ipHdr pk_tcpHdr pk_created
         pk_ep pk_idx] in H.
  set (new := mkGroPacket (mkEntry None (l_tail l)) (pk_pkt x1) (pk_ipHdr x1)
                (pk_tcpHdr x1) (pk_created x1) (pk_ep x1) (pk_idx x1)) in *.
  assert (Hnew : samePayload x1 new) by (by eexists).
  destruct (l_tail l) as [t|] eqn:Ht.
  - apply bind_Done in H as (mem3 & H3 & H). injection H as <- <-.
    unfold SetNext in H3. apply bind_Done in H3 as (x3 & Hx3 & H3).
    apply deref_Done in Hx3. injection H3 as <-.
    split; [done|]. split; [done|]. split; [done|].
    intros k y Hy.
    destruct (decide (k = t)) as [->|Hkt].
    + rewrite list_lookup_insert_eq in Hy by (by eapply lookup_lt_Some).
      injection Hy as <-.
      destruct (decide (t = e)) as [->|Hte].
      * rewrite list_lookup_insert_eq in Hx3 by (by eapply lookup_lt_Some).
        injection Hx3 as <-. exists x1. split; [done|].
        split; [by eexists|]. by rewrite decide_True.
      * rewrite list_lookup_insert_ne in Hx3 by done.
        exists x3. split; [done|]. split; [by eexists|].
        by rewrite decide_True.
    + rewrite list_lookup_insert_ne in Hy by done.
      destruct (decide (k = e)) as [->|Hke].
      * rewrite list_lookup_insert_eq in Hy by (by eapply lookup_lt_Some).
        injection Hy as <-. exists x1. split; [done|]. split; [done|].
        by rewrite decide_False by congruence.
      * rewrite list_lookup_insert_ne in Hy by done.
        exists y. split; [done|]. split; [apply samePayload_refl|].
        by rewrite decide_False by congruence.
  - injection H as <- <-. split; [done|]. split; [done|].
    split; [by rewrite length_insert|].
    intros k y Hy.
    destruct (decide (k = e)) as [->|Hke].
    + rewrite list_lookup_insert_eq in Hy by (by eapply lookup_lt_Some).
      injection Hy as <-. exists x1. split; [done|]. split; [done|].
      by rewrite decide_False by done.
    + rewrite list_lookup_insert_ne in Hy by done.
      exists y. split; [done|]. split; [apply samePayload_refl|].
      by rewrite decide_False by done.
Qed.

(** The lookup after an element [s] has been written and appended: it
    walks the old list as before and ends on [s]. *)
Lemma find_after_push fuel gb gb' ipHdr tcpHdr s t new f cur :
  (forall k y, gb_packetsPrealloc gb' !! k = Some y ->
     exists x, <[s := new]> (gb_packetsPrealloc gb) !! k = Some x /\
       samePayload x y /\
       next (pk_entry y)
       = if decide (Some t = Some k) then Some s
         else if decide (k = s) then None else next (pk_entry x)) ->
  length (gb_packetsPrealloc gb') = length (gb_packetsPrealloc gb) ->
  (s < length (gb_packetsPrealloc gb))%nat ->
  findGROPacket_body ipHdr tcpHdr new = Done (Some f) ->
  linked (gb_packetsPrealloc gb) cur t ->
  findGROPacket_from fuel gb ipHdr tcpHdr cur = Done (None, false) ->
  findGROPacket_from (S fuel) gb' ipHdr tcpHdr cur = Done (Some s, f).
Proof.
  intros Hrel Hlen Hs Hnew.
  assert (Hat : forall k, (k < length (gb_packetsPrealloc gb))%nat ->
            exists y, gb_packetsPrealloc gb' !! k = Some y).
  { intros k Hk. apply lookup_lt_is_Some_2. lia. }
  assert (Hfound : forall n, findGROPacket_from (S n) gb' ipHdr tcpHdr (Some s)
                             = Done (Some s, f)).
  { intros n. destruct (Hat s Hs) as [y Hy].
    destruct (Hrel s y Hy) as (x & Hx & [l ->] & _).
    rewrite list_lookup_insert_eq in Hx by done. injection Hx as <-.
    cbn [findGROPacket_from]. rewrite (proj2 (deref_Done _ _ _) Hy).
    cbn [mbind Res_bind]. rewrite findGROPacket_body_with_entry, Hnew. done. }
  revert cur. induction fuel as [|fuel IH]; intros cur Hlink H.
  - destruct cur as [c|]; [discriminate|]. inversion Hlink.
  - destruct cur as [c|]; [|inversion Hlink].
    destruct (decide (c = s)) as [->|Hcs]; [apply Hfound|].
    cbn [findGROPacket_from] in H.
    apply bind_Done in H as (x & Hx & H). apply deref_Done in Hx.
    apply bind_Done in H as (r & Hr & H).
    destruct r as [f0|]; [discriminate|].
    destruct (Hat c) as [y Hy]; [by eapply lookup_lt_Some|].
    destruct (Hrel c y Hy) as (x' & Hx' & [l ->] & Hnext).
    rewrite list_lookup_insert_ne in Hx' by done.
    assert (x' = x) as -> by congruence.
    change (findGROPacket_from (S (S fuel)) gb' ipHdr tcpHdr (Some c))
      with (x0 ← deref (gb_packetsPrealloc gb') c;
            r0 ← findGROPacket_body ipHdr tcpHdr x0;
            match r0 with
            | Some f1 => Done (Some c, f1)
            | None =>
                findGROPacket_from (S fuel) gb' ipHdr tcpHdr
                  (next (pk_entry x0))
            end).
    rewrite (proj2 (deref_Done _ _ _) Hy). cbn [mbind Res_bind].
    rewrite findGROPacket_body_with_entry, Hr. cbn [mbind Res_bind].
    rewrite Hnext.
    destruct (decide (Some t = Some c)) as [E|Hne]; [apply Hfound|].
    rewrite decide_False by done. apply IH; [|exact H].
    inversion Hlink as [|? x1 ? Hx1 Hl1]; subst; [done|].
    assert (x1 = x) as -> by congruence. exact Hl1.
Qed.

(** X7. An entry that [insert] has staged is found by the next lookup of
    its flow. When the lookup found no entry for the headers, and the tail
    of the list is in the list, then after [insert] has staged the packet
    with these headers the lookup returns the slot that [insert] wrote, the
    new tail, within one more iteration. *)
Theorem insert_then_find fuel gb pkt ipHdr tcpHdr ep now gb' c :
  fields ipHdr tcpHdr = Done c ->
  findGROPacket fuel gb ipHdr tcpHdr = Done (None, false) ->
  (forall t, l_tail (gb_packets gb) = Some t -> staged gb t) ->
  insert gb (Some pkt) ipHdr tcpHdr ep now = Done gb' ->
  exists s f l,
    l_tail (gb_packets gb') = Some s /\
    gb_packetsPrealloc gb' !! s
    = Some (mkGroPacket l (Some pkt) ipHdr tcpHdr now ep 0) /\
    findGROPacket (S fuel) gb' ipHdr tcpHdr = Done (Some s, f).
Proof.
  intros Hc Hfind Htail Hins.
  pose proof Hins as Hspec.
  apply insert_spec in Hspec as (s & _ & _ & [l Hs] & _ & _ & Ht & _).
  unfold insert in Hins.
  apply bind_Done in Hins as (i & Hi & Hins).
  apply bind_Done in Hins as (old & Hold & Hins).
  apply bind_Done in Hins as ([l1 mem'] & HP & Hins). injection Hins as <-.
  cbn [gb_packets gb_packetsPrealloc l_tail] in *.
  apply index_Done in Hold as [Hi0 Hold].
  set (new := mkGroPacket (mkEntry None None) (Some pkt) ipHdr tcpHdr now ep 0)
    in *.
  apply PushBack_links in HP as (Ht' & Hh' & Hlen & Hrel).
  rewrite length_insert in Hlen.
  assert (s = Z.to_nat i) as -> by congruence.
  assert (Hnew : exists f, findGROPacket_body ipHdr tcpHdr new = Done (Some f)).
  { rewrite (findGROPacket_body_classify ipHdr tcpHdr new c c pkt Hc Hc eq_refl).
    unfold classify.
    rewrite !bool_decide_eq_false_2 by (intros E; by apply E).
    assert (forall z, neqb z z = false) as Hz by (intros z; by apply neqb_false).
    rewrite !Hz. cbn [orb]. repeat destruct (_ || _); repeat destruct (_ <=? _);
      repeat destruct (bool_decide _); eauto. }
  destruct Hnew as [f Hnew].
  exists (Z.to_nat i), f, l. split; [done|]. split; [done|].
  unfold findGROPacket, Front in *. cbn [gb_packets].
  destruct (l_tail (gb_packets gb)) as [t|] eqn:Et.
  - rewrite Hh'.
    eapply (find_after_push fuel gb _ ipHdr tcpHdr (Z.to_nat i) t new f);
      [|done| |done| |exact Hfind].
    + intros k y Hy. cbn [gb_packetsPrealloc] in Hy.
      destruct (Hrel k y Hy) as (x & Hx & Hsp & Hn).
      exists x. split; [done|]. split; [done|]. rewrite Hn.
      destruct (decide (Some t = Some k)); done.
    + by eapply lookup_lt_Some.
    + by apply Htail.
  - rewrite Hh'. cbn [findGROPacket_from].
    destruct (lookup_lt_is_Some_2 mem' (Z.to_nat i)) as [y Hy].
    { rewrite Hlen. by eapply lookup_lt_Some. }
    destruct (Hrel _ _ Hy) as (x & Hx & [l0 ->] & _).
    rewrite list_lookup_insert_eq in Hx by (by eapply lookup_lt_Some).
    injection Hx as <-. cbn [gb_packetsPrealloc].
    rewrite (proj2 (deref_Done _ _ _) Hy). cbn [mbind Res_bind].
    rewrite findGROPacket_body_with_entry, Hnew. done.
Qed.

Lemma insert_then_find_witness :
  exists c gb' s f l,
    fields (ipHdrOf segB) (tcpHdrOf segB) = Done c /\
    findGROPacket 16 (bucketOf (stateAfter [arrive segA 100]) 7)
      (ipHdrOf segB) (tcpHdrOf segB) = Done (None, false) /\
    insert (bucketOf (stateAfter [arrive segA 100]) 7) (Some (IncRef segB))
      (ipHdrOf segB) (tcpHdrOf segB) (Some 1%nat) 101 = Done gb' /\
    l_tail (gb_packets gb') = Some s /\
    gb_packetsPrealloc gb' !! s
    = Some (mkGroPacket l (Some (IncRef segB)) (ipHdrOf segB) (tcpHdrOf segB)
              101 (Some 1%nat) 0) /\
    findGROPacket 17 gb' (ipHdrOf segB) (tcpHdrOf segB) = Done (Some s, f).
Proof.
  set (gb := bucketOf (stateAfter [arrive segA 100]) 7).
  set (c := match fields (ipHdrOf segB) (tcpHdrOf segB) with
            | Done c => c
            | _ => mkFields [] [] 0 0 0 0 0 0 0 0 0 []
            end).
  assert (Hc : fields (ipHdrOf segB) (tcpHdrOf segB) = Done c)
    by (vm_compute; reflexivity).
  assert (Hfind : findGROPacket 16 gb (ipHdrOf segB) (tcpHdrOf segB)
                  = Done (None, false)) by (vm_compute; reflexivity).
  assert (Htail : forall t, l_tail (gb_packets gb) = Some t -> staged gb t).
  { intros t Ht. assert (E : l_tail (gb_packets gb) = Some 0%nat)
      by (vm_compute; reflexivity).
    rewrite E in Ht. injection Ht as <-.
    assert (Hh : Front (gb_packets gb) = Some 0%nat)
      by (vm_compute; reflexivity).
    by apply staged_head. }
  set (gb' := match insert gb (Some (IncRef segB)) (ipHdrOf segB)
                      (tcpHdrOf segB) (Some 1%nat) 101 with
              | Done g => g
              | _ => gb
              end).
  assert (Hins : insert gb (Some (IncRef segB)) (ipHdrOf segB) (tcpHdrOf segB)
                   (Some 1%nat) 101 = Done gb') by (vm_compute; reflexivity).
  destruct (insert_then_find 16 gb (IncRef segB) (ipHdrOf segB)
              (tcpHdrOf segB) (Some 1%nat) 101 gb' c Hc Hfind Htail Hins)
    as (s & f & l & H1 & H2 & H3).
  exists c, gb', s, f, l.
  exact (conj Hc (conj Hfind (conj Hins (conj H1 (conj H2 H3))))).
Defined.

(** ** The free-slot stack *)

(** What a merge leaves of the entry: the links, the time stamp, the
    endpoint and the index, and the reference count and the checksum mark of
    the packet. *)
Lemma mergeInto_fields gb g pkt dataOff flags tcpPayloadSize gb' :
  mergeInto gb g pkt dataOff flags tcpPayloadSize = Done gb' ->
  exists x p x' p',
    gb_packetsPrealloc gb !! g = Some x /\ pk_pkt x = Some p /\
    gb' = mkBucket (gb_count gb) (gb_packets gb)
            (<[g := x']> (gb_packetsPrealloc gb)) (gb_allocIdxs gb) /\
    pk_pkt x' = Some p' /\
    pk_entry x' = pk_entry x /\ pk_created x' = pk_created x /\
    pk_ep x' = pk_ep x /\ pk_idx x' = pk_idx x /\
    pb_refs p' = pb_refs p /\
    pb_RXChecksumValidated p' = pb_RXChecksumValidated p.
Proof.
  unfold mergeInto. intros H.
  apply bind_Done in H as (x & Hx & H). apply deref_Done in Hx.
  destruct (pk_pkt x) as [staged|] eqn:Hp; [|discriminate].
  apply bind_Done in H as (groFlags & Hgf & H).
  apply bind_Done in H as (tcpHdr' & Htcp & H).
  apply bind_Done in H as (tl & Htl & H).
  apply bind_Done in H as (ipHdr' & Hip & H).
  injection H as <-. eexists x, staged, _, _.
  split; [done|]. split; [done|]. split; [reflexivity|]. done.
Qed.

(** What [dispatch] does to the slots of a bucket, for a property of one
    slot that relinking a slot keeps. *)
Lemma dispatchBucket_Forall (Q : groPacket -> Prop) fuel gb pkt ipHdr tcpHdr
    dataOff tcpPayloadSize ep mtu now gb' out :
  Q groPacket_zero ->
  (forall x l, Q x -> Q (with_entry x l)) ->
  (forall gb0 g flags gb1 x x',
     mergeInto gb0 g pkt dataOff flags tcpPayloadSize = Done gb1 ->
     gb_packetsPrealloc gb0 !! g = Some x ->
     gb_packetsPrealloc gb1 !! g = Some x' -> Q x -> Q x') ->
  (forall l, Q (mkGroPacket l (Some (IncRef pkt)) ipHdr tcpHdr now ep 0)) ->
  Forall Q (gb_packetsPrealloc gb) ->
  dispatchBucket fuel gb pkt ipHdr tcpHdr dataOff tcpPayloadSize ep mtu now
  = Done (gb', out) ->
  Forall Q (gb_packetsPrealloc gb').
Proof.
  intros Hz Hl Hm Hn Hall H.
  assert (Hk : forall gb0 gb1,
             Forall Q (gb_packetsPrealloc gb0) -> keeps gb0 gb1 ->
             Forall Q (gb_packetsPrealloc gb1)).
  { intros gb0 gb1 H0 Hkeeps. apply Forall_lookup. intros k y Hy.
    destruct (Hkeeps k y Hy) as [[l ->]|(x & Hx & [l ->])].
    - by apply Hl.
    - apply Hl. by eapply Forall_lookup_1. }
  unfold dispatchBucket in H.
  apply bind_Done in H as ([groPkt fl] & Hfind & H).
  apply bind_Done in H as (flags & Hflags & H).
  apply bind_Done in H as ([[gb1 groPkt1] out1] & Hfm & H).
  apply bind_Done in H as (tl & Htl & H).
  assert (Hall1 : Forall Q (gb_packetsPrealloc gb1)).
  { unfold flushOrMerge in Hfm.
    destruct fl; destruct groPkt as [g|]; try discriminate.
    - apply bind_Done in Hfm as (x & Hx & Hfm).
      apply bind_Done in Hfm as (o & Ho & Hfm).
      apply bind_Done in Hfm as (gb2 & Hr & Hfm). injection Hfm as <- <- <-.
      eapply Hk; [exact Hall|by eapply removeOne_keeps].
    - apply bind_Done in Hfm as (gb2 & Hmerge & Hfm).
      injection Hfm as <- <- <-.
      pose proof Hmerge as Hf.
      apply mergeInto_fields in Hf as (x & p & x' & p' & Hx & _ & E & _).
      assert (Hx' : gb_packetsPrealloc gb2 !! g = Some x').
      { rewrite E. cbn. apply list_lookup_insert_eq. by eapply lookup_lt_Some. }
      rewrite E. cbn. apply Forall_insert; [done|].
      eapply Hm; [exact Hmerge|exact Hx|exact Hx'|].
      by eapply Forall_lookup_1.
    - by injection Hfm as <- <- <-. }
  unfold applyFlush in H.
  destruct (flushDecision tl flags mtu); destruct groPkt1 as [g|].
  - apply bind_Done in H as (x & Hx & H).
    apply bind_Done in H as (o & Ho & H).
    apply bind_Done in H as (gb2 & Hr & H). injection H as <- <-.
    eapply Hk; [exact Hall1|by eapply removeOne_keeps].
  - apply bind_Done in H as (o & Ho & H). by injection H as <- <-.
  - by injection H as <- <-.
  - apply bind_Done in H as ([gb2 out2] & Hf & H).
    apply bind_Done in H as (gb3 & Hi & H). injection H as <- <-.
    assert (Hall2 : Forall Q (gb_packetsPrealloc gb2)).
    { destruct (full gb1).
      - apply bind_Done in Hf as ([gb4 oldest] & Hro & Hf).
        apply bind_Done in Hf as (o & Ho & Hf). injection Hf as <- <-.
        eapply Hk; [exact Hall1|by eapply removeOldest_keeps].
      - by injection Hf as <- <-. }
    apply insert_spec in Hi as (s & _ & _ & [l Hs] & Hother & _).
    apply Forall_lookup. intros k y Hy.
    destruct (decide (k = s)) as [->|Hne].
    + rewrite Hs in Hy. injection Hy as <-. apply Hn.
    + destruct (Hother k y Hne Hy) as (x & l0 & Hx & ->).
      apply Hl. by eapply Forall_lookup_1.
Qed.

Lemma reachable_idx_zero chk gd gb :
  reachable chk gd -> gb ∈ gd_buckets gd ->
  Forall (fun x => pk_pkt x <> None -> pk_idx x = 0) (gb_packetsPrealloc gb).
Proof.
  intros Hr Hgb.
  set (Q := fun x => pk_pkt x <> None -> pk_idx x = 0).
  assert (Hkeeps : forall gb0 gb1,
             Forall Q (gb_packetsPrealloc gb0) -> keeps gb0 gb1 ->
             Forall Q (gb_packetsPrealloc gb1)).
  { intros gb0 gb1 H0 Hk. apply Forall_lookup. intros k y Hy.
    destruct (Hk k y Hy) as [[l ->]|(x & Hx & [l ->])].
    - intros H. by destruct H.
    - apply (Forall_lookup_1 _ _ _ _ H0 Hx). }
  assert (Hall : Forall (fun gb => Forall Q (gb_packetsPrealloc gb))
                   (gd_buckets gd)).
  { eapply (reachable_buckets chk (fun _ => True) (fun _ => True));
      [done| | | |exact Hr].
    - cbn. repeat constructor; intros H; by destruct H.
    - intros fuel gb0 s ep mtu now gb1 out t H0 _ _ Hd.
      eapply (dispatchBucket_Forall Q); [| | | |exact H0|exact Hd].
      + intros H. by destruct H.
      + intros x l Hx. exact Hx.
      + intros gb2 g flags gb3 x x' Hm Hx Hx' HQ _.
        apply mergeInto_fields in Hm
          as (x0 & p & x1 & p' & Hx0 & Hp & -> & _ & _ & _ & _ & Hidx & _).
        cbn in Hx'.
        rewrite list_lookup_insert_eq in Hx' by (by eapply lookup_lt_Some).
        injection Hx' as <-. assert (x0 = x) as -> by congruence.
        rewrite Hidx. apply HQ. by rewrite Hp.
      + intros l _. done.
    - intros gb0 g gb1 H0 _ Hrm. eapply Hkeeps; [exact H0|].
      by eapply removeOne_keeps. }
  rewrite Forall_forall in Hall. by apply Hall.
Qed.

(** X8. In every state reached from [init], the index that [removeOne]
    gives back to the free-slot stack for a slot that holds a packet is 0,
    whichever slot it is: [insert] has reset the [idx] of the slot when it
    wrote the entry. The next [insert] therefore takes slot 0. *)
Theorem freed_index_is_zero chk gd gb g x gb' :
  reachable chk gd -> gb ∈ gd_buckets gd ->
  gb_packetsPrealloc gb !! g = Some x -> pk_pkt x <> None ->
  removeOne gb g = Done gb' ->
  gb_count gb' = gb_count gb - 1 /\
  gb_allocIdxs gb' = <[Z.to_nat (gb_count gb - 1) := 0]> (gb_allocIdxs gb) /\
  index (gb_allocIdxs gb') (gb_count gb') = Done 0.
Proof.
  intros Hr Hgb Hx Hp Hrm.
  pose proof (reachable_idx_zero chk gd gb Hr Hgb) as Hall.
  pose proof (Forall_lookup_1 _ _ _ _ Hall Hx Hp) as Hidx.
  unfold removeOne in Hrm.
  apply bind_Done in Hrm as ([l mem] & HR & Hrm).
  apply bind_Done in Hrm as (y & Hy & Hrm). apply deref_Done in Hy.
  apply bind_Done in Hrm as (idxs & Hst & Hrm). injection Hrm as <-.
  destruct (Remove_relinked _ _ _ _ _ _ _ HR Hy) as (x0 & l0 & Hx0 & ->).
  assert (x0 = x) as -> by congruence.
  cbn [with_entry pk_idx] in Hst. rewrite Hidx in Hst.
  cbn [gb_count gb_allocIdxs].
  pose proof Hst as Hst'. apply store_Done in Hst' as ->.
  split; [done|]. split; [done|].
  unfold store in Hst.
  destruct (Z.ltb_spec (gb_count gb - 1) 0); [discriminate|].
  destruct (Z.leb_spec (Z.of_nat (length (gb_allocIdxs gb)))
              (gb_count gb - 1)); [discriminate|].
  unfold index. destruct (Z.ltb_spec (gb_count gb - 1) 0); [lia|].
  rewrite list_lookup_insert_eq by lia. done.
Qed.

Lemma freed_index_is_zero_witness :
  exists gb',
    removeOne (bucketOf (stateAfter [arrive segA 100; arrive segB 101]) 7) 1
    = Done gb' /\
    gb_count gb' = 2 - 1 /\
    gb_allocIdxs gb' = <[Z.to_nat (2 - 1) := 0]> [0; 1; 2; 3; 4; 5; 6; 7] /\
    index (gb_allocIdxs gb') (gb_count gb') = Done 0.
Proof.
  set (gd := stateAfter [arrive segA 100; arrive segB 101]).
  assert (Hr : reachable noChecks gd).
  { apply stateAfter_reachable; [by apply Forall_true|].
    eexists. vm_compute. reflexivity. }
  set (gb := bucketOf gd 7).
  set (x := default groPacket_zero (gb_packetsPrealloc gb !! 1%nat)).
  set (gb' := match removeOne gb 1 with Done r => r | _ => gb end).
  assert (Hgb : gd_buckets gd !! 7%nat = Some gb)
    by (vm_compute; reflexivity).
  assert (Hx : gb_packetsPrealloc gb !! 1%nat = Some x)
    by (vm_compute; reflexivity).
  assert (Hp : pk_pkt x <> None) by (vm_compute; discriminate).
  assert (Hrm : removeOne gb 1 = Done gb') by (vm_compute; reflexivity).
  assert (Hc : gb_count gb = 2) by (vm_compute; reflexivity).
  assert (Hi : gb_allocIdxs gb = [0; 1; 2; 3; 4; 5; 6; 7])
    by (vm_compute; reflexivity).
  exists gb'. split; [exact Hrm|].
  rewrite <- Hi, <- Hc.
  exact (freed_index_is_zero noChecks gd gb 1 x gb' Hr
           (list_elem_of_lookup_2 _ _ _ Hgb) Hx Hp Hrm).
Defined.
(** ** The deliveries of [dispatch] *)

Lemma removeOldest_count gb gb' p :
  removeOldest gb = Done (gb', p) -> gb_count gb' = gb_count gb - 1.
Proof.
  intros H. by apply removeOldest_spec in H as (? & ? & _ & _ & _ & _ & ? & _).
Qed.

(** The branches of [dispatch] under the lock, by the answer of the lookup
    and the flush decision. *)
Lemma dispatchBucket_cases fuel gb pkt ipHdr tcpHdr dataOff tcpPayloadSize e
    mtu now gb' out :
  dispatchBucket fuel gb pkt ipHdr tcpHdr dataOff tcpPayloadSize (Some e) mtu
    now = Done (gb', out) ->
  exists groPkt flushGROPkt tl flags,
    findGROPacket fuel gb ipHdr tcpHdr = Done (groPkt, flushGROPkt) /\
    header.IPv4.TotalLength ipHdr = Done tl /\
    header.TCP.Flags tcpHdr = Done flags /\
    match groPkt, flushGROPkt, flushDecision tl flags mtu with
    | Some g, true, true =>
        exists x,
          gb_packetsPrealloc gb !! g = Some x /\
          removeOne gb g = Done gb' /\
          out = [(e, pk_pkt x); (e, Some pkt)]
    | Some g, true, false =>
        exists x gb1 gb2,
          gb_packetsPrealloc gb !! g = Some x /\
          removeOne gb g = Done gb1 /\
          insert gb2 (Some (IncRef pkt)) ipHdr tcpHdr (Some e) now = Done gb' /\
          ((full gb1 = false /\ gb2 = gb1 /\ out = [(e, pk_pkt x)]) \/
           (full gb1 = true /\
            exists p, removeOldest gb1 = Done (gb2, p) /\
                      out = [(e, pk_pkt x); (e, p)]))
    | Some g, false, true =>
        exists gb1 x',
          mergeInto gb g pkt dataOff flags tcpPayloadSize = Done gb1 /\
          gb_packetsPrealloc gb1 !! g = Some x' /\
          removeOne gb1 g = Done gb' /\
          out = [(e, pk_pkt x')]
    | Some g, false, false =>
        mergeInto gb g pkt dataOff flags tcpPayloadSize = Done gb' /\
        out = []
    | None, true, _ => False
    | None, false, true => gb' = gb /\ out = [(e, Some pkt)]
    | None, false, false =>
        exists gb1,
          insert gb1 (Some (IncRef pkt)) ipHdr tcpHdr (Some e) now = Done gb' /\
          ((full gb = false /\ gb1 = gb /\ out = []) \/
           (full gb = true /\
            exists p, removeOldest gb = Done (gb1, p) /\ out = [(e, p)]))
    end.
Proof.
  unfold dispatchBucket. intros H.
  apply bind_Done in H as ([groPkt fl] & Hfind & H).
  apply bind_Done in H as (flags & Hflags & H).
  apply bind_Done in H as ([[gb1 groPkt1] out1] & Hfm & H).
  apply bind_Done in H as (tl & Htl & H).
  exists groPkt, fl, tl, flags. repeat (split; [done|]).
  unfold flushOrMerge in Hfm. unfold applyFlush in H.
  destruct groPkt as [g|]; destruct fl.
  - apply bind_Done in Hfm as (x & Hx & Hfm). apply deref_Done in Hx.
    cbn [HandlePacket mbind Res_bind app] in Hfm.
    apply bind_Done in Hfm as (gb2 & Hr & Hfm).
    injection Hfm as <- <- <-.
    destruct (flushDecision tl flags mtu).
    + cbn [HandlePacket mbind Res_bind app] in H.
      injection H as <- <-. by exists x.
    + apply bind_Done in H as ([gb3 out3] & Hf & H).
      apply bind_Done in H as (gb4 & Hi & H). injection H as <- <-.
      exists x, gb2, gb3. repeat (split; [done|]).
      destruct (full gb2).
      * right. split; [done|].
        apply bind_Done in Hf as ([gb5 oldest] & Hro & Hf).
        cbn [HandlePacket mbind Res_bind app] in Hf.
        injection Hf as <- <-. by exists oldest.
      * left. by injection Hf as <- <-.
  - apply bind_Done in Hfm as (gb2 & Hm & Hfm). injection Hfm as <- <- <-.
    destruct (flushDecision tl flags mtu).
    + apply bind_Done in H as (x' & Hx' & H). apply deref_Done in Hx'.
      cbn [HandlePacket mbind Res_bind app] in H.
      apply bind_Done in H as (gb3 & Hr & H). injection H as <- <-.
      by exists gb2, x'.
    + by injection H as <- <-.
  - discriminate.
  - injection Hfm as <- <- <-.
    destruct (flushDecision tl flags mtu).
    + cbn [HandlePacket mbind Res_bind app] in H. by injection H as <- <-.
    + apply bind_Done in H as ([gb3 out3] & Hf & H).
      apply bind_Done in H as (gb4 & Hi & H). injection H as <- <-.
      exists gb3. split; [done|].
      destruct (full gb).
      * right. split; [done|].
        apply bind_Done in Hf as ([gb5 oldest] & Hro & Hf).
        cbn [HandlePacket mbind Res_bind app] in Hf.
        injection Hf as <- <-. by exists oldest.
      * left. by injection Hf as <- <-.
Qed.

Lemma findGROPacket_body_not_zero ipHdr tcpHdr x r :
  findGROPacket_body ipHdr tcpHdr x = Done r -> pk_ipHdr x <> [].
Proof.
  unfold findGROPacket_body. intros H E. rewrite E in H.
  apply bind_Done in H as (addrs & Ha & _).
  unfold orElse in Ha. apply bind_Done in Ha as (b & Hb & _).
  apply bind_Done in Hb as (a & _ & Hb). discriminate.
Qed.

(** A slot holds a packet, or it has no headers and no endpoint. *)
Lemma reachable_held chk gd gb :
  reachable chk gd -> gb ∈ gd_buckets gd ->
  Forall (fun x => pk_pkt x <> None \/ (pk_ipHdr x = [] /\ pk_ep x = None))
    (gb_packetsPrealloc gb).
Proof.
  intros Hr Hgb.
  set (Q := fun x => pk_pkt x <> None \/ (pk_ipHdr x = [] /\ pk_ep x = None)).
  assert (Hl : forall x l, Q x -> Q (with_entry x l)).
  { intros x l H. by destruct x. }
  assert (Hall : Forall (fun gb => Forall Q (gb_packetsPrealloc gb))
                   (gd_buckets gd)).
  { eapply (reachable_buckets chk (fun _ => True) (fun _ => True));
      [done| | | |exact Hr].
    - apply Forall_lookup. intros k y Hy. cbn in Hy.
      rewrite list_lookup_imap in Hy.
      destruct (replicate _ _ !! k) as [z|] eqn:Hz; [|discriminate].
      apply lookup_replicate in Hz as [-> _]. injection Hy as <-. by right.
    - intros fuel gb0 s ep mtu now gb1 out t H0 _ _ Hd.
      eapply (dispatchBucket_Forall Q); [| | | |exact H0|exact Hd].
      + by right.
      + exact Hl.
      + intros gb2 g flags gb3 x x' Hm Hx Hx' _. left.
        apply mergeInto_fields in Hm
          as (x0 & p & x1 & p' & Hx0 & Hp & -> & Hp' & _).
        cbn in Hx'.
        rewrite list_lookup_insert_eq in Hx' by (by eapply lookup_lt_Some).
        injection Hx' as <-. by rewrite Hp'.
      + intros l. by left.
    - intros gb0 g gb1 H0 _ Hrm. apply removeOne_keeps in Hrm.
      apply Forall_lookup. intros k y Hy.
      destruct (Hrm k y Hy) as [[l ->]|(x & Hx & [l ->])]; [by right|].
      apply Hl. by eapply Forall_lookup_1. }
  rewrite Forall_forall in Hall. by apply Hall.
Qed.

Lemma held_packet chk gd gb g x :
  reachable chk gd -> gb ∈ gd_buckets gd ->
  gb_packetsPrealloc gb !! g = Some x ->
  pk_ipHdr x <> [] \/ pk_ep x <> None -> pk_pkt x <> None.
Proof.
  intros Hr Hgb Hx Hnz.
  destruct (Forall_lookup_1 _ _ _ _ (reachable_held chk gd gb Hr Hgb) Hx)
    as [H|[H1 H2]]; [done|].
  by destruct Hnz.
Qed.

(** X9. Under the lock [dispatch] makes at most two deliveries, all to
    the endpoint of the call, and keeps the order of a flow: it delivers
    nothing, or the packet alone, or the staged packet of the flow of the
    packet, followed by the packet when the packet must be flushed too, or
    the staged packet after the packet was merged into it, or the front of
    a full bucket that makes room for the packet. *)
Theorem dispatch_delivery_order chk gd gb fuel pkt ipHdr tcpHdr dataOff
    tcpPayloadSize e mtu now gb' out t :
  reachable chk gd -> gb ∈ gd_buckets gd ->
  flowOf ipHdr tcpHdr = Done t ->
  dispatchBucket fuel gb pkt ipHdr tcpHdr dataOff tcpPayloadSize (Some e) mtu
    now = Done (gb', out) ->
  out = [] \/ out = [(e, Some pkt)] \/
  (exists g x,
     staged gb g /\ gb_packetsPrealloc gb !! g = Some x /\ flow x = Done t /\
     (out = [(e, pk_pkt x)] \/ out = [(e, pk_pkt x); (e, Some pkt)])) \/
  (exists g flags gb1 x',
     staged gb g /\
     mergeInto gb g pkt dataOff flags tcpPayloadSize = Done gb1 /\
     gb_packetsPrealloc gb1 !! g = Some x' /\ out = [(e, pk_pkt x')]) \/
  (exists front x,
     full gb = true /\ Front (gb_packets gb) = Some front /\
     gb_packetsPrealloc gb !! front = Some x /\ out = [(e, pk_pkt x)]).
Proof.
  intros Hr Hgb Ht H.
  pose proof (reachable_count chk gd gb Hr Hgb) as Hcount.
  apply dispatchBucket_cases in H
    as (groPkt & fl & tl & flags & Hfind & Htl & Hflags & H).
  destruct groPkt as [g|]; destruct fl; try done.
  - destruct (findGROPacket_some_flow _ _ _ _ _ _ _ Hfind Ht)
      as (Hg & x0 & Hx0 & Hf0).
    right. right. left. exists g, x0.
    destruct (flushDecision tl flags mtu).
    + destruct H as (x & Hx & _ & ->).
      assert (x = x0) as -> by congruence. eauto 10.
    + destruct H as (x & gb1 & gb2 & Hx & Hrm & _ & Hout).
      assert (x = x0) as -> by congruence.
      apply removeOne_count in Hrm.
      destruct Hout as [(_ & _ & ->)|(Hfull & _)]; [eauto 10|].
      unfold full in Hfull. apply Z.eqb_eq in Hfull. lia.
  - destruct (findGROPacket_some_flow _ _ _ _ _ _ _ Hfind Ht) as (Hg & _).
    destruct (flushDecision tl flags mtu).
    + destruct H as (gb1 & x' & Hm & Hx' & _ & ->).
      right. right. right. left. by exists g, flags, gb1, x'.
    + destruct H as (_ & ->). by left.
  - destruct (flushDecision tl flags mtu).
    + destruct H as (_ & ->). right. by left.
    + destruct H as (gb1 & _ & [(_ & _ & ->)|(Hfull & p & Hro & ->)]);
        [by left|].
      apply removeOldest_spec in Hro as (front & x & Hfront & Hx & -> & _).
      right. right. right. right. by exists front, x.
Qed.

Lemma dispatch_delivery_order_witness :
  exists t gb' out,
    flowOf (ipHdrOf segAck) (tcpHdrOf segAck) = Done t /\
    dispatchBucket 16 (bucketOf (stateAfter [arrive segA 100]) 7) segAck
      (ipHdrOf segAck) (tcpHdrOf segAck) 20 1460 (Some 1%nat) 1500 101
    = Done (gb', out) /\
    (length out <= 2)%nat.
Proof.
  set (gd := stateAfter [arrive segA 100]).
  assert (Hr : reachable noChecks gd).
  { apply stateAfter_reachable; [by apply Forall_true|].
    eexists. vm_compute. reflexivity. }
  assert (Hin : bucketOf gd 7 ∈ gd_buckets gd).
  { apply (list_elem_of_lookup_2 _ 7%nat). vm_compute. reflexivity. }
  set (t := match flowOf (ipHdrOf segAck) (tcpHdrOf segAck) with
            | Done t => t
            | _ => ([], [], 0, 0)
            end).
  assert (Ht : flowOf (ipHdrOf segAck) (tcpHdrOf segAck) = Done t)
    by (vm_compute; reflexivity).
  set (r := match dispatchBucket 16 (bucketOf gd 7) segAck (ipHdrOf segAck)
                    (tcpHdrOf segAck) 20 1460 (Some 1%nat) 1500 101 with
            | Done r => r
            | _ => (bucketOf gd 7, [])
            end).
  assert (Hd : dispatchBucket 16 (bucketOf gd 7) segAck (ipHdrOf segAck)
                 (tcpHdrOf segAck) 20 1460 (Some 1%nat) 1500 101
               = Done (r.1, r.2)) by (vm_compute; reflexivity).
  exists t, r.1, r.2. split; [exact Ht|]. split; [exact Hd|].
  destruct (dispatch_delivery_order noChecks gd _ _ _ _ _ _ _ _ _ _ _ _ t Hr
              Hin Ht Hd)
    as [->|[->|[(g & x & _ & _ & _ & [->| ->])|[(g & fl & gb1 & x' & _ & _ & _ & ->)
       |(front & x & _ & _ & _ & ->)]]]]; simpl; lia.
Defined.

Lemma forBuckets_out (R : Delivery -> Prop) f buckets out buckets' out' :
  (forall gb o gb' o',
     gb ∈ buckets -> f gb o = Done (gb', o') -> Forall R o -> Forall R o') ->
  Forall R out ->
  forBuckets f buckets out = Done (buckets', out') ->
  Forall R out'.
Proof.
  revert out buckets' out'.
  induction buckets as [|gb rest IH]; intros out buckets' out' Hf Hout H;
    simpl in H.
  - by injection H as <- <-.
  - apply bind_Done in H as ([gb1 o1] & H1 & H).
    apply bind_Done in H as ([rest1 o2] & H2 & H). injection H as <- <-.
    eapply IH; [|eapply Hf; [|exact H1|exact Hout]; by left|exact H2].
    intros gb0 o gb0' o' Hin. apply Hf. by right.
Qed.

(** X10. No call hands a nil packet to an endpoint. In every state reached
    from [init], the deliveries of [flush], of [flushAll] and of a
    [dispatch] that was given a packet and an endpoint all carry a
    packet. *)
Theorem deliveries_carry_packets chk gd fuel op gd' out :
  reachable chk gd ->
  match op with
  | OpDispatch pkt _ ep _ _ => pkt <> None /\ ep <> None
  | _ => True
  end ->
  run chk fuel gd op = Done (gd', out) ->
  Forall (fun d : Delivery => d.2 <> None) out.
Proof.
  intros Hr Hop Hrun.
  assert (Hfl : forall gb g x o o',
             gb ∈ gd_buckets gd -> gb_packetsPrealloc gb !! g = Some x ->
             HandlePacket (pk_ep x) (pk_pkt x) o = Done o' ->
             Forall (fun d : Delivery => d.2 <> None) o ->
             Forall (fun d : Delivery => d.2 <> None) o').
  { intros gb g x o o' Hgb Hx Ho Hall. unfold HandlePacket in Ho.
    destruct (pk_ep x) as [e|] eqn:He; [|discriminate]. injection Ho as <-.
    apply Forall_app. split; [done|]. constructor; [|constructor]. cbn.
    eapply held_packet; eauto. right. by rewrite He. }
  destruct op as [pkt netProto ep mtu now|now| |interval]; simpl in Hrun.
  - destruct Hop as [Hpkt Hep]. destruct pkt as [p|]; [|done].
    destruct ep as [e|]; [|done].
    unfold dispatch in Hrun. destruct (gd_intervalNS gd =? 0).
    { injection Hrun as <- <-. by repeat constructor. }
    unfold dispatchEnabled in Hrun.
    apply bind_Done in Hrun as (seg & Hseg & Hrun). destruct seg as [s|].
    + apply bind_Done in Hrun as (sum & Hsum & Hrun).
      apply bind_Done in Hrun as (gb & Hgb & Hrun).
      apply bind_Done in Hrun as ([gb1 o] & Hd & Hrun).
      injection Hrun as <- <-.
      apply index_Done in Hgb as [_ Hgb].
      apply list_elem_of_lookup_2 in Hgb.
      apply bucketForPacket_flow in Hsum as [t Ht].
      pose proof (reachable_count chk gd gb Hr Hgb) as Hcount.
      apply dispatchBucket_cases in Hd
        as (groPkt & fl & tl & flags & Hfind & Htl & Hflags & H).
      destruct groPkt as [g|]; destruct fl; try done.
      * destruct (findGROPacket_some_flow _ _ _ _ _ _ _ Hfind Ht)
          as (Hg & x0 & Hx0 & Hf0).
        assert (Hp0 : pk_pkt x0 <> None).
        { eapply held_packet; eauto. left. intros E.
          unfold flow, flowOf in Hf0. rewrite E in Hf0. discriminate. }
        destruct (flushDecision tl flags mtu).
        -- destruct H as (x & Hx & _ & ->).
           assert (x = x0) as -> by congruence. by repeat constructor.
        -- destruct H as (x & gb2 & gb3 & Hx & Hrm & _ & Hout).
           assert (x = x0) as -> by congruence.
           apply removeOne_count in Hrm.
           destruct Hout as [(_ & _ & ->)|(Hfull & _)];
             [by repeat constructor|].
           unfold full in Hfull. apply Z.eqb_eq in Hfull. lia.
      * destruct (flushDecision tl flags mtu).
        -- destruct H as (gb2 & x' & Hm & Hx' & _ & ->).
           apply mergeInto_fields in Hm
             as (x0 & p0 & x1 & p' & Hx0 & Hp & -> & Hp' & _).
           cbn in Hx'.
           rewrite list_lookup_insert_eq in Hx'
             by (by eapply lookup_lt_Some).
           injection Hx' as <-. constructor; [|constructor]. cbn.
           by rewrite Hp'.
        -- destruct H as (_ & ->). constructor.
      * destruct (flushDecision tl flags mtu).
        -- destruct H as (_ & ->). by repeat constructor.
        -- destruct H as (gb2 & _ & [(_ & _ & ->)|(Hfull & q & Hro & ->)]);
             [constructor|].
           apply removeOldest_spec in Hro
             as (front & x & Hfront & Hx & -> & _).
           constructor; [|constructor]. cbn.
           unfold findGROPacket in Hfind. rewrite Hfront in Hfind.
           apply findGROPacket_from_none in Hfind as [_ Hvis].
           destruct (Hvis front (linked_here _ _)) as (x' & Hx' & Hb).
           assert (x' = x) as -> by congruence.
           eapply held_packet; eauto. left.
           by eapply findGROPacket_body_not_zero.
    + injection Hrun as <- <-. by repeat constructor.
  - unfold flush in Hrun.
    apply bind_Done in Hrun as ([bs o] & Hf & Hrun). injection Hrun as <- <-.
    eapply forBuckets_out; [|constructor|exact Hf].
    intros gb o1 gb1 o2 Hgb Hb Hall. cbn beta in Hb.
    destruct (Front (gb_packets gb)) as [g|].
    + apply flushBucket_once in Hb
        as (x & Hx & [(_ & Ho & _)|(_ & -> & _)]); [|done].
      by eapply Hfl.
    + destruct fuel; simpl in Hb; by injection Hb as <- <-.
  - unfold flushAll in Hrun.
    apply bind_Done in Hrun as ([bs o] & Hf & Hrun). injection Hrun as <- <-.
    eapply forBuckets_out; [|constructor|exact Hf].
    intros gb o1 gb1 o2 Hgb Hb Hall. cbn beta in Hb.
    destruct (Front (gb_packets gb)) as [g|].
    + apply flushAllBucket_once in Hb as (x & Hx & Ho & _).
      by eapply Hfl.
    + destruct fuel; simpl in Hb; by injection Hb as <- <-.
  - injection Hrun as <- <-. constructor.
Qed.

Lemma deliveries_carry_packets_witness :
  exists gd' out,
    run noChecks 16 (stateAfter [arrive segA 100]) (arrive segAck 102)
    = Done (gd', out) /\
    length out = 1%nat /\
    Forall (fun d : Delivery => d.2 <> None) out.
Proof.
  set (gd := stateAfter [arrive segA 100]).
  assert (Hr : reachable noChecks gd).
  { apply stateAfter_reachable; [by apply Forall_true|].
    eexists. vm_compute. reflexivity. }
  set (r := match run noChecks 16 gd (arrive segAck 102) with
            | Done r => r
            | _ => (gd, [])
            end).
  assert (Hrun : run noChecks 16 gd (arrive segAck 102) = Done (r.1, r.2))
    by (vm_compute; reflexivity).
  assert (Hlen : length r.2 = 1%nat) by (vm_compute; reflexivity).
  exists r.1, r.2. split; [exact Hrun|]. split; [exact Hlen|].
  apply (deliveries_carry_packets noChecks gd 16 (arrive segAck 102) r.1 r.2
           Hr); [|exact Hrun].
  split; discriminate.
Defined.
(** ** The merge *)

Lemma lor_byte a b :
  0 <= a < 256 -> (Z.lor a (Z.land b 9)) mod 256 = Z.lor a (Z.land b 9).
Proof.
  intros Ha. change 256 with (2 ^ 8). rewrite <- !Z.land_ones by lia.
  rewrite Z.land_lor_distr_l, <- Z.land_assoc.
  change (Z.land 9 (Z.ones 8)) with 9.
  rewrite Z.land_ones by lia. change (2 ^ 8) with 256.
  by rewrite Z.mod_small.
Qed.

(** X11. A merge appends the payload of the packet to the staged packet
    and touches three bytes of what was staged: the two bytes of the IP
    total length, which grows by the payload size modulo 2^16, and the TCP
    flags, which gain the FIN and PSH of the packet. The stored header
    slices show the same two fields; the count, the list and every other
    slot of the bucket stay as they are. *)
Theorem mergeInto_coalesces gb g pkt dataOff flags tcpPayloadSize gb' x p :
  gb_packetsPrealloc gb !! g = Some x -> pk_pkt x = Some p ->
  (34 <= length (pb_data p))%nat ->
  mergeInto gb g pkt dataOff flags tcpPayloadSize = Done gb' ->
  exists x' p' groFlags tl,
    gb_packetsPrealloc gb' !! g = Some x' /\ pk_pkt x' = Some p' /\
    header.TCP.Flags (pk_tcpHdr x) = Done groFlags /\
    header.IPv4.TotalLength (pk_ipHdr x) = Done tl /\
    drop (length (pb_data p)) (pb_data p')
    = drop (Z.to_nat (header.IPv4MinimumSize + dataOff)) (pb_data pkt) /\
    (forall i, (i < length (pb_data p))%nat ->
       i <> 2%nat -> i <> 3%nat -> i <> 33%nat ->
       pb_data p' !! i = pb_data p !! i) /\
    header.IPv4.TotalLength (pb_data p')
    = Done ((tl + tcpPayloadSize) mod 65536) /\
    at_ (pb_data p') 33
    = Done (Z.lor groFlags
              (Z.land flags (Z.lor header.TCPFlagFin header.TCPFlagPsh))) /\
    header.IPv4.TotalLength (pk_ipHdr x')
    = Done ((tl + tcpPayloadSize) mod 65536) /\
    header.TCP.Flags (pk_tcpHdr x')
    = Done (Z.lor groFlags
              (Z.land flags (Z.lor header.TCPFlagFin header.TCPFlagPsh))) /\
    gb_count gb' = gb_count gb /\ gb_packets gb' = gb_packets gb /\
    forall k, k <> g -> gb_packetsPrealloc gb' !! k = gb_packetsPrealloc gb !! k.
Proof.
  intros Hx Hp Hlen H. unfold mergeInto in H.
  rewrite (proj2 (deref_Done _ _ _) Hx) in H. cbn [mbind Res_bind] in H.
  rewrite Hp in H.
  apply bind_Done in H as (groFlags & Hgf & H).
  apply bind_Done in H as (tcpHdr' & Htcp & H).
  apply bind_Done in H as (tl & Htl & H).
  apply bind_Done in H as (ipHdr' & Hip & H). injection H as <-.
  change (Z.lor header.TCPFlagFin header.TCPFlagPsh) with 9 in *.
  change (Z.to_nat header.IPv4MinimumSize + 13)%nat with 33%nat in *.
  set (nf := Z.lor groFlags (Z.land flags 9)) in *.
  set (nl := (tl + tcpPayloadSize) mod 65536) in *.
  set (buf := drop (Z.to_nat (header.IPv4MinimumSize + dataOff)) (pb_data pkt))
    in *.
  assert (Hnl : 0 <= nl < 65536) by (apply Z.mod_pos_bound; lia).
  assert (Hnf : u8 (b8 nf) = nf).
  { rewrite u8_b8. apply lor_byte. unfold header.TCP.Flags in Hgf.
    by apply at__Done in Hgf. }
  assert (Htl0 : header.IPv4.TotalLength (pk_ipHdr x) = Done tl).
  { unfold header.IPv4.TotalLength, Uint16 in *.
    by rewrite !at__insert_ne in Htl by lia. }
  eexists _, _, groFlags, tl. cbn [gb_packetsPrealloc gb_count gb_packets].
  split; [apply list_lookup_insert_eq; by eapply lookup_lt_Some|].
  cbn [pk_pkt]. split; [reflexivity|]. cbn [pk_ipHdr pk_tcpHdr pb_data].
  split; [exact Hgf|]. split; [exact Htl0|].
  split.
  { rewrite !drop_insert_lt by lia. apply drop_app_length. }
  split.
  { intros i Hi H2 H3 H33.
    rewrite !list_lookup_insert_ne by done. by apply lookup_app_l. }
  split.
  { unfold header.IPv4.TotalLength, Uint16, at_.
    rewrite (list_lookup_insert_ne _ 3 2) by lia.
    rewrite (list_lookup_insert_eq _ 2)
      by (rewrite length_insert, length_app; lia).
    rewrite (list_lookup_insert_eq _ 3)
      by (rewrite !length_insert, length_app; lia).
    cbn [mbind Res_bind]. rewrite !u8_b8. f_equal.
    rewrite (Z.mod_small (nl / 256)) by (split; [apply Z.div_pos|
      apply Z.div_lt_upper_bound]; lia).
    pose proof (Z.div_mod nl 256 ltac:(lia)). lia. }
  split.
  { unfold at_. rewrite !list_lookup_insert_ne by lia.
    rewrite list_lookup_insert_eq by (rewrite length_app; lia).
    by rewrite Hnf. }
  split.
  { unfold header.IPv4.TotalLength, header.IPv4.SetTotalLength in *.
    by eapply Uint16_PutUint16. }
  split.
  { unfold header.TCP.SetFlags in Htcp.
    destruct (Nat.ltb_spec (length (pk_tcpHdr x)) 14); [discriminate|].
    injection Htcp as <-. unfold header.TCP.Flags, at_.
    rewrite list_lookup_insert_eq by lia. by rewrite Hnf. }
  split; [done|]. split; [done|].
  intros k Hk. by rewrite list_lookup_insert_ne.
Qed.

Lemma mergeInto_coalesces_witness :
  exists x p gb' x' p',
    gb_packetsPrealloc (bucketOf (stateAfter [arrive segA 100]) 7) !! 0%nat
    = Some x /\
    pk_pkt x = Some p /\ (34 <= length (pb_data p))%nat /\
    mergeInto (bucketOf (stateAfter [arrive segA 100]) 7) 0 segA2 20 16 1460
    = Done gb' /\
    gb_packetsPrealloc gb' !! 0%nat = Some x' /\ pk_pkt x' = Some p' /\
    drop (length (pb_data p)) (pb_data p') = drop 40 (pb_data segA2) /\
    header.IPv4.TotalLength (pb_data p') = Done 2960.
Proof.
  set (gb := bucketOf (stateAfter [arrive segA 100]) 7).
  set (x := default groPacket_zero (gb_packetsPrealloc gb !! 0%nat)).
  assert (Hx : gb_packetsPrealloc gb !! 0%nat = Some x)
    by (vm_compute; reflexivity).
  assert (Hp : pk_pkt x = Some (IncRef segA)) by (vm_compute; reflexivity).
  assert (Hlen : (34 <= length (pb_data (IncRef segA)))%nat)
    by (vm_compute; lia).
  set (gb' := match mergeInto gb 0 segA2 20 16 1460 with
              | Done g => g
              | _ => gb
              end).
  assert (Hm : mergeInto gb 0 segA2 20 16 1460 = Done gb')
    by (vm_compute; reflexivity).
  assert (Htl : header.IPv4.TotalLength (pk_ipHdr x) = Done 1500)
    by (vm_compute; reflexivity).
  destruct (mergeInto_coalesces gb 0 segA2 20 16 1460 gb' x (IncRef segA)
              Hx Hp Hlen Hm)
    as (x' & p' & gf & tl & Hx' & Hp' & _ & Htl' & Hdrop & _ & Hnew & _).
  assert (tl = 1500) as -> by congruence.
  exists x, (IncRef segA), gb', x', p'.
  exact (conj Hx (conj Hp (conj Hlen (conj Hm (conj Hx' (conj Hp'
           (conj Hdrop Hnew))))))).
Defined.

Lemma findGROPacket_body_seq ipHdr tcpHdr x :
  findGROPacket_body ipHdr tcpHdr x = Done (Some false) ->
  exists s n c,
    header.TCP.SequenceNumber (pk_tcpHdr x) = Done s /\
    payloadSize x = Done n /\
    header.TCP.SequenceNumber tcpHdr = Done c /\
    (s + n) mod 2 ^ 32 = c.
Proof.
  unfold findGROPacket_body. intros H.
  apply bind_Done in H as ([] & _ & H); [discriminate|].
  apply bind_Done in H as ([] & _ & H); [discriminate|].
  apply bind_Done in H as (TOS & _ & H).
  apply bind_Done in H as (groTOS & _ & H).
  apply bind_Done in H as ([] & _ & H); [discriminate|].
  apply bind_Done in H as (flags & _ & H).
  apply bind_Done in H as (groPktFlags & _ & H).
  apply bind_Done in H as (dataOff & Hoff & H).
  apply bind_Done in H as ([] & Htcp & H); [discriminate|].
  apply orElse_false in Htcp as [_ Hseq].
  apply bind_Done in Hseq as (s & Hs & Hseq).
  apply bind_Done in Hseq as (n & Hn & Hseq).
  apply bind_Done in Hseq as (c & Hc & Hseq). injection Hseq as Hseq.
  apply neqb_false in Hseq. by exists s, n, c.
Qed.

(** X12. After a merge that the matcher allowed, the entry expects the byte
    that follows the merged packet: its sequence number is unchanged, its
    payload size has grown by the payload size of the packet, and the sum
    of the two is the sequence number of the packet plus its payload size,
    modulo 2^32, as long as the new payload size fits 16 bits. *)
Theorem merge_expects_next_byte gb g pkt ipHdr tcpHdr x dataOff flags
    tcpPayloadSize gb' :
  gb_packetsPrealloc gb !! g = Some x ->
  findGROPacket_body ipHdr tcpHdr x = Done (Some false) ->
  mergeInto gb g pkt dataOff flags tcpPayloadSize = Done gb' ->
  exists x' s n c,
    gb_packetsPrealloc gb' !! g = Some x' /\
    header.TCP.SequenceNumber tcpHdr = Done c /\
    payloadSize x = Done n /\
    header.TCP.SequenceNumber (pk_tcpHdr x') = Done s /\
    header.TCP.SequenceNumber (pk_tcpHdr x) = Done s /\
    header.TCP.AckNumber (pk_tcpHdr x')
    = header.TCP.AckNumber (pk_tcpHdr x) /\
    header.TCP.DataOffset (pk_tcpHdr x')
    = header.TCP.DataOffset (pk_tcpHdr x) /\
    payloadSize x' = Done ((n + tcpPayloadSize) mod 65536) /\
    (0 <= tcpPayloadSize -> n + tcpPayloadSize < 65536 ->
     payloadSize x' = Done (n + tcpPayloadSize) /\
     (s + (n + tcpPayloadSize)) mod 2 ^ 32
     = (c + tcpPayloadSize) mod 2 ^ 32).
Proof.
  intros Hx Hb H.
  apply findGROPacket_body_seq in Hb as (s & n & c & Hs & Hn & Hc & Hseq).
  unfold mergeInto in H.
  rewrite (proj2 (deref_Done _ _ _) Hx) in H. cbn [mbind Res_bind] in H.
  destruct (pk_pkt x) as [p|]; [|discriminate].
  apply bind_Done in H as (groFlags & Hgf & H).
  apply bind_Done in H as (tcpHdr' & Htcp & H).
  apply bind_Done in H as (tl & Htl & H).
  apply bind_Done in H as (ipHdr' & Hip & H). injection H as <-.
  unfold header.TCP.SetFlags in Htcp.
  destruct (Nat.ltb_spec (length (pk_tcpHdr x)) 14); [discriminate|].
  injection Htcp as <-.
  assert (Htl0 : header.IPv4.TotalLength (pk_ipHdr x) = Done tl).
  { unfold header.IPv4.TotalLength, Uint16 in *.
    by rewrite !at__insert_ne in Htl by (simpl; lia). }
  assert (Htl' : header.IPv4.TotalLength ipHdr'
                 = Done ((tl + tcpPayloadSize) mod 65536)).
  { unfold header.IPv4.TotalLength, header.IPv4.SetTotalLength in *.
    eapply Uint16_PutUint16; [exact Hip|]. apply Z.mod_pos_bound. lia. }
  eexists _, s, n, c. cbn [gb_packetsPrealloc].
  split; [apply list_lookup_insert_eq; by eapply lookup_lt_Some|].
  cbn [pk_tcpHdr]. split; [exact Hc|]. split; [exact Hn|].
  assert (Hs' : header.TCP.SequenceNumber (<[13%nat := b8 (Z.lor groFlags
                    (Z.land flags (Z.lor header.TCPFlagFin header.TCPFlagPsh)))]>
                    (pk_tcpHdr x)) = Done s).
  { unfold header.TCP.SequenceNumber, Uint32 in *.
    by rewrite !at__insert_ne by lia. }
  split; [exact Hs'|]. split; [exact Hs|].
  split.
  { unfold header.TCP.AckNumber, Uint32. by rewrite !at__insert_ne by lia. }
  assert (Hoff : header.TCP.DataOffset (<[13%nat := b8 (Z.lor groFlags
                    (Z.land flags (Z.lor header.TCPFlagFin header.TCPFlagPsh)))]>
                    (pk_tcpHdr x)) = header.TCP.DataOffset (pk_tcpHdr x)).
  { unfold header.TCP.DataOffset. by rewrite !at__insert_ne by lia. }
  split; [exact Hoff|].
  assert (Hps : payloadSize
                  (mkGroPacket (pk_entry x)
                     (Some (mkPacketBuffer
                        (<[3%nat := b8 ((tl + tcpPayloadSize) mod 65536)]>
                           (<[2%nat := b8 ((tl + tcpPayloadSize) mod 65536
                                           / 256)]>
                              (<[(Z.to_nat header.IPv4MinimumSize + 13)%nat
                                 := b8 (Z.lor groFlags
                                     (Z.land flags
                                        (Z.lor header.TCPFlagFin
                                           header.TCPFlagPsh)))]>
                                 (pb_data p ++
                                  drop (Z.to_nat (header.IPv4MinimumSize
                                                  + dataOff)) (pb_data pkt)))))
                        (pb_RXChecksumValidated p) (pb_refs p)))
                     ipHdr'
                     (<[13%nat := b8 (Z.lor groFlags
                        (Z.land flags
                           (Z.lor header.TCPFlagFin header.TCPFlagPsh)))]>
                        (pk_tcpHdr x))
                     (pk_created x) (pk_ep x) (pk_idx x))
                = Done ((n + tcpPayloadSize) mod 65536)).
  { unfold payloadSize in *. cbn [pk_ipHdr pk_tcpHdr].
    rewrite Htl', Hoff. rewrite Htl0 in Hn.
    destruct (header.TCP.DataOffset (pk_tcpHdr x)) as [off| |];
      [|discriminate..].
    cbn [mbind Res_bind] in *. injection Hn as <-. f_equal.
    unfold header.IPv4MinimumSize.
    replace ((tl + tcpPayloadSize) mod 65536 - 20 - off)
      with ((tl + tcpPayloadSize) mod 65536 - (20 + off)) by lia.
    rewrite Zminus_mod_idemp_l, Zplus_mod_idemp_l. f_equal. lia. }
  split; [exact Hps|].
  intros Hps0 Hfit.
  assert (Hn0 : 0 <= n) by (apply payloadSize_range in Hn; lia).
  split.
  { rewrite <- (Z.mod_small (n + tcpPayloadSize) 65536) by lia. exact Hps. }
  rewrite <- Hseq. rewrite Zplus_mod_idemp_l. f_equal. lia.
Qed.

Lemma merge_expects_next_byte_witness :
  exists x gb' x',
    gb_packetsPrealloc (bucketOf (stateAfter [arrive segA 100]) 7) !! 0%nat
    = Some x /\
    findGROPacket_body (ipHdrOf segA2) (tcpHdrOf segA2) x = Done (Some false) /\
    mergeInto (bucketOf (stateAfter [arrive segA 100]) 7) 0 segA2 20 16 1460
    = Done gb' /\
    gb_packetsPrealloc gb' !! 0%nat = Some x' /\
    payloadSize x' = Done 2920.
Proof.
  set (gb := bucketOf (stateAfter [arrive segA 100]) 7).
  set (x := default groPacket_zero (gb_packetsPrealloc gb !! 0%nat)).
  assert (Hx : gb_packetsPrealloc gb !! 0%nat = Some x)
    by (vm_compute; reflexivity).
  assert (Hb : findGROPacket_body (ipHdrOf segA2) (tcpHdrOf segA2) x
               = Done (Some false)) by (vm_compute; reflexivity).
  set (gb' := match mergeInto gb 0 segA2 20 16 1460 with
              | Done g => g
              | _ => gb
              end).
  assert (Hm : mergeInto gb 0 segA2 20 16 1460 = Done gb')
    by (vm_compute; reflexivity).
  assert (Hn : payloadSize x = Done 1460) by (vm_compute; reflexivity).
  destruct (merge_expects_next_byte gb 0 segA2 (ipHdrOf segA2)
              (tcpHdrOf segA2) x 20 16 1460 gb' Hx Hb Hm)
    as (x' & s & n & c & Hx' & _ & Hn' & _ & _ & _ & _ & Hps & _).
  assert (n = 1460) as -> by congruence.
  exists x, gb', x'.
  exact (conj Hx (conj Hb (conj Hm (conj Hx' Hps)))).
Defined.
(** ** What the timer takes *)

Lemma forBuckets_exact (R : groBucket -> groBucket -> Prop)
    (d : groBucket -> option Delivery) f buckets out buckets' out' :
  (forall gb o gb' o',
     f gb o = Done (gb', o') -> R gb gb' /\ o' = o ++ option_list (d gb)) ->
  forBuckets f buckets out = Done (buckets', out') ->
  Forall2 R buckets buckets' /\ out' = out ++ omap d buckets.
Proof.
  intros Hf. revert out buckets' out'.
  induction buckets as [|gb rest IH]; intros out buckets' out' H; simpl in H.
  - injection H as <- <-. split; [constructor|]. by rewrite app_nil_r.
  - apply bind_Done in H as ([gb1 o1] & H1 & H).
    apply bind_Done in H as ([rest1 o2] & H2 & H). injection H as <- <-.
    apply Hf in H1 as [HR ->]. apply IH in H2 as [Hrest ->].
    split; [by constructor|]. cbn [omap list_omap].
    destruct (d gb); cbn [option_list]; by rewrite <- app_assoc.
Qed.





(** ** Shutdown *)

Lemma ends_functional mem cur n m : ends mem cur n -> ends mem cur m -> n = m.
Proof.
  intros H. revert m. induction H as [|g x n Hx _ IH]; intros m Hm;
    inversion Hm as [|? x' m' Hx' Hm']; subst; [done|].
  assert (x' = x) as -> by congruence. f_equal. by apply IH.
Qed.

Lemma ends_linked mem cur n k :
  ends mem cur n -> linked mem cur k ->
  exists j, (j <= n)%nat /\ ends mem (Some k) j.
Proof.
  intros He Hl. revert n He.
  induction Hl as [g|g x i Hx _ IH]; intros n He.
  - by exists n.
  - inversion He as [|? x' n' Hx' He']; subst.
    assert (x' = x) as -> by congruence.
    destruct (IH _ He') as (j & Hj & Hk). exists j. split; [lia|done].
Qed.

(** A list that ends does not come back to a slot it has left. *)
Lemma ends_no_return (mem : list groPacket) (g : nat) x n :
  mem !! g = Some x -> ends mem (next (pk_entry x)) n ->
  ~ linked mem (next (pk_entry x)) g.
Proof.
  intros Hx He Hl.
  destruct (ends_linked _ _ _ _ He Hl) as (j & Hj & Hg).
  pose proof (ends_functional _ _ _ _ Hg (ends_next _ _ _ _ Hx He)). lia.
Qed.

Lemma released_links (mem : list groPacket) (g : nat) x p (k : nat) y :
  mem !! g = Some x ->
  <[g := released x p]> mem !! k = Some y ->
  exists z, mem !! k = Some z /\ pk_entry y = pk_entry z.
Proof.
  intros Hx Hy. destruct (decide (k = g)) as [->|Hne].
  - rewrite list_lookup_insert_eq in Hy by (by eapply lookup_lt_Some).
    injection Hy as <-. by exists x.
  - rewrite list_lookup_insert_ne in Hy by done. by exists y.
Qed.

Lemma released_ends (mem : list groPacket) (g : nat) x p cur n :
  mem !! g = Some x ->
  ends (<[g := released x p]> mem) cur n -> ends mem cur n.
Proof.
  intros Hx H. induction H as [|c y n Hy _ IH]; [constructor|].
  destruct (released_links _ _ _ _ _ _ Hx Hy) as (z & Hz & E).
  econstructor; [exact Hz|]. by rewrite <- E.
Qed.

Lemma released_linked (mem : list groPacket) (g : nat) x p cur k :
  mem !! g = Some x ->
  linked mem cur k -> linked (<[g := released x p]> mem) cur k.
Proof.
  intros Hx H. induction H as [c|c z i Hz _ IH]; [constructor|].
  destruct (decide (c = g)) as [->|Hne].
  - assert (z = x) as -> by congruence.
    apply (linked_next _ g (released x p)); [|exact IH].
    apply list_lookup_insert_eq. by eapply lookup_lt_Some.
  - eapply linked_next; [|exact IH]. by rewrite list_lookup_insert_ne.
Qed.

Lemma linked_released (mem : list groPacket) (g : nat) x p cur k :
  mem !! g = Some x ->
  linked (<[g := released x p]> mem) cur k -> linked mem cur k.
Proof.
  intros Hx H. induction H as [c|c y i Hy _ IH]; [constructor|].
  destruct (released_links _ _ _ _ _ _ Hx Hy) as (z & Hz & E).
  eapply linked_next; [exact Hz|]. by rewrite <- E.
Qed.

Lemma closeBucket_ends fuel mem cur mem' :
  closeBucket fuel mem cur = Done mem' -> exists n, ends mem cur n.
Proof.
  revert mem cur. induction fuel as [|fuel IH]; intros mem [g|] H;
    simpl in H; try discriminate; try (exists 0%nat; constructor).
  apply bind_Done in H as (x & Hx & H). apply deref_Done in Hx.
  destruct (pk_pkt x) as [p|]; [|discriminate].
  apply IH in H as [n Hn]. exists (S n).
  econstructor; [exact Hx|]. by eapply released_ends.
Qed.

(** What the loop of [close] leaves of a bucket. *)
Lemma closeBucket_spec fuel mem cur mem' :
  closeBucket fuel mem cur = Done mem' ->
  length mem' = length mem /\
  forall k x, mem !! k = Some x ->
    (linked mem cur k ->
     exists p, pk_pkt x = Some p /\ mem' !! k = Some (released x p)) /\
    (~ linked mem cur k -> mem' !! k = Some x).
Proof.
  revert mem cur. induction fuel as [|fuel IH]; intros mem [g|] H.
  - discriminate.
  - injection H as <-. split; [done|]. intros k x Hx.
    split; [intros Hl; inversion Hl|done].
  - destruct (closeBucket_ends _ _ _ _ H) as [n Hends]. simpl in H.
    apply bind_Done in H as (xg & Hg & H). apply deref_Done in Hg.
    destruct (pk_pkt xg) as [p|] eqn:Hp; [|discriminate].
    inversion Hends as [|? xg' n' Hg' He']; subst.
    assert (xg' = xg) as -> by congruence.
    pose proof (ends_no_return _ _ _ _ Hg He') as Hnr.
    apply IH in H as [Hlen Hrest]. rewrite length_insert in Hlen.
    split; [done|]. intros k x Hx.
    destruct (decide (k = g)) as [->|Hne].
    + assert (x = xg) as -> by congruence.
      destruct (Hrest g (released xg p)) as [_ Hkeep].
      { apply list_lookup_insert_eq. by eapply lookup_lt_Some. }
      split.
      * intros _. exists p. split; [done|]. apply Hkeep.
        intros Hl. apply Hnr. exact (linked_released _ _ _ _ _ _ Hg Hl).
      * intros Hn. destruct Hn. constructor.
    + destruct (Hrest k x) as [Hin Hout].
      { by rewrite list_lookup_insert_ne. }
      split.
      * intros Hl. apply Hin. apply released_linked; [done|].
        inversion Hl as [|? x1 ? Hx1 Hl1]; subst; [done|].
        by assert (x1 = xg) as -> by congruence.
      * intros Hn. apply Hout. intros Hl. apply Hn.
        eapply linked_next; [exact Hg|].
        exact (linked_released _ _ _ _ _ _ Hg Hl).
  - injection H as <-. split; [done|]. intros k x Hx.
    split; [intros Hl; inversion Hl|done].
Qed.

(** X15. When [close] returns, it has released the packet of every entry
    that is in a list exactly once and has changed nothing else: every
    bucket keeps its count, its list and its free-slot stack, a slot of the
    list holds its entry with the reference count of the packet one lower,
    and a slot outside the list is as it was. The entries stay in the
    lists. *)
Theorem close_releases_once fuel gd gd' :
  close fuel gd = Done gd' ->
  gd_intervalNS gd' = gd_intervalNS gd /\
  Forall2
    (fun gb gb' =>
       gb_count gb' = gb_count gb /\ gb_packets gb' = gb_packets gb /\
       gb_allocIdxs gb' = gb_allocIdxs gb /\
       forall k x, gb_packetsPrealloc gb !! k = Some x ->
         (staged gb k ->
          exists p, pk_pkt x = Some p /\
                    gb_packetsPrealloc gb' !! k = Some (released x p)) /\
         (~ staged gb k -> gb_packetsPrealloc gb' !! k = Some x))
    (gd_buckets gd) (gd_buckets gd').
Proof.
  unfold close. intros H.
  apply bind_Done in H as ([bs o] & Hf & H). injection H as <-.
  split; [done|]. cbn [gd_buckets].
  eapply (forBuckets_exact _ (fun _ => None)) in Hf; [exact (proj1 Hf)|].
  intros gb o1 gb1 o2 Hb. cbn beta in Hb.
  apply bind_Done in Hb as (mem & Hc & Hb). injection Hb as <- <-.
  split; [|by rewrite app_nil_r].
  apply closeBucket_spec in Hc as [_ Hc]. done.
Qed.

Lemma close_releases_once_witness :
  exists gd',
    close 16 (stateAfter [arrive segA 100]) = Done gd' /\
    gd_intervalNS gd' = 10000000 /\
    Forall2
      (fun gb gb' =>
         gb_count gb' = gb_count gb /\ gb_packets gb' = gb_packets gb /\
         gb_allocIdxs gb' = gb_allocIdxs gb /\
         forall k x, gb_packetsPrealloc gb !! k = Some x ->
           (staged gb k ->
            exists p, pk_pkt x = Some p /\
                      gb_packetsPrealloc gb' !! k = Some (released x p)) /\
           (~ staged gb k -> gb_packetsPrealloc gb' !! k = Some x))
      (gd_buckets (stateAfter [arrive segA 100])) (gd_buckets gd').
Proof.
  set (gd := stateAfter [arrive segA 100]).
  set (gd' := match close 16 gd with Done r => r | _ => gd end).
  assert (Hrun : close 16 gd = Done gd') by (vm_compute; reflexivity).
  assert (Hi : gd_intervalNS gd = 10000000) by (vm_compute; reflexivity).
  exists gd'. split; [exact Hrun|].
  rewrite <- Hi. exact (close_releases_once 16 gd gd' Hrun).
Defined.
(** ** The errors and the calls of [Save] *)

Section SaveProperties.

Context {E Meta Writer Bytes FD MOpts : Type}.
Variable x : @state.Externals E Meta.
Variable opts : @state.SaveOpts Meta Writer Bytes FD MOpts.
Variable a : @state.SaveAnswers E.

(** X16. [Save] returns the error of the first step that failed, and nil
    only when no step failed. An error of [statefile.NewWriter] is returned
    as an [ErrStateFile]; an error of [k.SaveTo] is returned as it is, or as
    an [ErrStateFile] when it is ENOSPC, and an error of the later [Close]
    or [Flush] never replaces it; an error of [Close], and after it one of
    [Flush] when there is a pages metadata file, is returned as an
    [ErrStateFile]. *)
Theorem Save_first_error :
  state.Equals_ENOSPC x None = false ->
  let err := (state.Save x opts a).2 in
  (err = None <->
   state.NewWriter_err a = None /\ state.SaveTo_err a = None /\
   state.Close_err a = None /\
   (state.PagesMetadata opts = None \/ state.Flush_err a = None)) /\
  (forall e, state.NewWriter_err a = Some e ->
     err = Some (state.ErrStateFile (state.ext e))) /\
  (forall e, state.NewWriter_err a = None -> state.SaveTo_err a = Some e ->
     err = Some (if state.Equals_ENOSPC x (Some (state.ext e))
                 then state.ErrStateFile (state.ext e)
                 else state.ext e)) /\
  (forall e, state.NewWriter_err a = None -> state.SaveTo_err a = None ->
     state.Close_err a = Some e ->
     err = Some (state.ErrStateFile (state.ext e))) /\
  (forall e f, state.NewWriter_err a = None -> state.SaveTo_err a = None ->
     state.Close_err a = None -> state.PagesMetadata opts = Some f ->
     state.Flush_err a = Some e ->
     err = Some (state.ErrStateFile (state.ext e))).
Proof.
  intros Hnil err. subst err. unfold state.Save.
  destruct a as [nw st cl fl]. destruct opts as [d pm pf k m mo r au].
  cbn [state.NewWriter_err state.SaveTo_err state.Close_err state.Flush_err
         state.PagesMetadata].
  destruct nw as [e1|].
  { cbn. split; [split; [discriminate|intros (H & _); discriminate]|].
    split; [by intros e [= <-]|]. repeat split; intros; discriminate. }
  destruct st as [e2|].
  { cbn [fmap option_fmap option_map].
    destruct (state.Equals_ENOSPC x (Some (state.ext e2))) eqn:Een;
      destruct pm; cbn;
      (split; [split; [discriminate|intros (_ & H & _); discriminate]|]);
      (split; [intros; discriminate|]);
      (split; [intros e _ [= <-]; by rewrite ?Een|]);
      split; intros; discriminate. }
  cbn [fmap option_fmap option_map]. rewrite Hnil.
  destruct cl as [e3|].
  { destruct pm; cbn;
      (split; [split; [discriminate|intros (_ & _ & H & _); discriminate]|]);
      (split; [intros; discriminate|]);
      (split; [intros; discriminate|]);
      (split; [by intros e _ _ [= <-]|]); intros; discriminate. }
  destruct pm as [f0|]; [destruct fl as [e4|]|]; cbn.
  - split; [split; [discriminate|intros (_ & _ & _ & [H|H]); discriminate]|].
    split; [intros; discriminate|]. split; [intros; discriminate|].
    split; [intros; discriminate|]. by intros e f _ _ _ _ [= <-].
  - split; [split; [intros _; repeat split; by right|done]|].
    repeat split; intros; discriminate.
  - split; [split; [intros _; repeat split; by left|done]|].
    repeat split; intros; discriminate.
Qed.

(** X17. Whatever the calls answer, [Save] pauses the tasks, receives
    their states and stops the watchdog before it does anything else, and
    ends by starting the watchdog and then resuming the tasks; between the
    two it neither pauses nor resumes the tasks nor touches the watchdog. *)
Theorem Save_pauses_and_resumes :
  exists mid,
    (state.Save x opts a).1
    = [state.CPUTime; state.LogInfof; state.LogInfof; state.KPause;
       state.KReceiveTaskStates; state.WStop]
      ++ mid ++ [state.WStart; state.KUnpause; state.LogInfof] /\
    Forall (fun c => c <> state.KPause /\ c <> state.KUnpause /\
                     c <> state.WStop /\ c <> state.WStart) mid.
Proof.
  exists (take (length (state.Save x opts a).1 - 9)
            (drop 6 (state.Save x opts a).1)).
  unfold state.Save.
  destruct a as [[e1|] [e2|] [e3|] [e4|]];
    destruct opts as [d [f|] pf k m mo [] au];
    cbn [state.NewWriter_err state.SaveTo_err state.Close_err
           state.Flush_err state.PagesMetadata state.Resume state.Autosave
           state.Metadata state.Destination state.Key state.PagesFile
           state.MemoryFileSaveOpts fmap option_fmap option_map
           state.orStateFile];
    try destruct (state.Equals_ENOSPC x _);
    cbn [state.orStateFile state.wrap];
    (split; [reflexivity|]); cbn;
    repeat (constructor; [repeat split; discriminate|]); constructor.
Qed.

(** X18. [Save] tells the kernel the outcome that it returns: with no
    error the one report is [SetSaveSuccess] with the autosave option, with
    an error it is [SetSaveError] with that very error. Then it calls
    [BeforeResume] when the statefile is for save-resume and kills the
    sandbox with exit status 0 otherwise, never both. The statefile writer
    is closed exactly when it was opened, also after [k.SaveTo] failed, and
    the pages metadata is flushed exactly when the writer was opened and
    there is a pages metadata file. *)
Theorem Save_reports_outcome :
  let '(tr, err) := state.Save x opts a in
  match err with
  | None =>
      In (state.KSetSaveSuccess (state.Autosave opts)) tr /\
      forall e, ~ In (state.KSetSaveError e) tr
  | Some e =>
      In (state.KSetSaveError e) tr /\
      (forall e', In (state.KSetSaveError e') tr -> e' = e) /\
      forall b, ~ In (state.KSetSaveSuccess b) tr
  end /\
  (if state.Resume opts
   then In state.KBeforeResume tr /\
        forall s, ~ In (state.KKill_WaitStatusExit s) tr
   else In (state.KKill_WaitStatusExit 0) tr /\
        ~ In state.KBeforeResume tr) /\
  (In state.WcClose tr <-> state.NewWriter_err a = None) /\
  (In state.BufFlush tr <->
   state.NewWriter_err a = None /\ state.PagesMetadata opts <> None).
Proof.
  unfold state.Save.
  destruct a as [[e1|] [e2|] [e3|] [e4|]];
    destruct opts as [d [f|] pf k m mo [] au];
    cbn [state.NewWriter_err state.SaveTo_err state.Close_err
           state.Flush_err state.PagesMetadata state.Resume state.Autosave
           state.Metadata state.Destination state.Key state.PagesFile
           state.MemoryFileSaveOpts fmap option_fmap option_map
           state.orStateFile];
    try destruct (state.Equals_ENOSPC x _);
    cbn [state.orStateFile state.wrap]; cbn;
    repeat split;
    try (intros; discriminate);
    try (intros; intuition (discriminate || congruence));
    try (intuition (discriminate || congruence)).
Qed.

End SaveProperties.

Lemma Save_first_error_witness :
  (state.Save (E := Z) (Meta := unit) (Writer := unit) (Bytes := unit)
     (FD := unit) (MOpts := unit)
     (state.mkExternals tt id (fun _ => false))
     (state.mkSaveOpts tt (Some tt) None tt None tt false false)
     (state.mkSaveAnswers None None (Some 5) (Some 7))).2
  = Some (state.ErrStateFile (state.ext 5)).
Proof.
  apply (Save_first_error (E := Z) (Meta := unit) (Writer := unit)
           (Bytes := unit) (FD := unit) (MOpts := unit)
           (state.mkExternals tt id (fun _ => false))
           (state.mkSaveOpts tt (Some tt) None tt None tt false false)
           (state.mkSaveAnswers None None (Some 5) (Some 7)) eq_refl);
    reflexivity.
Defined.
